(** * Method-stub synthesis of gopls: a shallow embedding of
      [internal/lsp/source/stub.go] and the properties of its specification.

    The Go code is embedded function by function.  What the code obtains from
    the Go standard library ([go/ast], [go/types], [go/token]) is modelled by
    the modules [token], [types] and [ast] below; what it obtains from the
    surrounding language server (the [Package] and [Snapshot] interfaces of
    package [source]) is a type class and a record of operations. *)

From Stdlib Require Import ZArith Lia.
From stdpp Require Import base option list gmap strings pretty.

Module token.
(** [token.Pos]: an offset in the file set. *)
Definition Pos := Z.
(** The operators the code tests for ([token.AND]); any other one is opaque. *)
Inductive Token := AND | OtherToken (lit : string).
End token.

Module types.
(** [*types.Package]: the code reads [Path()] and [Name()] only. *)
Record Package := mkPackage { Path : string; Name : string }.

(** [*types.Func]: a method of an interface. *)
Record Func_ (T : Type) := mkFunc { fn_Name : string; fn_Pos : token.Pos; fn_Type : T }.
Arguments mkFunc {T} _ _ _.
Arguments fn_Name {T} _.
Arguments fn_Pos {T} _.
Arguments fn_Type {T} _.

(** [types.Type].  A [Named] type carries the name, package and position of
    its [*types.TypeName] (go/types ties the two in a cycle, unfolded here)
    and its underlying type. *)
#[warnings="-register-all"]
Inductive Type_ :=
| Invalid
| Basic (name : string)
| Named (obj_name : string) (obj_pkg : option Package) (obj_pos : token.Pos)
        (underlying : Type_)
| Pointer (elem : Type_)
| Slice (elem : Type_)
| Struct
| Signature (params results : list Type_) (variadic : bool)
| Interface (methods : list (Func_ Type_)) (embeddeds : list Type_).

Definition Func := Func_ Type_.

(** [t.Underlying()]. *)
Definition Underlying (t : Type_) : Type_ :=
  match t with
  | Named _ _ _ u => u
  | _ => t
  end.

(** The dynamic type of a [types.Object]. *)
Inductive ObjKind :=
| PkgName (imported : Package)
| TypeName
| Var
| Const
| FuncObj
| Builtin.

(** [types.Object]: [Name()], [Pkg()] (nil for universe objects), [Pos()],
    [Type()]. *)
Record Object := mkObject {
  ObjName : string;
  Pkg : option Package;
  ObjPos : token.Pos;
  Kind : ObjKind;
  ObjType : Type_ }.

(** [n.Obj()] of a [*types.Named]. *)
Definition Obj (obj_name : string) (obj_pkg : option Package) (obj_pos : token.Pos)
    (underlying : Type_) : Object :=
  {| ObjName := obj_name; Pkg := obj_pkg; ObjPos := obj_pos; Kind := TypeName;
     ObjType := Named obj_name obj_pkg obj_pos underlying |}.

(** [types.Info]: the code reads [Uses] only, a Go map keyed by the address
    of an [*ast.Ident]. *)
Record Info := mkInfo { Uses : gmap positive Object }.

(** [*types.Selection]: the code reads [Type()] only. *)
Record Selection := mkSelection { SelType : Type_ }.

(** [*types.MethodSet].  Every lookup of the code is
    [Lookup(ct.pkg, name)] on a method set of the concrete type, so the set
    is keyed by the method name as package [ct.pkg] sees it. *)
Definition MethodSet := gmap string Selection.
Definition Lookup (ms : MethodSet) (pkg : Package) (name : string) : option Selection :=
  ms !! name.
End types.

Module ast.
(** [*ast.Ident].  [ptr] is the address of the node, the key of
    [Info.Uses]; a node allocated by the rewriter itself has no entry in any
    map of the type checker and carries [None]. *)
Record Ident := mkIdent { ptr : option positive; NamePos : token.Pos; Name : string }.

(** The node types the code distinguishes by a type switch or assertion. *)
Inductive Kind :=
| StarExpr
| UnaryExpr (Op : token.Token)
| CallExpr
| CompositeLit
| ParenExpr
| MapType
| ArrayType
| ChanType
| Ellipsis
| FuncType
| FieldList
| Field (names : list string)
| InterfaceType
| StructType
| BasicLit (value : string)
| OtherExpr.

(** An expression.  Identifiers and selectors are the nodes the rewriter
    acts on; any other node is its kind, its extent and its children in the
    order [ast.Inspect] and [astutil.Apply] visit them.  The names of a
    [Field] are declarations: go/types records them in [Info.Defs], never in
    [Info.Uses], so the callbacks of this file leave them alone and they
    are kept as plain names. *)
#[warnings="-register-all"]
Inductive Expr :=
| EIdent (x : Ident)
| ESelector (X : Expr) (Sel : Ident)
| ENode (k : Kind) (pos end_ : token.Pos) (children : list Expr).

(** [imp.Name] is nil for a plain import; [Path] is the import path, that
    is [strconv.Unquote(imp.Path.Value)]. *)
Record ImportSpec := mkImportSpec { ImpName : option Ident; ImpPath : string }.

(** [*ast.File]: the name of the file, the package clause, the imports,
    and the declarations that follow them, kept as source text (only the
    printer and the parser of the Go library look into them). *)
Record File := mkFile {
  FileName : string; PkgClause : string; Imports : list ImportSpec; Decls : string }.

Definition IdentEnd (x : Ident) : token.Pos :=
  (NamePos x + Z.of_nat (String.length (Name x)))%Z.

(** [n.Pos()] and [n.End()]. *)
Fixpoint Pos (n : Expr) : token.Pos :=
  match n with
  | EIdent x => NamePos x
  | ESelector X _ => Pos X
  | ENode _ p _ _ => p
  end.

Definition End (n : Expr) : token.Pos :=
  match n with
  | EIdent x => IdentEnd x
  | ESelector _ Sel => IdentEnd Sel
  | ENode _ _ e _ => e
  end.

(** [*ast.ReturnStmt] and [*ast.ValueSpec]. *)
Record ReturnStmt := mkReturnStmt { Return : token.Pos; Results : list Expr }.
Record ValueSpec := mkValueSpec {
  Names : list Ident; SpecType : option Expr; Values : list Expr }.

(** An element of the path [astutil.PathEnclosingInterval] returns. *)
Inductive Node :=
| NExpr (e : Expr)
| NReturnStmt (rs : ReturnStmt)
| NValueSpec (vs : ValueSpec)
| NOther (what : string) (pos end_ : token.Pos).

(** [rs.Pos()] and [rs.End()] of a return statement: it ends with its last
    result, or after the keyword. *)
Definition ReturnPos (rs : ReturnStmt) : token.Pos := Return rs.

Definition ReturnEnd (rs : ReturnStmt) : token.Pos :=
  match last (Results rs) with
  | Some r => End r
  | None => (Return rs + 6)%Z
  end.

(** [vs.End()] of a value specification. *)
Definition ValueSpecEnd (vs : ValueSpec) : token.Pos :=
  match last (Values vs), SpecType vs, last (Names vs) with
  | Some v, _, _ => End v
  | None, Some t, _ => End t
  | None, None, Some x => IdentEnd x
  | None, None, None => 0%Z
  end.

Definition NodeEnd (n : Node) : token.Pos :=
  match n with
  | NExpr e => End e
  | NReturnStmt rs => ReturnEnd rs
  | NValueSpec vs => ValueSpecEnd vs
  | NOther _ _ e => e
  end.

(** The nodes of [n] in the depth-first order in which [ast.Inspect] visits
    them. *)
Fixpoint preorder (n : Expr) : list Expr :=
  match n with
  | EIdent _ => [n]
  | ESelector X Sel => n :: preorder X ++ [EIdent Sel]
  | ENode _ _ _ kids => n :: (fix go (l : list Expr) : list Expr :=
                                match l with
                                | [] => []
                                | c :: l' => preorder c ++ go l'
                                end) kids
  end.

(** The identifiers among them.  The callbacks [ast.Inspect] is given in
    this file return true on every node that is not an identifier, so each
    identifier of the tree is visited, in this order. *)
Definition idents (n : Expr) : list Ident :=
  omap (λ e, match e with EIdent x => Some x | _ => None end) (preorder n).
End ast.

(** ** Errors and results *)

(** The errors of the package: [fmt.Errorf] with and without a wrapped
    error, and [*mismatchError]. *)
Inductive error :=
| errorString (msg : string)
| wrapError (msg : string) (err : error)
| mismatchError (name : string) (have want : types.Type_).

(** What a Go call comes to: its value, a non-nil error, or a run-time
    panic. *)
Inductive result (A : Type) :=
| Ok (a : A)
| Err (e : error)
| Panic (msg : string).
Arguments Ok {A} _.
Arguments Err {A} _.
Arguments Panic {A} _.

(** Sequencing: an error or a panic ends the function that makes the call
    ([if err != nil { return nil, err }]). *)
#[global] Instance result_ret : MRet result := λ A a, Ok a.
#[global] Instance result_bind : MBind result := λ A B k r,
  match r with
  | Ok a => k a
  | Err e => Err e
  | Panic m => Panic m
  end.

(** A nil pointer or a nil interface value is [None]; using it panics. *)
Definition nilDeref : string := "invalid memory address or nil pointer dereference".

Definition deref {A : Type} (p : option A) : result A :=
  match p with
  | Some a => Ok a
  | None => Panic nilDeref
  end.

(** [fmt.Errorf(msg + ": %w", err)] on the error path of a call. *)
Definition wrap {A : Type} (msg : string) (r : result A) : result A :=
  match r with
  | Err e => Err (wrapError msg e)
  | _ => r
  end.

(** The [Package] interface of package [source].  A value of the interface
    can be nil: where the code may hold a nil package it is an [option P]. *)
Class Package (P : Type) := {
  PkgPath : P → string;
  PkgName : P → string;
  GetTypesInfo : P → types.Info;
  GetImport : P → string → result P }.

Module source.

(** ** The concrete type and its added imports *)

(** [addedImport]: if [Name] is not empty the import is required to have
    that name. *)
Record addedImport := mkAddedImport { Name : string; Path : string }.

(** [concreteType], the destination type; [fset] only serves positions and
    printing and is left to the snapshot.  [file] is nil when the snapshot
    has no syntax tree for the file. *)
Record concreteType := mkConcreteType {
  pkg : types.Package;
  file : option ast.File;
  tms : types.MethodSet;
  pms : types.MethodSet;
  addedImports : list addedImport }.

Definition setAddedImports (ct : concreteType) (l : list addedImport) : concreteType :=
  {| pkg := pkg ct; file := file ct; tms := tms ct; pms := pms ct; addedImports := l |}.

Definition sameImport (name path : string) (imp : addedImport) : bool :=
  String.eqb (Name imp) name && String.eqb (Path imp) path.

(** [ct.addImport(name, path)]. *)
Definition addImport (ct : concreteType) (name path : string) : concreteType :=
  if existsb (sameImport name path) (addedImports ct) then ct
  else setAddedImports ct (addedImports ct ++ [mkAddedImport name path]).

Definition doesNotHaveMethod (ct : concreteType) (name : string) : bool :=
  match types.Lookup (tms ct) (pkg ct) name, types.Lookup (pms ct) (pkg ct) name with
  | None, None => true
  | _, _ => false
  end.

Definition getMethodSelection (ct : concreteType) (name : string) : option types.Selection :=
  match types.Lookup (tms ct) (pkg ct) name with
  | Some sel => Some sel
  | None => types.Lookup (pms ct) (pkg ct) name
  end.

Definition isIgnoredImport (imp : ast.ImportSpec) : bool :=
  match ast.ImpName imp with
  | Some n => String.eqb (ast.Name n) "." || String.eqb (ast.Name n) "_"
  | None => false
  end.

(** The test of the loops over [ct.file.Imports]: an import of [path] that
    is not ignored. *)
Definition importsPath (path : string) (imp : ast.ImportSpec) : bool :=
  String.eqb (ast.ImpPath imp) path && negb (isIgnoredImport imp).

(** The loop over [ct.file.Imports] of [mightRenameSelector] and
    [mightAddSelector]: it breaks at the first import of [path] that is not
    ignored. *)
Definition firstImport (ct : concreteType) (path : string)
    : result (option ast.ImportSpec) :=
  f ← deref (file ct);
  Ok (find (importsPath path) (ast.Imports f)).

(** [info.Uses[ident]]. *)
Definition UsesAt (info : types.Info) (ident : ast.Ident) : option types.Object :=
  p ← ast.ptr ident; types.Uses info !! p.

Section Rewriter.
Context {P : Type} `{Package P}.

(** [mightRemoveSelector]: [sel] is [X.Sel]; the result is the boolean the
    function returns and the node the cursor holds afterwards. *)
Definition mightRemoveSelector (X : ast.Expr) (Sel : ast.Ident) (ifacePkg : option P)
    (implPath : string) : result (bool * ast.Expr) :=
  ifacePkg ← deref ifacePkg;
  match UsesAt (GetTypesInfo ifacePkg) Sel with
  | None => Ok (false, ast.ESelector X Sel)
  | Some obj =>
      match types.Pkg obj with
      | None => Ok (false, ast.ESelector X Sel)
      | Some objPkg =>
          if String.eqb (types.Path objPkg) implPath
          then Ok (false, ast.EIdent Sel)
          else Ok (false, ast.ESelector X Sel)
      end
  end.

(** [mightRenameSelector]: the result is the boolean, [sel.X] as the call
    leaves it (the function assigns to it in place), and the concrete
    type. *)
Definition mightRenameSelector (X : ast.Expr) (Sel : ast.Ident) (ifacePkg : option P)
    (ct : concreteType) : result (bool * ast.Expr * concreteType) :=
  match X with
  | ast.EIdent ident =>
      ifacePkg ← deref ifacePkg;
      match UsesAt (GetTypesInfo ifacePkg) ident with
      | None => Ok (false, X, ct)
      | Some obj =>
          match types.Kind obj with
          | types.PkgName imported =>
              found ← firstImport ct (types.Path imported);
              match found with
              | Some imp =>
                  let importName :=
                    match ast.ImpName imp with
                    | Some n =>
                        if negb (String.eqb (ast.Name n) (types.Name imported))
                        then ast.Name n else types.Name imported
                    | None => types.Name imported
                    end in
                  Ok (false,
                      ast.EIdent (ast.mkIdent None (ast.NamePos ident) importName),
                      ct)
              | None =>
                  if String.eqb (types.Path imported) (types.Path (pkg ct))
                  then Ok (false, X, ct)
                  else
                    let importName :=
                      if negb (String.eqb (types.ObjName obj) (types.Name imported))
                      then types.ObjName obj else "" in
                    Ok (false, X, addImport ct importName (types.Path imported))
              end
          | _ => Ok (false, X, ct)
          end
      end
  | _ => Ok (false, X, ct)
  end.

(** [mightAddSelector]: the boolean, the node the cursor holds afterwards,
    and the concrete type. *)
Definition mightAddSelector (ident : ast.Ident) (ifacePkg : option P) (ct : concreteType)
    : result (bool * ast.Expr * concreteType) :=
  ifacePkg ← deref ifacePkg;
  match UsesAt (GetTypesInfo ifacePkg) ident with
  | None => Ok (false, ast.EIdent ident, ct)
  | Some obj =>
      match types.ObjType obj with
      | types.Named _ (Some npkg) _ _ =>
          found ← firstImport ct (types.Path npkg);
          let pkgName :=
            match found with
            | Some (ast.mkImportSpec (Some n) _) => ast.Name n
            | _ => types.Name npkg
            end in
          let missingImport := bool_decide (found = None) in
          let isNotImportingDestination :=
            negb (String.eqb (types.Path npkg) (types.Path (pkg ct))) in
          let ct' :=
            if missingImport && isNotImportingDestination
            then addImport ct "" (types.Path npkg) else ct in
          let isLocalDeclaration :=
            String.eqb (types.Path npkg) (PkgPath ifacePkg)
            && negb (String.eqb (types.Path npkg) (types.Path (pkg ct))) in
          let isDotImport :=
            negb (String.eqb (types.Path npkg) (PkgPath ifacePkg))
            && negb (String.eqb (types.Path npkg) (types.Path (pkg ct))) in
          if isLocalDeclaration || isDotImport
          then Ok (false,
                   ast.ESelector (ast.EIdent (ast.mkIdent None 0%Z pkgName)) ident,
                   ct')
          else Ok (false, ast.EIdent ident, ct')
      | _ => Ok (false, ast.EIdent ident, ct)
      end
  end.

(** The [astutil.Apply] call of [MethodStubActions] with its callback.
    [miPkg] is [mi.pkg], the package of the interface that declares the
    method, and [irIfacePkg] is [ir.ifacePkg], the package of the requested
    interface.  The callback returns [removed || renamed] on a selector and
    the result of [mightAddSelector] on an identifier; the three functions
    return false on every path (lemmas [mightRemoveSelector_false],
    [mightRenameSelector_false] and [mightAddSelector_false]), so the walk
    never enters a selector, and an identifier has no children.  On any
    other node the callback returns true and the children are walked in
    order. *)
Fixpoint applyRewrite (miPkg irIfacePkg : option P) (n : ast.Expr) (ct : concreteType)
    : result (ast.Expr * concreteType) :=
  match n with
  | ast.ESelector X Sel =>
      '(_, X', ct1) ← mightRenameSelector X Sel miPkg ct;
      '(_, n') ← mightRemoveSelector X' Sel miPkg (types.Path (pkg ct1));
      Ok (n', ct1)
  | ast.EIdent ident =>
      '(_, n', ct1) ← mightAddSelector ident irIfacePkg ct;
      Ok (n', ct1)
  | ast.ENode k p e kids =>
      '(kids', ct') ←
        (fix walk (l : list ast.Expr) (ct : concreteType)
           : result (list ast.Expr * concreteType) :=
           match l with
           | [] => Ok ([], ct)
           | c :: l' =>
               '(c', ct1) ← applyRewrite miPkg irIfacePkg c ct;
               '(l'', ct2) ← walk l' ct1;
               Ok (c' :: l'', ct2)
           end) kids ct;
      Ok (ast.ENode k p e kids', ct')
  end.

(** The walk over the children of a node, as [applyRewrite] does it. *)
Fixpoint applyRewriteList (miPkg irIfacePkg : option P) (l : list ast.Expr)
    (ct : concreteType) : result (list ast.Expr * concreteType) :=
  match l with
  | [] => Ok ([], ct)
  | c :: l' =>
      '(c', ct1) ← applyRewrite miPkg irIfacePkg c ct;
      '(l'', ct2) ← applyRewriteList miPkg irIfacePkg l' ct1;
      Ok (c' :: l'', ct2)
  end.
End Rewriter.

(** ** The snapshot and the libraries *)

Module protocol.
Record Position := mkPosition { Line : Z; Character : Z }.
Record Range := mkRange { Start : Position; End : Position }.
Record Diagnostic := mkDiagnostic { DRange : Range; Source : string; Message : string }.
Record TextEdit := mkTextEdit { ERange : Range; NewText : string }.
Inductive CodeActionKind := QuickFix.
Record VersionedTextDocumentIdentifier := mkVTDI { Version : Z; URI : string }.
Record TextDocumentEdit := mkTextDocumentEdit {
  TextDocument : VersionedTextDocumentIdentifier; Edits : list TextEdit }.
Record WorkspaceEdit := mkWorkspaceEdit { DocumentChanges : list TextDocumentEdit }.
Record CodeAction := mkCodeAction {
  Title : string;
  Diagnostics : list Diagnostic;
  Kind : CodeActionKind;
  Edit : WorkspaceEdit }.
End protocol.

(** [VersionedFileHandle]: the code reads [URI()] and [Version()]. *)
Record VersionedFileHandle := mkFH { fhURI : string; fhVersion : Z }.

(** [*ParsedGoFile]: the syntax tree (the code tests it against nil) and the
    URI the mapper converts positions for. *)
Record ParsedGoFile := mkPGF { pgfURI : string; File : option ast.File }.

Inductive PackagePolicy := NarrowestPackage | WidestPackage.

(** [FuncInfo] of [EnclosingFunction]: the result types of the signature. *)
Record FuncInfo := mkFuncInfo { SigResults : list types.Type_ }.

(** What the code calls and this file does not define: the [Snapshot], the
    position mapper, and the functions of [go/types], [go/format],
    [go/parser], [astutil] and of package [source] itself ([GetParsedFile],
    [EnclosingFunction], [copyAST], [computeTextEdits]) whose code lies
    outside [stub.go]. *)
Record Env (P : Type) := mkEnv {
  (* go/types *)
  Identical : types.Type_ → types.Type_ → bool;
  NewMethodSet : types.Type_ → types.MethodSet;
  (* the snapshot and its file set *)
  PositionFilename : token.Pos → string;
  PositionOffset : token.Pos → nat;
  FindFile : string → VersionedFileHandle;
  GetParsedFile : VersionedFileHandle → PackagePolicy → result (P * ParsedGoFile);
  (* the mapper of a parsed file: [RangeSpan] followed by [Range] *)
  RangeSpan : ParsedGoFile → protocol.Range → result (token.Pos * token.Pos);
  SpanRange : ParsedGoFile → token.Pos * token.Pos → result (token.Pos * token.Pos);
  (* astutil *)
  PathEnclosingInterval : ast.File → token.Pos → token.Pos → list ast.Node;
  AddNamedImport : ast.File → string → string → ast.File;
  (* go/format and go/parser *)
  formatNode : ast.Expr → result string;
  formatFile : ast.File → result string;
  ParseFile : string → string → result ast.File;
  (* package source *)
  EnclosingFunction : list ast.Node → types.Info → option FuncInfo;
  copyAST : ast.Expr → ast.Expr;
  computeTextEdits : ParsedGoFile → string → result (list protocol.TextEdit) }.
Arguments Identical {P} _ _ _.
Arguments NewMethodSet {P} _ _.
Arguments PositionFilename {P} _ _.
Arguments PositionOffset {P} _ _.
Arguments FindFile {P} _ _.
Arguments GetParsedFile {P} _ _ _.
Arguments RangeSpan {P} _ _ _.
Arguments SpanRange {P} _ _ _.
Arguments PathEnclosingInterval {P} _ _ _ _.
Arguments AddNamedImport {P} _ _ _ _.
Arguments formatNode {P} _ _.
Arguments formatFile {P} _ _.
Arguments ParseFile {P} _ _ _.
Arguments EnclosingFunction {P} _ _ _.
Arguments copyAST {P} _ _.
Arguments computeTextEdits {P} _ _ _.

(** ** Missing methods *)

(** [missingInterface]: an interface that has all or some of its methods
    missing from the destination concrete type. *)
Record missingInterface (P : Type) := mkMissingInterface {
  iface : types.Type_;
  mifile : ast.File;
  mipkg : option P;
  missing : list types.Func }.
Arguments mkMissingInterface {P} _ _ _ _.
Arguments iface {P} _.
Arguments mifile {P} _.
Arguments mipkg {P} _.
Arguments missing {P} _.

(** [%T] of a type of go/types. *)
Definition typeName (t : types.Type_) : string :=
  match t with
  | types.Invalid | types.Basic _ => "*types.Basic"
  | types.Named _ _ _ _ => "*types.Named"
  | types.Pointer _ => "*types.Pointer"
  | types.Slice _ => "*types.Slice"
  | types.Struct => "*types.Struct"
  | types.Signature _ _ _ => "*types.Signature"
  | types.Interface _ _ => "*types.Interface"
  end.

Section Core.
Context {P : Type} `{Package P} (env : Env P).

(** [getFile]. *)
Definition getFile (obj : types.Object)
    : result (option ast.File * VersionedFileHandle) :=
  let objFile := PositionFilename env (types.ObjPos obj) in
  let objectFH := FindFile env objFile in
  '(_, goFile) ← wrap "GetParsedFile" (GetParsedFile env objectFH WidestPackage);
  Ok (File goFile, objectFH).

(** The loop of [missingMethods] over the explicit methods of the
    interface: [acc] is [mi.missing], [visited] the set of the names
    already recorded.  It ends at the first method the concrete type has
    with a signature that is not identical. *)
Fixpoint explicitMethods (ct : concreteType) (methods : list types.Func)
    (acc : list types.Func) (visited : gset string)
    : result (list types.Func * gset string) :=
  match methods with
  | [] => Ok (acc, visited)
  | method :: rest =>
      let name := types.fn_Name method in
      let '(acc1, visited1) :=
        if doesNotHaveMethod ct name
        then if bool_decide (name ∈ visited)
             then (acc, visited)
             else (acc ++ [method], {[name]} ∪ visited)
        else (acc, visited) in
      match getMethodSelection ct name with
      | Some sel =>
          let implSig := types.SelType sel in
          let ifaceSig := types.fn_Type method in
          if negb (Identical env ifaceSig implSig)
          then Err (mismatchError name implSig ifaceSig)
          else explicitMethods ct rest acc1 visited1
      | None => explicitMethods ct rest acc1 visited1
      end
  end.

(** What [missingMethods] does once the embedded interfaces are done:
    [missing0] and [visited0] are what they left. *)
Definition ownMethods (ct : concreteType) (u : types.Type_) (methods : list types.Func)
    (ifaceObj : types.Object) (ifacePkg : option P)
    (missing0 : list (missingInterface P)) (visited0 : gset string)
    : result (list (missingInterface P) * gset string) :=
  '(astFile, _) ← wrap "error getting iface file" (getFile ifaceObj);
  match astFile with
  | None => Err (errorString ("could not find ast.File for " +:+ types.ObjName ifaceObj))
  | Some f =>
      '(mimissing, visited1) ← explicitMethods ct methods [] visited0;
      let mi := mkMissingInterface u f ifacePkg mimissing in
      if bool_decide (0 < length mimissing)
      then Ok (missing0 ++ [mi], visited1)
      else Ok (missing0, visited1)
  end.

(** [missingMethods], by recursion on the type of [ifaceObj]: the embedded
    interfaces first, each with the package it is declared in, then the
    explicit methods.  [visited] is the Go map the calls share; the result
    carries it as the call leaves it. *)
Fixpoint missingMethodsRec (ct : concreteType) (t : types.Type_)
    (ifaceObj : types.Object) (ifacePkg : option P) (visited : gset string) {struct t}
    : result (list (missingInterface P) * gset string) :=
  let embeddedLoop := fix loop (l : list types.Type_)
        (missing : list (missingInterface P)) (visited : gset string) {struct l}
        : result (list (missingInterface P) * gset string) :=
    match l with
    | [] => Ok (missing, visited)
    | e :: l' =>
        match e with
        | types.Named n epkg pos u =>
            let eiface := types.Obj n epkg pos u in
            epkg ← deref epkg;
            ip ← deref ifacePkg;
            depPkg ← (if negb (String.eqb (types.Path epkg) (PkgPath ip))
                      then GetImport ip (types.Path epkg)
                      else Ok ip);
            '(em, visited1) ← missingMethodsRec ct e eiface (Some depPkg) visited;
            loop l' (missing ++ em) visited1
        | _ => Panic nilDeref
        end
    end in
  match t with
  | types.Named _ _ _ (types.Interface methods embeddeds as u)
  | types.Interface methods embeddeds as u =>
      '(missing0, visited0) ← embeddedLoop embeddeds [] visited;
      ownMethods ct u methods ifaceObj ifacePkg missing0 visited0
  | _ =>
      Err (errorString ("expected <nil> to be an interface but got "
                        +:+ typeName (types.Underlying t)))
  end.

Definition missingMethods (ct : concreteType) (ifaceObj : types.Object)
    (ifacePkg : option P) (visited : gset string)
    : result (list (missingInterface P) * gset string) :=
  missingMethodsRec ct (types.ObjType ifaceObj) ifaceObj ifacePkg visited.
End Core.

(** ** The request: which interface, which concrete type *)

Record stubRequest (P : Type) := mkStubRequest {
  ifacePkg : option P;
  ifaceObj : types.Object;
  concretePkg : P;
  concreteObj : types.Object;
  pointer : bool }.
Arguments mkStubRequest {P} _ _ _ _ _.
Arguments ifacePkg {P} _.
Arguments ifaceObj {P} _.
Arguments concretePkg {P} _.
Arguments concreteObj {P} _.
Arguments pointer {P} _.

Fixpoint isReturnStatement (path : list ast.Node) : option ast.ReturnStmt :=
  match path with
  | [] => None
  | ast.NReturnStmt rs :: _ => Some rs
  | _ :: rest => isReturnStatement rest
  end.

Fixpoint isVariableDeclaration (nodes : list ast.Node) : option ast.ValueSpec :=
  match nodes with
  | [] => None
  | ast.NValueSpec vs :: _ => Some vs
  | _ :: rest => isVariableDeclaration rest
  end.

(** [pos >= r.Pos() && pos <= r.End()]. *)
Definition within (pos : token.Pos) (r : ast.Expr) : bool :=
  bool_decide (ast.Pos r ≤ pos)%Z && bool_decide (pos ≤ ast.End r)%Z.

(** The loop of [getReturnIndex], from index [idx] on. *)
Fixpoint returnIndexFrom (idx : nat) (results : list ast.Expr) (pos : token.Pos)
    : option nat :=
  match results with
  | [] => None
  | r :: rest => if within pos r then Some idx else returnIndexFrom (S idx) rest pos
  end.

Definition getReturnIndex (rs : ast.ReturnStmt) (pos : token.Pos) : result nat :=
  match returnIndexFrom 0 (ast.Results rs) pos with
  | Some idx => Ok idx
  | None =>
      Err (errorString ("pos " +:+ pretty pos
                        +:+ " not within return statement bounds: ["
                        +:+ pretty (ast.ReturnPos rs) +:+ "-"
                        +:+ pretty (ast.ReturnEnd rs) +:+ "]"))
  end.

(** [xs[i]]: an index out of range panics. *)
Definition index {A : Type} (xs : list A) (i : nat) : result A :=
  match xs !! i with
  | Some x => Ok x
  | None => Panic "index out of range"
  end.

(** [ast.Inspect(n, f)] where [f] acts on identifiers only and returns true
    elsewhere: [f] is run on each identifier in turn, on the state the
    callback assigns to ([ast.Inspect] goes on after [f] returns false on
    an identifier, which has no children to skip). *)
Fixpoint inspectIdents {S : Type} (f : ast.Ident → S → result S) (l : list ast.Ident)
    (s : S) : result S :=
  match l with
  | [] => Ok s
  | x :: l' => s' ← f x s; inspectIdents f l' s'
  end.

Section Request.
Context {P : Type} `{Package P} (env : Env P).

(** The callback of [getRequestFromReturn]; the state is [ir]. *)
Definition returnIdent (pkg : P) (ident : ast.Ident)
    (ir : option (types.Object * P)) : result (option (types.Object * P)) :=
  match UsesAt (GetTypesInfo pkg) ident with
  | None => Ok ir
  | Some obj =>
      objPkg ← deref (types.Pkg obj);
      let continue_ (concretePkg : P) :=
        match types.Kind obj with
        | types.TypeName => Ok (Some (obj, concretePkg))
        | _ => Ok ir
        end in
      if negb (String.eqb (types.Path objPkg) (PkgPath pkg))
      then match GetImport pkg (types.Path objPkg) with
           | Ok concretePkg => continue_ concretePkg
           | Err _ => Ok ir
           | Panic m => Panic m
           end
      else continue_ pkg
  end.

Definition getRequestFromReturn (pos : token.Pos) (path : list ast.Node)
    (rs : ast.ReturnStmt) (pkg : P) : result (option (stubRequest P)) :=
  idx ← getReturnIndex rs pos;
  n ← index (ast.Results rs) idx;
  match n with
  | ast.ENode ast.MapType _ _ _ => Ok None
  | ast.ENode ast.ArrayType _ _ _ => Ok None
  | _ =>
      ir ← inspectIdents (returnIdent pkg) (ast.idents n) None;
      match ir with
      | None => Ok None
      | Some (concreteObj, concretePkg) =>
          match EnclosingFunction env path (GetTypesInfo pkg) with
          | None => Err (errorString "could not find function in a return statement")
          | Some fi =>
              r ← index (SigResults fi) idx;
              match r with
              | types.Named n npkg npos u =>
                  let ifaceObj := types.Obj n npkg npos u in
                  ifaceObjPkg ← deref npkg;
                  ifacePkg ←
                    (if negb (String.eqb (PkgPath pkg) (types.Path ifaceObjPkg))
                     then match GetImport pkg (types.Path ifaceObjPkg) with
                          | Ok p => Ok (Some p)
                          | Err _ => Ok None
                          | Panic m => Panic m
                          end
                     else Ok (Some pkg));
                  Ok (Some (mkStubRequest ifacePkg ifaceObj concretePkg concreteObj false))
              | _ => Ok None
              end
          end
      end
  end.

(** The callback of [inspectNode] in [fromValueSpec]; the state is
    [(nodeObj, nodePkg)]. *)
Definition specIdent (pkg : P) (ident : ast.Ident)
    (st : option types.Object * option P) : result (option types.Object * option P) :=
  match UsesAt (GetTypesInfo pkg) ident with
  | None => Ok st
  | Some obj =>
      match types.Kind obj with
      | types.TypeName =>
          objPkg ← deref (types.Pkg obj);
          if negb (String.eqb (types.Path objPkg) (PkgPath pkg))
          then match GetImport pkg (types.Path objPkg) with
               | Ok nodePkg => Ok (Some obj, Some nodePkg)
               | Err _ => Ok (fst st, None)
               | Panic m => Panic m
               end
          else Ok (Some obj, Some pkg)
      | _ => Ok st
      end
  end.

Definition inspectNode (pkg : P) (n : option ast.Expr)
    : result (option types.Object * option P) :=
  match n with
  | None => Panic "ast.Walk: unexpected node type <nil>"
  | Some n => inspectIdents (specIdent pkg) (ast.idents n) (None, None)
  end.

(** The last loop of [fromValueSpec]: some node of the value is an
    address-of or a star expression. *)
Definition isPointerNode (n : ast.Expr) : bool :=
  match n with
  | ast.ENode (ast.UnaryExpr token.AND) _ _ _ => true
  | ast.ENode ast.StarExpr _ _ _ => true
  | _ => false
  end.

(** The first loop of [fromValueSpec]: the index of the first value that
    holds [pos], 0 when there is none. *)
Definition valueIndex (vs : ast.ValueSpec) (pos : token.Pos) : nat :=
  default 0 (returnIndexFrom 0 (ast.Values vs) pos).

Definition fromValueSpec (vs : ast.ValueSpec) (pkg : P) (pos : token.Pos)
    : result (option (stubRequest P)) :=
  let idx := valueIndex vs pos in
  valueNode ← index (ast.Values vs) idx;
  let ifaceNode :=
    match ast.SpecType vs, valueNode with
    | None, ast.ENode ast.CallExpr _ _ kids => head kids
    | t, _ => t
    end in
  '(ifaceObj, ifacePkg) ← inspectNode pkg ifaceNode;
  match ifaceObj, ifacePkg with
  | Some ifaceObj, Some ifacePkg =>
      '(concreteObj, concretePkg) ← inspectNode pkg (Some valueNode);
      match concreteObj, concretePkg with
      | Some concreteObj, Some concretePkg =>
          let pointer := existsb isPointerNode (ast.preorder valueNode) in
          Ok (Some (mkStubRequest (Some ifacePkg) ifaceObj concretePkg concreteObj pointer))
      | _, _ => Ok None
      end
  | _, _ => Ok None
  end.

(** [getImplementRequest]: the error of [getRequestFromReturn] is assigned
    to the blank identifier. *)
Definition getImplementRequest (nodes : list ast.Node) (pkg : P) (pos : token.Pos)
    : result (option (stubRequest P)) :=
  match isVariableDeclaration nodes with
  | Some vs => fromValueSpec vs pkg pos
  | None =>
      match isReturnStatement nodes with
      | Some ret =>
          match getRequestFromReturn pos nodes ret pkg with
          | Ok ir => Ok ir
          | Err _ => Ok None
          | Panic m => Panic m
          end
      | None => Ok None
      end
  end.
End Request.

(** ** The code actions *)

(** [strings.Contains], [strings.HasPrefix] and [strings.TrimPrefix]. *)
Fixpoint Contains (s substr : string) : bool :=
  String.prefix substr s
  || match s with
     | EmptyString => false
     | String _ s' => Contains s' substr
     end.

Definition HasPrefix (s prefix : string) : bool := String.prefix prefix s.

Definition TrimPrefix (s prefix : string) : string :=
  if HasPrefix s prefix
  then String.substring (String.length prefix) (String.length s - String.length prefix) s
  else s.

Definition isMissingMethodErr (d : protocol.Diagnostic) : bool :=
  String.eqb (protocol.Source d) "compiler" && Contains (protocol.Message d) "missing method".

Definition isConversionErr (d : protocol.Diagnostic) : bool :=
  String.eqb (protocol.Source d) "compiler" && HasPrefix (protocol.Message d) "cannot convert".

Record methodData := mkMethodData {
  Method : string;
  Interface : string;
  Concrete : string;
  Signature : string }.

Definition newline : string := String (Ascii.ascii_of_nat 10) EmptyString.
Definition tab : string := String (Ascii.ascii_of_nat 9) EmptyString.
Definition quote : string := String (Ascii.ascii_of_nat 34) EmptyString.

(** The template [tmpl], executed on [md]. *)
Definition tmpl (md : methodData) : string :=
  "// " +:+ Method md +:+ " implements " +:+ Interface md +:+ newline
  +:+ "func (" +:+ Concrete md +:+ ") " +:+ Method md +:+ Signature md +:+ " {" +:+ newline
  +:+ tab +:+ "panic(" +:+ quote +:+ "unimplemented" +:+ quote +:+ ")" +:+ newline
  +:+ "}" +:+ newline.

(** What one turn of the loop of [MethodStubActions] comes to, when it
    neither fails nor panics: [continue], an action to append, or
    [return nil, nil]. *)
Inductive turn :=
| Continue
| Append (action : protocol.CodeAction)
| ReturnNil.

Section Actions.
Context {P : Type} `{Package P} (env : Env P).

Definition getIfaceName (pkg : P) (ifacePkg : option P) (ifaceObj : types.Object)
    : result string :=
  ifacePkg ← deref ifacePkg;
  if String.eqb (PkgPath pkg) (PkgPath ifacePkg)
  then Ok (types.ObjName ifaceObj)
  else Ok (PkgName ifacePkg +:+ "." +:+ types.ObjName ifaceObj).

Definition getNodes (pgf : ParsedGoFile) (d : protocol.Diagnostic)
    : result (list ast.Node * token.Pos) :=
  spn ← RangeSpan env pgf (protocol.DRange d);
  rng ← SpanRange env pgf spn;
  f ← deref (File pgf);
  Ok (PathEnclosingInterval env f (fst rng) (snd rng), fst rng).

(** The body of the inner loop of [MethodStubActions], for the missing
    method [m] of [mi]: the stub that is written to [methodsBuffer], and the
    concrete type with the imports the signature needs. *)
Definition renderMethod (pkg : P) (ir : stubRequest P) (mi : missingInterface P)
    (m : types.Func) (ct : concreteType) : result (string * concreteType) :=
  let nn := PathEnclosingInterval env (mifile mi) (types.fn_Pos m) (types.fn_Pos m) in
  field ← index nn 1;
  match field with
  | ast.NExpr (ast.ENode (ast.Field _) _ _ kids) =>
      n ← deref (head kids);
      let n := copyAST env n in
      '(n, ct) ← applyRewrite (mipkg mi) (ifacePkg ir) n ct;
      sig ← wrap "could not format function signature" (formatNode env n);
      let concrete :=
        if pointer ir then "*" +:+ types.ObjName (concreteObj ir)
        else types.ObjName (concreteObj ir) in
      iname ← getIfaceName pkg (ifacePkg ir) (ifaceObj ir);
      let md := {| Method := types.fn_Name m;
                   Concrete := concrete;
                   Interface := iname;
                   Signature := TrimPrefix sig "func" |} in
      Ok (tmpl md +:+ newline, ct)
  | _ => Panic "interface conversion: ast.Node is not *ast.Field"
  end.

Fixpoint renderMethods (pkg : P) (ir : stubRequest P) (mi : missingInterface P)
    (ms : list types.Func) (buf : string) (ct : concreteType)
    : result (string * concreteType) :=
  match ms with
  | [] => Ok (buf, ct)
  | m :: ms' =>
      '(stub, ct) ← renderMethod pkg ir mi m ct;
      renderMethods pkg ir mi ms' (buf +:+ stub) ct
  end.

Fixpoint renderMissing (pkg : P) (ir : stubRequest P) (l : list (missingInterface P))
    (buf : string) (ct : concreteType) : result (string * concreteType) :=
  match l with
  | [] => Ok (buf, ct)
  | mi :: l' =>
      '(buf, ct) ← renderMethods pkg ir mi (missing mi) buf ct;
      renderMissing pkg ir l' buf ct
  end.

(** The diagnostics the loop of [MethodStubActions] does not skip. *)
Definition isStubDiagnostic (d : protocol.Diagnostic) : bool :=
  negb (negb (isMissingMethodErr d) && negb (isConversionErr d)).

(** What a turn of the loop knows once it has built [ct]. *)
Record stubContext := mkStubContext {
  scPkg : P;
  scRequest : stubRequest P;
  scConcreteFile : option ast.File;
  scConcreteFH : VersionedFileHandle;
  scConcreteType : concreteType }.

(** The first part of a turn of the loop of [MethodStubActions], up to the
    construction of [ct]; [None] where the loop continues with the next
    diagnostic.  ([ir.concreteObj.Pkg()] is not nil: both
    [getRequestFromReturn] and [fromValueSpec] have called its [Path].) *)
Definition resolveRequest (fh : VersionedFileHandle) (d : protocol.Diagnostic)
    : result (option stubContext) :=
  '(pkg, pgf) ← wrap "GetParsedFile" (GetParsedFile env fh NarrowestPackage);
  '(nodes, pos) ← wrap "getNodes" (getNodes pgf d);
  ir ← getImplementRequest env nodes pkg pos;
  match ir with
  | None => Ok None
  | Some ir =>
      '(concreteFile, concreteFH) ← wrap "getFile(concrete)" (getFile env (concreteObj ir));
      ctpkg ← deref (types.Pkg (concreteObj ir));
      let ct := {| pkg := ctpkg;
                   file := concreteFile;
                   tms := NewMethodSet env (types.ObjType (concreteObj ir));
                   pms := NewMethodSet env (types.Pointer (types.ObjType (concreteObj ir)));
                   addedImports := [] |} in
      Ok (Some (mkStubContext pkg ir concreteFile concreteFH ct))
  end.

(** The last part of a turn, from the template to the code action, for a
    set of missing methods that is not empty. *)
Definition buildAction (d : protocol.Diagnostic) (sc : stubContext)
    (missing : list (missingInterface P)) : result protocol.CodeAction :=
  let pkg := scPkg sc in
  let ir := scRequest sc in
  '(methodsBuffer, ct) ← renderMissing pkg ir missing "" (scConcreteType sc);
  concreteFile ← deref (scConcreteFile sc);
  let nodes := PathEnclosingInterval env concreteFile
                 (types.ObjPos (concreteObj ir)) (types.ObjPos (concreteObj ir)) in
  concreteSrc ← wrap "error formatting concrete file" (formatFile env concreteFile);
  decl ← index nodes 1;
  let insertPos := PositionOffset env (ast.NodeEnd decl) in
  if bool_decide (String.length concreteSrc < insertPos)
  then Panic "slice bounds out of range" else
  let buf := String.substring 0 insertPos concreteSrc
             +:+ newline +:+ methodsBuffer
             +:+ String.substring insertPos (String.length concreteSrc - insertPos)
                   concreteSrc in
  newF ← wrap "could not reparse file" (ParseFile env (ast.PkgClause concreteFile) buf);
  let newF := fold_left (λ f imp, AddNamedImport env f (Name imp) (Path imp))
                (addedImports ct) newF in
  source ← wrap "format.Node" (formatFile env newF);
  '(_, pgf) ← wrap "GetParsedFile(concrete)"
                (GetParsedFile env (scConcreteFH sc) NarrowestPackage);
  edits ← wrap "computeTextEdit" (computeTextEdits env pgf source);
  iname ← getIfaceName pkg (ifacePkg ir) (ifaceObj ir);
  Ok {| protocol.Title := "Implement " +:+ iname;
        protocol.Diagnostics := [d];
        protocol.Kind := protocol.QuickFix;
        protocol.Edit :=
          {| protocol.DocumentChanges :=
               [ {| protocol.TextDocument :=
                      {| protocol.Version := fhVersion (scConcreteFH sc);
                         protocol.URI := fhURI (scConcreteFH sc) |};
                    protocol.Edits := edits |} ] |} |}.

(** One turn of the loop of [MethodStubActions], on the diagnostic [d]. *)
Definition diagnosticTurn (fh : VersionedFileHandle) (d : protocol.Diagnostic)
    : result turn :=
  if negb (isStubDiagnostic d) then Ok Continue else
  sc ← resolveRequest fh d;
  match sc with
  | None => Ok Continue
  | Some sc =>
      '(missing, _) ← wrap "missingMethods"
                        (missingMethods env (scConcreteType sc)
                           (ifaceObj (scRequest sc)) (ifacePkg (scRequest sc)) ∅);
      if bool_decide (length missing = 0) then Ok ReturnNil else
      action ← buildAction d sc missing;
      Ok (Append action)
  end.

(** The loop of [MethodStubActions]: [actions] is the slice built so far.
    The result is [None] for a nil slice. *)
Fixpoint actionsLoop (fh : VersionedFileHandle) (diagnostics : list protocol.Diagnostic)
    (actions : list protocol.CodeAction) : result (option (list protocol.CodeAction)) :=
  match diagnostics with
  | [] => Ok (Some actions)
  | d :: rest =>
      t ← diagnosticTurn fh d;
      match t with
      | Continue => actionsLoop fh rest actions
      | Append a => actionsLoop fh rest (actions ++ [a])
      | ReturnNil => Ok None
      end
  end.

Definition MethodStubActions (diagnostics : list protocol.Diagnostic)
    (fh : VersionedFileHandle) : result (option (list protocol.CodeAction)) :=
  actionsLoop fh diagnostics [].
End Actions.

End source.

(** * Notions the properties are stated with *)

Import source.

(** The node of [n] at a position: a position is the list of the indices
    of the children to descend into.  The walk of [applyRewrite] reaches
    the positions of the tree that are not inside a selector. *)
Fixpoint subAt (path : list nat) (n : ast.Expr) : option ast.Expr :=
  match path with
  | [] => Some n
  | i :: path' =>
      match n with
      | ast.ENode _ _ _ kids => c ← kids !! i; subAt path' c
      | _ => None
      end
  end.

(** [ct'] is [ct] after some calls of [addImport]: nothing else has
    changed, no queued import is lost, and an import is only queued for a
    path the file has no usable import of. *)
Definition extends (ct ct' : concreteType) : Prop :=
  pkg ct' = pkg ct ∧ file ct' = file ct ∧ tms ct' = tms ct ∧ pms ct' = pms ct
  ∧ (∀ imp, imp ∈ addedImports ct → imp ∈ addedImports ct')
  ∧ (NoDup (addedImports ct) → NoDup (addedImports ct'))
  ∧ (∀ imp, imp ∈ addedImports ct' →
       imp ∈ addedImports ct ∨ firstImport ct (Path imp) = Ok None).

(** The local name of package [p] in the file [f]: the alias of its first
    usable import when it has one, the name of the package otherwise. *)
Definition localAlias (f : ast.File) (p : types.Package) : string :=
  match find (importsPath (types.Path p)) (ast.Imports f) with
  | Some (ast.mkImportSpec (Some a) _) => ast.Name a
  | _ => types.Name p
  end.

(** ** The methods an interface requires *)

(** The explicit methods and the embedded types of an interface type,
    named or not. *)
Definition interfaceOf (t : types.Type_) : option (list types.Func * list types.Type_) :=
  match t with
  | types.Named _ _ _ (types.Interface methods embeddeds)
  | types.Interface methods embeddeds => Some (methods, embeddeds)
  | _ => None
  end.

(** The methods of the embedding graph of an interface type, in the order
    in which [missingMethods] meets them: those of the embedded interfaces
    first, then the explicit methods.  An interface that a diamond reaches
    twice is listed twice. *)
Fixpoint graphMethods (t : types.Type_) : list types.Func :=
  match t with
  | types.Named _ _ _ (types.Interface methods embeddeds)
  | types.Interface methods embeddeds =>
      (fix go (l : list types.Type_) : list types.Func :=
         match l with
         | [] => []
         | e :: l' => graphMethods e ++ go l'
         end) embeddeds ++ methods
  | _ => []
  end.

Definition embeddedMethods (l : list types.Type_) : list types.Func :=
  l ≫= graphMethods.

(** The methods a result of [missingMethods] records, and their names. *)
Definition missingFuncs {P : Type} (l : list (missingInterface P)) : list types.Func :=
  l ≫= missing.

Definition missingNames {P : Type} (l : list (missingInterface P)) : list string :=
  types.fn_Name <$> missingFuncs l.

(** How often the name [name] occurs in a list of names. *)
Definition occurrences (name : string) (names : list string) : nat :=
  length (filter (λ n, n = name) names).

(** What a traversal of the methods [ms] adds to the record: started with
    the visited names [visited], it has recorded the methods [new] and
    leaves the visited names [visited'].  The methods recorded are methods
    of [ms] the concrete type does not have, with names that were not
    visited and are pairwise distinct; every method of [ms] the concrete
    type does not have is visited afterwards. *)
Definition recorded (ct : concreteType) (ms : list types.Func) (visited : gset string)
    (new : list types.Func) (visited' : gset string) : Prop :=
  NoDup (types.fn_Name <$> new)
  ∧ (∀ m, m ∈ new →
       m ∈ ms ∧ doesNotHaveMethod ct (types.fn_Name m) = true
       ∧ types.fn_Name m ∉ visited)
  ∧ (∀ n, n ∈ visited' ↔ n ∈ visited ∨ n ∈ types.fn_Name <$> new)
  ∧ (∀ m, m ∈ ms → doesNotHaveMethod ct (types.fn_Name m) = true →
       types.fn_Name m ∈ visited').

Section Graph.
Context {P : Type} `{Package P} (env : Env P).

(** The loop of [missingMethods] over the embedded interfaces, as a
    function of its own. *)
Section EmbeddedLoop.
Context (ct : concreteType) (ifacePkg : option P).

Fixpoint embeddedLoop (l : list types.Type_)
    (missing : list (missingInterface P)) (visited : gset string)
    : result (list (missingInterface P) * gset string) :=
  match l with
  | [] => Ok (missing, visited)
  | e :: l' =>
      match e with
      | types.Named n epkg pos u =>
          let eiface := types.Obj n epkg pos u in
          epkg ← deref epkg;
          ip ← deref ifacePkg;
          depPkg ← (if negb (String.eqb (types.Path epkg) (PkgPath ip))
                    then GetImport ip (types.Path epkg)
                    else Ok ip);
          '(em, visited1) ← missingMethodsRec env ct e eiface (Some depPkg) visited;
          embeddedLoop l' (missing ++ em) visited1
      | _ => Panic nilDeref
      end
  end.
End EmbeddedLoop.

(** The error of [missingMethods] on the method [m]: the concrete type has
    a method of that name and its signature is not identical. *)
Definition mismatch (ct : concreteType) (m : types.Func) : option error :=
  match getMethodSelection ct (types.fn_Name m) with
  | Some sel =>
      if Identical env (types.fn_Type m) (types.SelType sel) then None
      else Some (mismatchError (types.fn_Name m) (types.SelType sel) (types.fn_Type m))
  | None => None
  end.

(** The first of them in a list of methods. *)
Fixpoint firstMismatch (ct : concreteType) (ms : list types.Func) : option error :=
  match ms with
  | [] => None
  | m :: rest =>
      match mismatch ct m with
      | Some e => Some e
      | None => firstMismatch ct rest
      end
  end.

(** The snapshot has the file of [obj]. *)
Definition hasFile (obj : types.Object) : bool :=
  match getFile env obj with
  | Ok (Some _, _) => true
  | _ => false
  end.

(** The interfaces of the embedding graph of [t] can be loaded: each one is
    a named type of a package that the package of the embedding interface
    imports (or is), and the snapshot has its file. *)
Fixpoint loadable (t : types.Type_) (obj : types.Object) (ifacePkg : option P)
    {struct t} : bool :=
  match t with
  | types.Named _ _ _ (types.Interface _ embeddeds)
  | types.Interface _ embeddeds =>
      (fix all (l : list types.Type_) : bool :=
         match l with
         | [] => true
         | e :: l' =>
             match e, ifacePkg with
             | types.Named n (Some epkg) pos u, Some ip =>
                 match (if negb (String.eqb (types.Path epkg) (PkgPath ip))
                        then GetImport ip (types.Path epkg)
                        else Ok ip) with
                 | Ok depPkg => loadable e (types.Obj n (Some epkg) pos u) (Some depPkg)
                 | _ => false
                 end
             | _, _ => false
             end && all l'
         end) embeddeds
      && hasFile obj
  | _ => false
  end.

Fixpoint loadableAll (l : list types.Type_) (ifacePkg : option P) : bool :=
  match l with
  | [] => true
  | e :: l' =>
      match e, ifacePkg with
      | types.Named n (Some epkg) pos u, Some ip =>
          match (if negb (String.eqb (types.Path epkg) (PkgPath ip))
                 then GetImport ip (types.Path epkg)
                 else Ok ip) with
          | Ok depPkg => loadable e (types.Obj n (Some epkg) pos u) (Some depPkg)
          | _ => false
          end
      | _, _ => false
      end && loadableAll l' ifacePkg
  end.
End Graph.

(** * The packages a file can import

    [KnownPackages] and its helpers, which follow [stub.go] in the source
    tree. *)

Module known.

(** [strings.LastIndex]: the index of the last instance of [substr] in
    [s], or -1. *)
Fixpoint LastIndex (s substr : string) : Z :=
  match s with
  | EmptyString => if String.prefix substr s then 0 else -1
  | String _ s' =>
      let i := LastIndex s' substr in
      if bool_decide (-1 < i)%Z then (i + 1)%Z
      else if String.prefix substr s then 0%Z else (-1)%Z
  end.

(** [importPkgPath[:i]]. *)
Definition upTo (s : string) (i : Z) : string := String.substring 0 (Z.to_nat i) s.

Definition isValidImport (pkgPath importPkgPath : string) : bool :=
  if HasPrefix importPkgPath "internal/" then false else
  let i := LastIndex importPkgPath "/internal/" in
  if bool_decide (-1 < i)%Z then HasPrefix pkgPath (upTo importPkgPath i) else
  let i := LastIndex importPkgPath "/internal" in
  if bool_decide (-1 < i)%Z then HasPrefix pkgPath (upTo importPkgPath i) else
  true.

(** What [KnownPackages] reads of a [Package] beyond its path: the packages
    it imports and, for each of its compiled Go files, whether the
    [*ast.File] is nil and whether its [Name] is nil, with the name of the
    package clause. *)
Class PackageGraph (P : Type) `{Package P} := {
  Imports : P → list P;
  CompiledGoFiles : P → list (option (option string)) }.

(** The function [less] that [KnownPackages] gives to [sort.Slice]. *)
Definition importLess (importI importJ : string) : bool :=
  let iHasDot := Contains importI "." in
  let jHasDot := Contains importJ "." in
  if iHasDot && negb jHasDot then false
  else if jHasDot && negb iHasDot then true
  else String.ltb importI importJ.

Section Known.
Context {P : Type} `{PackageGraph P} (env : Env P).

Definition isCyclicalImport (pkg imported : P) : bool :=
  existsb (λ imp, String.eqb (PkgPath imp) (PkgPath pkg)) (Imports imported).

(** What the code calls and the source tree does not hold:
    [snapshot.KnownPackages], the source text of the path of an import
    ([imp.Path.Value], a string literal with its quotes), and
    [sort.Slice] on a slice of strings. *)
Variable snapshotKnownPackages : result (list P).
Variable literal : ast.ImportSpec → string.
Variable sortSlice : (string → string → bool) → list string → list string.

(** The loop of [KnownPackages] over the known packages: [visited] and
    [resp] as the turns before have left them. *)
Fixpoint knownLoop (pkg : P) (alreadyImported : gset string) (pkgs : list P)
    (visited : gset string) (resp : list string) : result (list string) :=
  match pkgs with
  | [] => Ok resp
  | knownPkg :: rest =>
      let path := PkgPath knownPkg in
      match CompiledGoFiles knownPkg with
      | [] => knownLoop pkg alreadyImported rest visited resp
      | None :: _ => Panic nilDeref
      | Some None :: _ => knownLoop pkg alreadyImported rest visited resp
      | Some (Some pkgName) :: _ =>
          if String.eqb pkgName "main"
          then knownLoop pkg alreadyImported rest visited resp
          else if bool_decide (path ∈ alreadyImported)
          then knownLoop pkg alreadyImported rest visited resp
          else if bool_decide (path ∈ visited)
          then knownLoop pkg alreadyImported rest visited resp
          else
            let visited := {[path]} ∪ visited in
            if negb (isValidImport (PkgPath pkg) path)
            then knownLoop pkg alreadyImported rest visited resp
            else if isCyclicalImport pkg knownPkg
            then knownLoop pkg alreadyImported rest visited resp
            else knownLoop pkg alreadyImported rest visited (resp ++ [path])
      end
  end.

(** [KnownPackages]; the result is the slice [resp], nil when it is
    empty. *)
Definition KnownPackages (fh : VersionedFileHandle) : result (list string) :=
  '(pkg, pgf) ← wrap "GetParsedFile" (GetParsedFile env fh NarrowestPackage);
  f ← deref (File pgf);
  let alreadyImported : gset string := list_to_set (literal <$> ast.Imports f) in
  pkgs ← snapshotKnownPackages;
  resp ← knownLoop pkg alreadyImported pkgs ∅ [];
  Ok (sortSlice importLess resp).

(** *** Notions the properties of [KnownPackages] are stated with *)

(** What [sort.Slice] leaves: no element is less than one before it. *)
Definition sortedBy (less : string → string → bool) (l : list string) : Prop :=
  ∀ i j a b, i < j → l !! i = Some a → l !! j = Some b → less b a = false.

(** The first compiled file of the known package has a package clause,
    and the clause does not say [main]. *)
Definition named (knownPkg : P) : bool :=
  match CompiledGoFiles knownPkg with
  | Some (Some pkgName) :: _ => negb (String.eqb pkgName "main")
  | _ => false
  end.

(** The known package gets as far as the test of [visited]. *)
Definition counts (alreadyImported : gset string) (knownPkg : P) : bool :=
  named knownPkg && bool_decide (PkgPath knownPkg ∉ alreadyImported).

(** The two tests after a path is marked as visited. *)
Definition importable (pkg knownPkg : P) : bool :=
  isValidImport (PkgPath pkg) (PkgPath knownPkg) && negb (isCyclicalImport pkg knownPkg).

(** The first known package of the path that counts is importable. *)
Definition offered (pkg : P) (alreadyImported : gset string) (pkgs : list P)
    (path : string) : Prop :=
  ∃ pre k post,
    pkgs = pre ++ k :: post ∧ PkgPath k = path
    ∧ counts alreadyImported k = true ∧ importable pkg k = true
    ∧ ∀ k', k' ∈ pre → PkgPath k' = path → counts alreadyImported k' = false.
End Known.

End known.

(** * The import queue of the command-line variant

    [internal/impl/impl.go] holds an earlier form of the rewriter.  Its
    [concreteType] has the fields of the one of [stub.go]; its [addImport]
    appends without a test, and its rewriter asks [hasImport] first, which
    looks at the queue as well as at the file.  (Its [mightAddSelector]
    also writes two lines to the log for the identifier [Problem]; they
    have no part in what it returns.) *)

Module impl.

(** [*Package]: the rewriter reads [Types] and [TypesInfo]. *)
Record Package := mkPackage { Types : types.Package; TypesInfo : types.Info }.

Definition addImport (ct : concreteType) (name path : string) : concreteType :=
  setAddedImports ct (addedImports ct ++ [mkAddedImport name path]).

(** [hasImport]: the import of the file, or one made up from the queued
    import, whose [Path.Value] is the path as it is. *)
Definition hasImport (ct : concreteType) (path : string)
    : result (option ast.ImportSpec) :=
  f ← deref (file ct);
  match find (importsPath path) (ast.Imports f) with
  | Some imp => Ok (Some imp)
  | None =>
      match find (λ imp, String.eqb (Path imp) path) (addedImports ct) with
      | Some imp =>
          Ok (Some (ast.mkImportSpec
                      (if String.eqb (Name imp) "" then None
                       else Some (ast.mkIdent None 0%Z (Name imp)))
                      (Path imp)))
      | None => Ok None
      end
  end.

(** [mightRenameSelector]: the boolean, [sel.X] as the call leaves it (the
    function assigns to the name of the identifier in place), and the
    concrete type. *)
Definition mightRenameSelector (X : ast.Expr) (Sel : ast.Ident) (ifaceInfo : types.Info)
    (ct : concreteType) : result (bool * ast.Expr * concreteType) :=
  match X with
  | ast.EIdent ident =>
      match UsesAt ifaceInfo ident with
      | None => Ok (false, X, ct)
      | Some obj =>
          match types.Kind obj with
          | types.PkgName imported =>
              found ← hasImport ct (types.Path imported);
              match found with
              | Some imp =>
                  let importName :=
                    match ast.ImpName imp with
                    | Some n =>
                        if negb (String.eqb (ast.Name n) (types.Name imported))
                        then ast.Name n else types.Name imported
                    | None => types.Name imported
                    end in
                  Ok (false,
                      ast.EIdent (ast.mkIdent (ast.ptr ident) (ast.NamePos ident) importName),
                      ct)
              | None =>
                  if String.eqb (types.Path imported) (types.Path (pkg ct))
                  then Ok (false, X, ct)
                  else
                    let importName :=
                      if negb (String.eqb (types.ObjName obj) (types.Name imported))
                      then types.ObjName obj else "" in
                    Ok (false, X, addImport ct importName (types.Path imported))
              end
          | _ => Ok (false, X, ct)
          end
      end
  | _ => Ok (false, X, ct)
  end.

(** [mightAddSelector]: the boolean, the node the cursor holds afterwards,
    and the concrete type. *)
Definition mightAddSelector (ident : ast.Ident) (ifacePkg : Package) (ct : concreteType)
    : result (bool * ast.Expr * concreteType) :=
  match UsesAt (TypesInfo ifacePkg) ident with
  | None => Ok (false, ast.EIdent ident, ct)
  | Some obj =>
      match types.ObjType obj with
      | types.Named _ (Some npkg) _ _ =>
          found ← hasImport ct (types.Path npkg);
          let pkgName :=
            match found with
            | Some (ast.mkImportSpec (Some n) _) => ast.Name n
            | _ => types.Name npkg
            end in
          let missingImport := bool_decide (found = None) in
          let isNotImportingDestination :=
            negb (String.eqb (types.Path npkg) (types.Path (pkg ct))) in
          let ct' :=
            if missingImport && isNotImportingDestination
            then addImport ct "" (types.Path npkg) else ct in
          let isLocalDeclaration :=
            String.eqb (types.Path npkg) (types.Path (Types ifacePkg))
            && negb (String.eqb (types.Path npkg) (types.Path (pkg ct))) in
          let isDotImport :=
            negb (String.eqb (types.Path npkg) (types.Path (Types ifacePkg)))
            && negb (String.eqb (types.Path npkg) (types.Path (pkg ct))) in
          if isLocalDeclaration || isDotImport
          then Ok (false,
                   ast.ESelector (ast.EIdent (ast.mkIdent None 0%Z pkgName)) ident,
                   ct')
          else Ok (false, ast.EIdent ident, ct')
      | _ => Ok (false, ast.EIdent ident, ct)
      end
  end.

End impl.

(** * A small workspace to run the functions on

    Package [store] declares the interfaces, in a file that imports
    [example.com/models] and dot-imports [time]; package [models] and
    package [app] declare concrete types.  A position is the base of its
    file (1000 for [store.go], 2000 for [user.go], 3000 for [app.go]) plus
    the offset in the file. *)

Module World.

Local Open Scope Z_scope.

Inductive Pkg := Store | App | Models | Time.

Definition storeT : types.Package := types.mkPackage "example.com/store" "store".
Definition appT : types.Package := types.mkPackage "example.com/app" "app".
Definition modelsT : types.Package := types.mkPackage "example.com/models" "models".
Definition timeT : types.Package := types.mkPackage "time" "time".

Definition typesOf (p : Pkg) : types.Package :=
  match p with
  | Store => storeT
  | App => appT
  | Models => modelsT
  | Time => timeT
  end.

(** *** The files *)

Definition lines (l : list string) : string :=
  foldr (λ s acc, s +:+ newline +:+ acc) "" l.

(** [store.go] imports [example.com/models] and [. "time"]. *)
Definition storeFile : ast.File :=
  ast.mkFile "store.go" "store"
    [ ast.mkImportSpec None "example.com/models";
      ast.mkImportSpec (Some (ast.mkIdent None 1050 ".")) "time" ]
    (lines [ "type Saver interface {";
             tab +:+ "Save(u *models.User, at Time) error";
             "}";
             "";
             "type A interface {";
             tab +:+ "F()";
             "}";
             "";
             "type B interface {";
             tab +:+ "A";
             tab +:+ "F()";
             "}";
             "";
             "type I interface {";
             tab +:+ "A";
             tab +:+ "B";
             "}";
             "";
             "type Doer interface {";
             tab +:+ "Begin()";
             tab +:+ "Do(int)";
             "}";
             "";
             "var _ A = models.Repo{}" ]).

(** [user.go] of package [models] imports nothing. *)
Definition userFile : ast.File :=
  ast.mkFile "user.go" "models" []
    (lines [ "type User struct{}"; ""; "type Repo struct{}" ]).

(** [app.go] imports [example.com/store], [m "example.com/models"] and
    [_ "time"]. *)
Definition appFile : ast.File :=
  ast.mkFile "app.go" "app"
    [ ast.mkImportSpec None "example.com/store";
      ast.mkImportSpec (Some (ast.mkIdent None 3047 "m")) "example.com/models";
      ast.mkImportSpec (Some (ast.mkIdent None 3077 "_")) "time" ]
    (lines [ "type C struct{}";
             "";
             "type D struct{}";
             "";
             "func (D) F() {}";
             "";
             "type E struct{}";
             "";
             "func (E) Do(s string) {}";
             "";
             "var _ store.Saver = C{}";
             "";
             "var _ store.A = D{}";
             "";
             "var _ store.Doer = E{}";
             "";
             "var _ store.I = C{}";
             "";
             "var _ = m.User{}";
             "";
             "func f() store.Saver {";
             tab +:+ "return C{}";
             "}" ]).

(** *** The types *)

Definition userType : types.Type_ := types.Named "User" (Some modelsT) 2021 types.Struct.
Definition repoType : types.Type_ := types.Named "Repo" (Some modelsT) 2041 types.Struct.
Definition timeType : types.Type_ := types.Named "Time" (Some timeT) 4010 types.Struct.
Definition errorType : types.Type_ :=
  types.Named "error" None 0
    (types.Interface
       [types.mkFunc "Error" 0 (types.Signature [] [types.Basic "string"] false)] []).

(** [type Saver interface { Save(u *models.User, at Time) error }] *)
Definition saveFunc : types.Func :=
  types.mkFunc "Save" 1084
    (types.Signature [types.Pointer userType; timeType] [errorType] false).
Definition saverType : types.Type_ :=
  types.Named "Saver" (Some storeT) 1065 (types.Interface [saveFunc] []).

(** [type A interface{ F() }], [type B interface{ A; F() }] and
    [type I interface{ A; B }]: [I] requires [F] three times over. *)
Definition fOfA : types.Func := types.mkFunc "F" 1143 (types.Signature [] [] false).
Definition fOfB : types.Func := types.mkFunc "F" 1173 (types.Signature [] [] false).
Definition aType : types.Type_ :=
  types.Named "A" (Some storeT) 1128 (types.Interface [fOfA] []).
Definition bType : types.Type_ :=
  types.Named "B" (Some storeT) 1155 (types.Interface [fOfB] [aType]).
Definition iType : types.Type_ :=
  types.Named "I" (Some storeT) 1185 (types.Interface [] [aType; bType]).

(** [type Doer interface{ Begin(); Do(int) }] *)
Definition beginFunc : types.Func :=
  types.mkFunc "Begin" 1231 (types.Signature [] [] false).
Definition doFunc : types.Func :=
  types.mkFunc "Do" 1240 (types.Signature [types.Basic "int"] [] false).
Definition doerType : types.Type_ :=
  types.Named "Doer" (Some storeT) 1213 (types.Interface [beginFunc; doFunc] []).

(** The concrete types of package [app]: [C] has no method, [D] has [F()],
    [E] has [Do(s string)]. *)
Definition cType : types.Type_ := types.Named "C" (Some appT) 3092 types.Struct.
Definition dType : types.Type_ := types.Named "D" (Some appT) 3109 types.Struct.
Definition eType : types.Type_ := types.Named "E" (Some appT) 3143 types.Struct.

Definition typeObject (t : types.Type_) : types.Object :=
  match t with
  | types.Named n p pos u => types.Obj n p pos u
  | _ => types.mkObject "" None 0 types.Builtin t
  end.

(** *** The syntax *)

(** [(u *models.User, at Time) error], the type of the field [Save] of
    [store.go]. *)
Definition modelsId : ast.Ident := ast.mkIdent (Some 1%positive) 1092 "models".
Definition userId : ast.Ident := ast.mkIdent (Some 2%positive) 1099 "User".
Definition timeId : ast.Ident := ast.mkIdent (Some 3%positive) 1108 "Time".
Definition errorId : ast.Ident := ast.mkIdent (Some 4%positive) 1114 "error".

Definition saveSig : ast.Expr :=
  ast.ENode ast.FuncType 1088 1119
    [ ast.ENode ast.FieldList 1088 1113
        [ ast.ENode (ast.Field ["u"]) 1089 1103
            [ ast.ENode ast.StarExpr 1091 1103
                [ ast.ESelector (ast.EIdent modelsId) userId ] ];
          ast.ENode (ast.Field ["at"]) 1105 1112 [ ast.EIdent timeId ] ];
      ast.ENode ast.FieldList 1114 1119
        [ ast.ENode (ast.Field []) 1114 1119 [ ast.EIdent errorId ] ] ].

(** [()] of [F()] and of [Begin()], and [(int)] of [Do(int)]. *)
Definition intId : ast.Ident := ast.mkIdent (Some 8%positive) 1243 "int".
Definition fSig (pos : token.Pos) : ast.Expr :=
  ast.ENode ast.FuncType pos (pos + 2) [ ast.ENode ast.FieldList pos (pos + 2) [] ].
Definition doSig : ast.Expr :=
  ast.ENode ast.FuncType 1242 1247
    [ ast.ENode ast.FieldList 1242 1247
        [ ast.ENode (ast.Field []) 1243 1246 [ ast.EIdent intId ] ] ].

(** The field of a method in its interface type: the name, then the type. *)
Definition methodField (name : string) (pos : token.Pos) (sig : ast.Expr) : ast.Expr :=
  ast.ENode (ast.Field [name]) pos (ast.End sig) [sig].

(** [var _ A = models.Repo{}] in [store.go]. *)
Definition aId5 : ast.Ident := ast.mkIdent (Some 5%positive) 1257 "A".
Definition modelsId5 : ast.Ident := ast.mkIdent (Some 6%positive) 1261 "models".
Definition repoId5 : ast.Ident := ast.mkIdent (Some 7%positive) 1268 "Repo".
Definition repoLit : ast.Expr :=
  ast.ENode ast.CompositeLit 1261 1274 [ ast.ESelector (ast.EIdent modelsId5) repoId5 ].
Definition spec5 : ast.ValueSpec :=
  ast.mkValueSpec [ast.mkIdent None 1255 "_"] (Some (ast.EIdent aId5)) [repoLit].

(** [var _ store.Saver = C{}], [var _ store.A = D{}],
    [var _ store.Doer = E{}] and [var _ store.I = C{}] in [app.go]. *)
Definition literalOf (pos : token.Pos) (p : positive) (concrete : string) : ast.Expr :=
  ast.ENode ast.CompositeLit pos (pos + 3) [ ast.EIdent (ast.mkIdent (Some p) pos concrete) ].
Definition valueSpecOf (under qual sel value : token.Pos) (p1 p2 p3 : positive)
    (iface concrete : string) : ast.ValueSpec :=
  ast.mkValueSpec [ast.mkIdent None under "_"]
    (Some (ast.ESelector (ast.EIdent (ast.mkIdent (Some p1) qual "store"))
             (ast.mkIdent (Some p2) sel iface)))
    [ literalOf value p3 concrete ].
Definition spec1 : ast.ValueSpec := valueSpecOf 3185 3187 3193 3201 11 12 13 "Saver" "C".
Definition spec2 : ast.ValueSpec := valueSpecOf 3210 3212 3218 3222 14 15 16 "A" "D".
Definition spec3 : ast.ValueSpec := valueSpecOf 3231 3233 3239 3246 17 18 19 "Doer" "E".
Definition spec6 : ast.ValueSpec := valueSpecOf 3255 3257 3263 3267 23 24 25 "I" "C".

(** [return C{}] in [func f() store.Saver] of [app.go]: the keyword is at
    3314, the result at 3321. *)
Definition return4 : ast.ReturnStmt := ast.mkReturnStmt 3314 [ literalOf 3321 20 "C" ].

(** *** The type information *)

Definition modelsName : types.Object :=
  types.mkObject "models" (Some storeT) 1022 (types.PkgName modelsT) types.Invalid.

Definition storeUses : gmap positive types.Object :=
  {[ 1%positive := modelsName;
     2%positive := typeObject userType;
     3%positive := typeObject timeType;
     4%positive := typeObject errorType;
     5%positive := typeObject aType;
     6%positive := modelsName;
     7%positive := typeObject repoType;
     8%positive := types.mkObject "int" None 0 types.TypeName (types.Basic "int") ]}.

Definition storeName : types.Object :=
  types.mkObject "store" (Some appT) 3020 (types.PkgName storeT) types.Invalid.

Definition appUses : gmap positive types.Object :=
  {[ 11%positive := storeName; 12%positive := typeObject saverType;
     13%positive := typeObject cType;
     14%positive := storeName; 15%positive := typeObject aType;
     16%positive := typeObject dType;
     17%positive := storeName; 18%positive := typeObject doerType;
     19%positive := typeObject eType;
     20%positive := typeObject cType;
     23%positive := storeName; 24%positive := typeObject iType;
     25%positive := typeObject cType ]}.

(** The concrete type [C] of [app.go] and the concrete type [Repo] of
    [user.go], as [MethodStubActions] builds them. *)
Definition ctApp : concreteType := mkConcreteType appT (Some appFile) ∅ ∅ [].
Definition ctModels : concreteType := mkConcreteType modelsT (Some userFile) ∅ ∅ [].

(** *** The packages *)

Definition infoOf (p : Pkg) : types.Info :=
  match p with
  | Store => types.mkInfo storeUses
  | App => types.mkInfo appUses
  | _ => types.mkInfo ∅
  end.

Definition importOf (p : Pkg) (path : string) : result Pkg :=
  match p with
  | Store =>
      if String.eqb path "example.com/models" then Ok Models
      else if String.eqb path "time" then Ok Time
      else Err (errorString "no such import")
  | App =>
      if String.eqb path "example.com/store" then Ok Store
      else if String.eqb path "example.com/models" then Ok Models
      else if String.eqb path "time" then Ok Time
      else Err (errorString "no such import")
  | _ => Err (errorString "no such import")
  end.

#[global] Instance worldPackage : Package Pkg := {|
  PkgPath p := types.Path (typesOf p);
  PkgName p := types.Name (typesOf p);
  GetTypesInfo := infoOf;
  GetImport := importOf |}.

(** *** The snapshot *)

Definition fileBase (name : string) : Z :=
  if String.eqb name "store.go" then 1000
  else if String.eqb name "user.go" then 2000
  else if String.eqb name "app.go" then 3000
  else 4000.

Definition positionFilename (pos : token.Pos) : string :=
  if bool_decide (pos < 1000) then ""
  else if bool_decide (pos < 2000) then "store.go"
  else if bool_decide (pos < 3000) then "user.go"
  else if bool_decide (pos < 4000) then "app.go"
  else "time.go".

Definition positionOffset (pos : token.Pos) : nat :=
  Z.to_nat (pos - fileBase (positionFilename pos)).

Definition parsedFile (fh : VersionedFileHandle) : result (Pkg * ParsedGoFile) :=
  let uri := fhURI fh in
  if String.eqb uri "store.go" then Ok (Store, mkPGF uri (Some storeFile))
  else if String.eqb uri "user.go" then Ok (Models, mkPGF uri (Some userFile))
  else if String.eqb uri "app.go" then Ok (App, mkPGF uri (Some appFile))
  else Err (errorString ("no parsed file for " +:+ uri)).

(** *** The printer and the parser *)

Definition printImport (imp : ast.ImportSpec) : string :=
  "import "
  +:+ match ast.ImpName imp with
      | Some a => ast.Name a +:+ " "
      | None => ""
      end
  +:+ quote +:+ ast.ImpPath imp +:+ quote +:+ newline.

Definition printFile (f : ast.File) : string :=
  "package " +:+ ast.PkgClause f +:+ newline
  +:+ match ast.Imports f with
      | [] => ""
      | imps => newline +:+ foldr (λ imp acc, printImport imp +:+ acc) "" imps
      end
  +:+ newline +:+ ast.Decls f.

(** The result list of a function type is printed without parentheses
    when it is one type without a name. *)
Definition oneUnnamed (results : ast.Expr) : bool :=
  match results with
  | ast.ENode ast.FieldList _ _ [ast.ENode (ast.Field []) _ _ _] => true
  | _ => false
  end.

Fixpoint printExpr (n : ast.Expr) : string :=
  match n with
  | ast.EIdent x => ast.Name x
  | ast.ESelector X Sel => printExpr X +:+ "." +:+ ast.Name Sel
  | ast.ENode k _ _ kids =>
      let parts := (fix go (l : list ast.Expr) : list string :=
                      match l with
                      | [] => []
                      | c :: l' => printExpr c :: go l'
                      end) kids in
      match k, parts, kids with
      | ast.StarExpr, [x], _ => "*" +:+ x
      | ast.ArrayType, [x], _ => "[]" +:+ x
      | ast.Ellipsis, [x], _ => "..." +:+ x
      | ast.FuncType, [ps], _ => "func(" +:+ ps +:+ ")"
      | ast.FuncType, [ps; rs], [_; results] =>
          "func(" +:+ ps +:+ ") "
          +:+ (if oneUnnamed results then rs else "(" +:+ rs +:+ ")")
      | ast.FieldList, _, _ => String.concat ", " parts
      | ast.Field [], [ty], _ => ty
      | ast.Field names, [ty], _ => String.concat ", " names +:+ " " +:+ ty
      | _, _, _ => String.concat " " parts
      end
  end.

Fixpoint splitLine (s : string) : string * string :=
  match s with
  | EmptyString => ("", "")
  | String c s' =>
      if Ascii.eqb c (Ascii.ascii_of_nat 10) then ("", s')
      else let '(l, r) := splitLine s' in (String c l, r)
  end.

Fixpoint splitSpace (s : string) : option (string * string) :=
  match s with
  | EmptyString => None
  | String c s' =>
      if Ascii.eqb c (Ascii.ascii_of_nat 32) then Some ("", s')
      else '(l, r) ← splitSpace s'; Some (String c l, r)
  end.

Definition unquote (s : string) : string :=
  String.substring 1 (String.length s - 2) s.

Definition parseImport (line : string) : option ast.ImportSpec :=
  if HasPrefix line "import " then
    let rest := TrimPrefix line "import " in
    match splitSpace rest with
    | Some (alias, path) =>
        Some (ast.mkImportSpec (Some (ast.mkIdent None 0 alias)) (unquote path))
    | None => Some (ast.mkImportSpec None (unquote rest))
    end
  else None.

(** The import declarations at the head of [s], and what follows them. *)
Fixpoint parseImports (fuel : nat) (s : string) : list ast.ImportSpec * string :=
  match fuel with
  | O => ([], s)
  | S fuel =>
      let '(l, r) := splitLine s in
      if String.eqb l "" then
        (if String.eqb r "" then ([], s) else parseImports fuel r)
      else match parseImport l with
           | Some imp => let '(imps, decls) := parseImports fuel r in (imp :: imps, decls)
           | None => ([], s)
           end
  end.

Definition parseFile (name src : string) : result ast.File :=
  let '(l, r) := splitLine src in
  if HasPrefix l "package " then
    let '(imps, decls) := parseImports (String.length r) r in
    Ok (ast.mkFile name (TrimPrefix l "package ") imps decls)
  else Err (errorString "expected package clause").

Definition addNamedImport (f : ast.File) (name path : string) : ast.File :=
  if existsb (λ imp, String.eqb (default "" (ast.Name <$> ast.ImpName imp)) name
                     && String.eqb (ast.ImpPath imp) path) (ast.Imports f)
  then f
  else ast.mkFile (ast.FileName f) (ast.PkgClause f)
         (ast.Imports f
          ++ [ast.mkImportSpec
                (if String.eqb name "" then None else Some (ast.mkIdent None 0 name)) path])
         (ast.Decls f).

(** *** The mapper *)

(** The offset of the start of a line. *)
Fixpoint lineStart (s : string) (line : nat) {struct s} : nat :=
  match line, s with
  | O, _ => O
  | _, EmptyString => O
  | S k, String c s' =>
      S (lineStart s' (if Ascii.eqb c (Ascii.ascii_of_nat 10) then k else line))
  end.

Definition positionOf (pgf : ParsedGoFile) (p : protocol.Position) : result token.Pos :=
  f ← deref (File pgf);
  Ok (fileBase (pgfURI pgf)
      + Z.of_nat (lineStart (printFile f) (Z.to_nat (protocol.Line p)))
      + protocol.Character p).

Definition rangeSpan (pgf : ParsedGoFile) (r : protocol.Range)
    : result (token.Pos * token.Pos) :=
  s ← positionOf pgf (protocol.Start r);
  e ← positionOf pgf (protocol.End r);
  Ok (s, e).

Fixpoint lineCount (s : string) : nat :=
  match s with
  | EmptyString => O
  | String c s' =>
      ((if Ascii.eqb c (Ascii.ascii_of_nat 10) then 1 else 0) + lineCount s')%nat
  end.

Definition wholeFileEdit (pgf : ParsedGoFile) (new : string)
    : result (list protocol.TextEdit) :=
  f ← deref (File pgf);
  let last := Z.of_nat (lineCount (printFile f)) in
  Ok [ protocol.mkTextEdit
         (protocol.mkRange (protocol.mkPosition 0 0) (protocol.mkPosition last 0)) new ].

(** *** The type checker *)

(** [types.Identical]: named types are identical when they are the same
    declaration, other types when they are built alike. *)
Fixpoint identical (a b : types.Type_) {struct a} : bool :=
  let all := fix all (l l' : list types.Type_) {struct l} : bool :=
    match l, l' with
    | [], [] => true
    | x :: l, y :: l' => identical x y && all l l'
    | _, _ => false
    end in
  match a, b with
  | types.Invalid, types.Invalid => true
  | types.Basic n, types.Basic n' => String.eqb n n'
  | types.Named n p pos _, types.Named n' p' pos' _ =>
      String.eqb n n'
      && String.eqb (default "" (types.Path <$> p)) (default "" (types.Path <$> p'))
      && Z.eqb pos pos'
  | types.Pointer x, types.Pointer y => identical x y
  | types.Slice x, types.Slice y => identical x y
  | types.Struct, types.Struct => true
  | types.Signature ps rs v, types.Signature ps' rs' v' =>
      all ps ps' && all rs rs' && Bool.eqb v v'
  | types.Interface ms es, types.Interface ms' es' =>
      (fix allm (l l' : list types.Func) {struct l} : bool :=
         match l, l' with
         | [], [] => true
         | types.mkFunc n _ t :: l, types.mkFunc n' _ t' :: l' =>
             String.eqb n n' && identical t t' && allm l l'
         | _, _ => false
         end) ms ms'
      && all es es'
  | _, _ => false
  end.

(** The method sets of the types of [app.go]; the methods have value
    receivers, so the pointer types have them as well. *)
Definition declaredMethods (name : string) : types.MethodSet :=
  if String.eqb name "D"
  then {[ "F" := types.mkSelection (types.Signature [] [] false) ]}
  else if String.eqb name "E"
  then {[ "Do" := types.mkSelection (types.Signature [types.Basic "string"] [] false) ]}
  else ∅.

Definition newMethodSet (t : types.Type_) : types.MethodSet :=
  match t with
  | types.Named n _ _ _ | types.Pointer (types.Named n _ _ _) => declaredMethods n
  | _ => ∅
  end.

(** The concrete type of a type of [app.go], as [MethodStubActions] builds
    it. *)
Definition ctOf (t : types.Type_) : concreteType :=
  mkConcreteType appT (Some appFile) (newMethodSet t) (newMethodSet (types.Pointer t)) [].

(** *** The paths of [astutil.PathEnclosingInterval] *)

Definition fileNode (name : string) (len : Z) : ast.Node :=
  ast.NOther "File" (fileBase name) (fileBase name + len).

(** From the name of a method of an interface up to the file: [tname] is
    the name of the interface type, declared at [tpos], and [close] the
    position of its closing brace. *)
Definition methodPath (name : string) (pos : token.Pos) (sig : ast.Expr)
    (tname : string) (tpos close : token.Pos) : list ast.Node :=
  let iface := tpos + Z.of_nat (String.length tname) + 1 in
  [ ast.NExpr (ast.EIdent (ast.mkIdent None pos name));
    ast.NExpr (methodField name pos sig);
    ast.NOther "FieldList" (iface + 10) (close + 1);
    ast.NOther "InterfaceType" iface (close + 1);
    ast.NOther "TypeSpec" tpos (close + 1);
    ast.NOther "GenDecl" (tpos - 5) (close + 1);
    fileNode "store.go" 275 ].

(** From the name of a struct type up to the file. *)
Definition typePath (file name : string) (pos : token.Pos) (len : Z) : list ast.Node :=
  let end_ := pos + Z.of_nat (String.length (name +:+ " struct{}")) in
  [ ast.NExpr (ast.EIdent (ast.mkIdent None pos name));
    ast.NOther "TypeSpec" pos end_;
    ast.NOther "GenDecl" (pos - 5) end_;
    fileNode file len ].

(** From the value of a variable declaration up to the file. *)
Definition valuePath (file : string) (vs : ast.ValueSpec) (len : Z) : list ast.Node :=
  match ast.Values vs, ast.Names vs with
  | [v], [x] =>
      [ ast.NExpr v; ast.NValueSpec vs;
        ast.NOther "GenDecl" (ast.NamePos x - 4) (ast.End v); fileNode file len ]
  | _, _ => []
  end.

(** From the return statement of [f] up to the file. *)
Definition returnPath : list ast.Node :=
  [ ast.NReturnStmt return4; ast.NOther "BlockStmt" 3311 3326;
    ast.NOther "FuncDecl" 3290 3326; fileNode "app.go" 327 ].

Definition pathEnclosingInterval (f : ast.File) (start end_ : token.Pos) : list ast.Node :=
  if negb (String.eqb (positionFilename start) (ast.FileName f)) then [] else
  match start with
  | 1084 => methodPath "Save" 1084 saveSig "Saver" 1065 1120
  | 1143 => methodPath "F" 1143 (fSig 1144) "A" 1128 1147
  | 1173 => methodPath "F" 1173 (fSig 1174) "B" 1155 1177
  | 1231 => methodPath "Begin" 1231 (fSig 1236) "Doer" 1213 1248
  | 1240 => methodPath "Do" 1240 doSig "Doer" 1213 1248
  | 1261 => valuePath "store.go" spec5 275
  | 2021 => typePath "user.go" "User" 2021 55
  | 2041 => typePath "user.go" "Repo" 2041 55
  | 3092 => typePath "app.go" "C" 3092 327
  | 3109 => typePath "app.go" "D" 3109 327
  | 3143 => typePath "app.go" "E" 3143 327
  | 3201 => valuePath "app.go" spec1 327
  | 3222 => valuePath "app.go" spec2 327
  | 3246 => valuePath "app.go" spec3 327
  | 3267 => valuePath "app.go" spec6 327
  | 3314 => returnPath
  | 3321 => ast.NExpr (literalOf 3321 20 "C") :: returnPath
  | _ => [fileNode (ast.FileName f) 0]
  end.

(** [EnclosingFunction]: [f] is the one function of the workspace. *)
Definition enclosingFunction (path : list ast.Node) (info : types.Info) : option FuncInfo :=
  if existsb (λ n, match n with
                   | ast.NOther what _ _ => String.eqb what "FuncDecl"
                   | _ => false
                   end) path
  then Some (mkFuncInfo [saverType])
  else None.

Definition env : Env Pkg := {|
  Identical := identical;
  NewMethodSet := newMethodSet;
  PositionFilename := positionFilename;
  PositionOffset := positionOffset;
  FindFile uri := mkFH uri 1;
  GetParsedFile fh _ := parsedFile fh;
  RangeSpan := rangeSpan;
  SpanRange _ spn := Ok spn;
  PathEnclosingInterval := pathEnclosingInterval;
  AddNamedImport := addNamedImport;
  formatNode n := Ok (printExpr n);
  formatFile f := Ok (printFile f);
  ParseFile := parseFile;
  EnclosingFunction := enclosingFunction;
  copyAST n := n;
  computeTextEdits := wholeFileEdit |}.

(** *** The diagnostics *)

Definition fhApp : VersionedFileHandle := mkFH "app.go" 1.
Definition fhStore : VersionedFileHandle := mkFH "store.go" 1.

Definition diagnosticAt (line from to : Z) (message : string) : protocol.Diagnostic :=
  protocol.mkDiagnostic
    (protocol.mkRange (protocol.mkPosition line from) (protocol.mkPosition line to))
    "compiler" message.

(** On [C{}] of [var _ store.Saver = C{}]. *)
Definition d1 : protocol.Diagnostic :=
  diagnosticAt 16 20 23
    "cannot use C{} (value of type C) as store.Saver value in variable declaration: missing method Save".

(** On [D{}] of [var _ store.A = D{}]: [D] has the method by now. *)
Definition d2 : protocol.Diagnostic :=
  diagnosticAt 18 16 19
    "cannot use D{} (value of type D) as store.A value in variable declaration: missing method F".

(** On [E{}] of [var _ store.Doer = E{}]. *)
Definition d3 : protocol.Diagnostic :=
  diagnosticAt 20 19 22
    "cannot use E{} (value of type E) as store.Doer value in variable declaration: missing method Begin".

(** On [C{}] of [return C{}], and from the keyword [return] on. *)
Definition d4 : protocol.Diagnostic :=
  diagnosticAt 27 8 11
    "cannot use C{} (value of type C) as store.Saver value in return statement: missing method Save".
Definition d4' : protocol.Diagnostic :=
  diagnosticAt 27 1 11
    "cannot use C{} (value of type C) as store.Saver value in return statement: missing method Save".

(** On [models.Repo{}] of [var _ A = models.Repo{}], in [store.go]. *)
Definition d5 : protocol.Diagnostic :=
  diagnosticAt 28 10 23
    "cannot use models.Repo{} (value of type models.Repo) as A value in variable declaration: missing method F".

(** On [C{}] of [var _ store.I = C{}]. *)
Definition d6 : protocol.Diagnostic :=
  diagnosticAt 22 16 19
    "cannot use C{} (value of type C) as store.I value in variable declaration: missing method F".

End World.

(** * A second workspace: requests at the edges

    Package [cases] imports [example.com/store] of the first workspace and
    [example.com/lib], which gives [fmt.Stringer] the name [Text] and
    declares an interface over a type of its own.
    The base of [cases.go] is 5000, that of [lib.go] 6000. *)

Module Cases.

Local Open Scope Z_scope.

Inductive Pkg := Main | Aliases | Fmt | Tool | Keys | Lib (p : World.Pkg).

Definition casesT : types.Package := types.mkPackage "example.com/cases" "cases".
Definition libT : types.Package := types.mkPackage "example.com/lib" "lib".
Definition fmtT : types.Package := types.mkPackage "fmt" "fmt".

(** A command and a package below an [internal] directory, which the
    snapshot knows as well. *)
Definition toolT : types.Package := types.mkPackage "example.com/tool" "main".
Definition keysT : types.Package :=
  types.mkPackage "example.com/vault/internal/keys" "keys".

Definition typesOf (p : Pkg) : types.Package :=
  match p with
  | Main => casesT
  | Aliases => libT
  | Fmt => fmtT
  | Tool => toolT
  | Keys => keysT
  | Lib p => World.typesOf p
  end.

(** *** The files *)

Definition casesFile : ast.File :=
  ast.mkFile "cases.go" "cases"
    [ ast.mkImportSpec None "example.com/store";
      ast.mkImportSpec None "example.com/lib" ]
    (World.lines
       [ "type T struct{}";
         "";
         "type Wrap struct{ Inner T }";
         "";
         "type Flag struct{ On bool }";
         "";
         "type Failer interface {";
         tab +:+ "error";
         tab +:+ "Fail()";
         "}";
         "";
         "var _ store.A = Wrap{Inner: T{}}";
         "";
         "var z [len([1]store.A{T{}})]int";
         "";
         "var _ Failer = T{}";
         "";
         "var _ error = T{}";
         "";
         "func g() lib.Text {";
         tab +:+ "return T{}";
         "}";
         "";
         "func h() error {";
         tab +:+ "return T{}";
         "}";
         "";
         "func k() store.A {";
         tab +:+ "return Flag{On: true}";
         "}";
         "";
         "var y = []store.A{T{}}";
         "";
         "var _ = Wrap(T{})";
         "";
         "type Keeper interface {";
         tab +:+ "store.Saver";
         "}";
         "";
         "var _ Keeper = T{}" ]).

Definition libFile : ast.File :=
  ast.mkFile "lib.go" "lib" [ ast.mkImportSpec None "fmt" ]
    (World.lines
       [ "type Text = fmt.Stringer";
         "";
         "type Level int";
         "";
         "type Logger interface {";
         tab +:+ "Log(l Level)";
         "}" ]).

(** *** The types *)

Definition tType : types.Type_ := types.Named "T" (Some casesT) 5073 types.Struct.
Definition wrapType : types.Type_ := types.Named "Wrap" (Some casesT) 5090 types.Struct.
Definition flagType : types.Type_ := types.Named "Flag" (Some casesT) 5119 types.Struct.

(** [type Failer interface { error; Fail() }] *)
Definition failFunc : types.Func := types.mkFunc "Fail" 5175 (types.Signature [] [] false).
Definition failerType : types.Type_ :=
  types.Named "Failer" (Some casesT) 5148 (types.Interface [failFunc] [World.errorType]).

(** [type Keeper interface { store.Saver }]: an interface of [cases] that
    has its one method from an interface of [store]. *)
Definition keeperType : types.Type_ :=
  types.Named "Keeper" (Some casesT) 5451 (types.Interface [] [World.saverType]).

(** [fmt.Stringer], which [lib.Text] is another name of. *)
Definition stringerType : types.Type_ :=
  types.Named "Stringer" (Some fmtT) 7100
    (types.Interface
       [types.mkFunc "String" 7120 (types.Signature [] [types.Basic "string"] false)] []).

(** [type Level int] and [type Logger interface { Log(l Level) }] of
    [lib.go]. *)
Definition levelType : types.Type_ :=
  types.Named "Level" (Some libT) 6058 (types.Basic "int").
Definition logFunc : types.Func :=
  types.mkFunc "Log" 6094 (types.Signature [levelType] [] false).
Definition loggerType : types.Type_ :=
  types.Named "Logger" (Some libT) 6074 (types.Interface [logFunc] []).

(** *** The syntax *)

Definition ident (p : positive) (pos : token.Pos) (name : string) : ast.Ident :=
  ast.mkIdent (Some p) pos name.

(** [T{}] at a position. *)
Definition tLit (pos : token.Pos) (p : positive) : ast.Expr :=
  ast.ENode ast.CompositeLit pos (pos + 3) [ ast.EIdent (ident p pos "T") ].

Definition storeA (qual sel : token.Pos) (p1 p2 : positive) : ast.Expr :=
  ast.ESelector (ast.EIdent (ident p1 qual "store")) (ident p2 sel "A").

(** [var _ store.A = Wrap{Inner: T{}}] *)
Definition wrapLit : ast.Expr :=
  ast.ENode ast.CompositeLit 5201 5217
    [ ast.EIdent (ident 33 5201 "Wrap");
      ast.ENode ast.OtherExpr 5206 5216 [ ast.EIdent (ident 34 5206 "Inner"); tLit 5213 35 ] ].
Definition spec7 : ast.ValueSpec :=
  ast.mkValueSpec [ast.mkIdent None 5189 "_"] (Some (storeA 5191 5197 31 32)) [wrapLit].

(** [var z [len([1]store.A{T{}})]int] *)
Definition arrayLit : ast.Expr :=
  ast.ENode ast.CompositeLit 5230 5245
    [ ast.ENode ast.ArrayType 5230 5240
        [ ast.ENode (ast.BasicLit "1") 5231 5232 []; storeA 5233 5239 36 37 ];
      tLit 5241 38 ].
Definition lenCall : ast.Expr :=
  ast.ENode ast.CallExpr 5226 5246 [ ast.EIdent (ident 39 5226 "len"); arrayLit ].
Definition zType : ast.Expr :=
  ast.ENode ast.ArrayType 5225 5250 [ lenCall; ast.EIdent (ident 40 5247 "int") ].
Definition spec8 : ast.ValueSpec :=
  ast.mkValueSpec [ast.mkIdent None 5223 "z"] (Some zType) [].

(** [var _ Failer = T{}] and [var _ error = T{}] *)
Definition spec9 : ast.ValueSpec :=
  ast.mkValueSpec [ast.mkIdent None 5256 "_"] (Some (ast.EIdent (ident 41 5258 "Failer")))
    [tLit 5267 42].
Definition spec10 : ast.ValueSpec :=
  ast.mkValueSpec [ast.mkIdent None 5276 "_"] (Some (ast.EIdent (ident 43 5278 "error")))
    [tLit 5286 44].

(** [return T{}] in [g] and in [h], [return Flag{On: true}] in [k]. *)
Definition return11 : ast.ReturnStmt := ast.mkReturnStmt 5312 [ tLit 5319 45 ].
Definition return12 : ast.ReturnStmt := ast.mkReturnStmt 5344 [ tLit 5351 48 ].
Definition flagLit : ast.Expr :=
  ast.ENode ast.CompositeLit 5385 5399
    [ ast.EIdent (ident 50 5385 "Flag");
      ast.ENode ast.OtherExpr 5390 5398
        [ ast.EIdent (ident 51 5390 "On"); ast.EIdent (ident 52 5394 "true") ] ].
Definition return13 : ast.ReturnStmt := ast.mkReturnStmt 5378 [ flagLit ].

(** [var y = []store.A{T{}}]: no type. *)
Definition sliceLit : ast.Expr :=
  ast.ENode ast.CompositeLit 5411 5425
    [ ast.ENode ast.ArrayType 5411 5420 [ storeA 5413 5419 70 71 ]; tLit 5421 72 ].
Definition spec16 : ast.ValueSpec :=
  ast.mkValueSpec [ast.mkIdent None 5407 "y"] None [sliceLit].

(** [var _ = Wrap(T{})]: a conversion to a type that is no interface. *)
Definition wrapCall : ast.Expr :=
  ast.ENode ast.CallExpr 5435 5444 [ ast.EIdent (ident 73 5435 "Wrap"); tLit 5440 74 ].
Definition spec17 : ast.ValueSpec :=
  ast.mkValueSpec [ast.mkIdent None 5431 "_"] None [wrapCall].

(** [var _ Keeper = T{}] *)
Definition spec18 : ast.ValueSpec :=
  ast.mkValueSpec [ast.mkIdent None 5490 "_"] (Some (ast.EIdent (ident 75 5492 "Keeper")))
    [tLit 5501 76].

(** [(l Level)] of [Log(l Level)] in [lib.go]. *)
Definition levelId : ast.Ident := ident 61 6100 "Level".
Definition logSig : ast.Expr :=
  ast.ENode ast.FuncType 6097 6106
    [ ast.ENode ast.FieldList 6097 6106
        [ ast.ENode (ast.Field ["l"]) 6098 6105 [ ast.EIdent levelId ] ] ].

(** *** The type information *)

Definition libUses : gmap positive types.Object :=
  {[ 60%positive := types.mkObject "fmt" (Some libT) 6020 (types.PkgName fmtT) types.Invalid;
     61%positive := World.typeObject levelType ]}.

Definition storeName : types.Object :=
  types.mkObject "store" (Some casesT) 5022 (types.PkgName World.storeT) types.Invalid.
Definition libName : types.Object :=
  types.mkObject "lib" (Some casesT) 5049 (types.PkgName libT) types.Invalid.
Definition fieldOf (name : string) (pos : token.Pos) (t : types.Type_) : types.Object :=
  types.mkObject name (Some casesT) pos types.Var t.
Definition universe (name : string) (k : types.ObjKind) (t : types.Type_) : types.Object :=
  types.mkObject name None 0 k t.

Definition casesUses : gmap positive types.Object :=
  list_to_map
    [ (31%positive, storeName);
      (32%positive, World.typeObject World.aType);
      (33%positive, World.typeObject wrapType);
      (34%positive, fieldOf "Inner" 5103 tType);
      (35%positive, World.typeObject tType);
      (36%positive, storeName);
      (37%positive, World.typeObject World.aType);
      (38%positive, World.typeObject tType);
      (39%positive, universe "len" types.Builtin types.Invalid);
      (40%positive, universe "int" types.TypeName (types.Basic "int"));
      (41%positive, World.typeObject failerType);
      (42%positive, World.typeObject tType);
      (43%positive, World.typeObject World.errorType);
      (44%positive, World.typeObject tType);
      (45%positive, World.typeObject tType);
      (48%positive, World.typeObject tType);
      (50%positive, World.typeObject flagType);
      (51%positive, fieldOf "On" 5132 (types.Basic "bool"));
      (52%positive, universe "true" types.Const (types.Basic "untyped bool"));
      (70%positive, storeName);
      (71%positive, World.typeObject World.aType);
      (72%positive, World.typeObject tType);
      (73%positive, World.typeObject wrapType);
      (74%positive, World.typeObject tType);
      (75%positive, World.typeObject keeperType);
      (76%positive, World.typeObject tType);
      (77%positive, storeName);
      (78%positive, World.typeObject World.saverType) ].

(** *** The packages *)

Definition infoOf (p : Pkg) : types.Info :=
  match p with
  | Main => types.mkInfo casesUses
  | Aliases => types.mkInfo libUses
  | Lib p => World.infoOf p
  | _ => types.mkInfo ∅
  end.

Definition importOf (p : Pkg) (path : string) : result Pkg :=
  match p with
  | Main =>
      if String.eqb path "example.com/store" then Ok (Lib World.Store)
      else if String.eqb path "example.com/lib" then Ok Aliases
      else Err (errorString "no such import")
  | Aliases =>
      if String.eqb path "fmt" then Ok Fmt else Err (errorString "no such import")
  | Fmt | Tool | Keys => Err (errorString "no such import")
  | Lib p =>
      match World.importOf p path with
      | Ok q => Ok (Lib q)
      | Err e => Err e
      | Panic msg => Panic msg
      end
  end.

#[global] Instance casesPackage : Package Pkg := {|
  PkgPath p := types.Path (typesOf p);
  PkgName p := types.Name (typesOf p);
  GetTypesInfo := infoOf;
  GetImport := importOf |}.

(** The import graph, and the package clause of the first file of each
    package. *)
#[global] Instance casesGraph : known.PackageGraph Pkg := {|
  known.Imports p :=
    match p with
    | Main => [Lib World.Store; Aliases]
    | Aliases => [Fmt]
    | Lib World.Store => [Lib World.Models; Lib World.Time]
    | Lib World.App => [Lib World.Store; Lib World.Models; Lib World.Time]
    | _ => []
    end;
  known.CompiledGoFiles p := [Some (Some (types.Name (typesOf p)))] |}.

(** [snapshot.KnownPackages]: [fmt] is known in two versions. *)
Definition knownPackages : list Pkg :=
  [ Main; Tool; Aliases; Fmt; Lib World.Store; Lib World.Models; Lib World.App;
    Lib World.Time; Keys; Fmt ].

(** [imp.Path.Value]: the path between double quotes. *)
Definition literal (imp : ast.ImportSpec) : string := quote +:+ ast.ImpPath imp +:+ quote.

(** A sort by insertion, for [sort.Slice]. *)
Fixpoint insertSorted (less : string → string → bool) (x : string) (l : list string)
    : list string :=
  match l with
  | [] => [x]
  | y :: l' => if less x y then x :: l else y :: insertSorted less x l'
  end.
Definition sortSlice (less : string → string → bool) (l : list string) : list string :=
  foldr (insertSorted less) [] l.

(** A concrete type of [cases.go], as [MethodStubActions] builds it. *)
Definition ct : concreteType := mkConcreteType casesT (Some casesFile) ∅ ∅ [].

(** A file of package [cases] that imports [example.com/models] twice,
    plainly and then under the name [m], and a concrete type of it. *)
Definition twiceFile : ast.File :=
  ast.mkFile "twice.go" "cases"
    [ ast.mkImportSpec None "example.com/models";
      ast.mkImportSpec (Some (ast.mkIdent None 8050 "m")) "example.com/models" ]
    (World.lines [ "type U struct {";
                   tab +:+ "Repo models.Repo";
                   tab +:+ "User m.User";
                   "}" ]).
Definition ctTwice : concreteType := mkConcreteType casesT (Some twiceFile) ∅ ∅ [].

(** *** The snapshot *)

Definition fileBase (name : string) : Z :=
  if String.eqb name "cases.go" then 5000
  else if String.eqb name "lib.go" then 6000
  else World.fileBase name.

Definition positionFilename (pos : token.Pos) : string :=
  if bool_decide (pos < 5000) then World.positionFilename pos
  else if bool_decide (pos < 6000) then "cases.go"
  else if bool_decide (pos < 7000) then "lib.go"
  else "print.go".

Definition positionOffset (pos : token.Pos) : nat :=
  Z.to_nat (pos - fileBase (positionFilename pos)).

Definition parsedFile (fh : VersionedFileHandle) : result (Pkg * ParsedGoFile) :=
  let uri := fhURI fh in
  if String.eqb uri "cases.go" then Ok (Main, mkPGF uri (Some casesFile))
  else if String.eqb uri "lib.go" then Ok (Aliases, mkPGF uri (Some libFile))
  else match World.parsedFile fh with
       | Ok (p, pgf) => Ok (Lib p, pgf)
       | Err e => Err e
       | Panic msg => Panic msg
       end.

Definition positionOf (pgf : ParsedGoFile) (p : protocol.Position) : result token.Pos :=
  f ← deref (File pgf);
  Ok (fileBase (pgfURI pgf)
      + Z.of_nat (World.lineStart (World.printFile f) (Z.to_nat (protocol.Line p)))
      + protocol.Character p).

Definition rangeSpan (pgf : ParsedGoFile) (r : protocol.Range)
    : result (token.Pos * token.Pos) :=
  s ← positionOf pgf (protocol.Start r);
  e ← positionOf pgf (protocol.End r);
  Ok (s, e).

(** *** The paths of [astutil.PathEnclosingInterval] *)

Definition fileNode : ast.Node := ast.NOther "File" 5000 5505.

Definition valuePath (inner : list ast.Node) (vs : ast.ValueSpec) (end_ : token.Pos)
    : list ast.Node :=
  inner ++ [ ast.NValueSpec vs;
             ast.NOther "GenDecl" (ast.Pos (ast.EIdent (default (ast.mkIdent None 0 "")
                                                          (head (ast.Names vs)))) - 4) end_;
             fileNode ].

Definition returnPath (lit : ast.Expr) (rs : ast.ReturnStmt) (body func end_ : token.Pos)
    : list ast.Node :=
  [ ast.NExpr lit; ast.NReturnStmt rs; ast.NOther "BlockStmt" body end_;
    ast.NOther "FuncDecl" func end_; fileNode ].

Definition pathEnclosingInterval (f : ast.File) (start end_ : token.Pos) : list ast.Node :=
  if negb (String.eqb (ast.FileName f) "cases.go")
  then World.pathEnclosingInterval f start end_ else
  match start with
  | 5073 => [ ast.NExpr (ast.EIdent (ast.mkIdent None 5073 "T"));
              ast.NOther "TypeSpec" 5073 5083; ast.NOther "GenDecl" 5068 5083; fileNode ]
  | 5201 => valuePath [ast.NExpr wrapLit] spec7 5217
  | 5241 => valuePath [ ast.NExpr (tLit 5241 38); ast.NExpr arrayLit; ast.NExpr lenCall;
                        ast.NExpr zType ] spec8 5250
  | 5267 => valuePath [ast.NExpr (tLit 5267 42)] spec9 5270
  | 5286 => valuePath [ast.NExpr (tLit 5286 44)] spec10 5289
  | 5319 => returnPath (tLit 5319 45) return11 5309 5291 5324
  | 5351 => returnPath (tLit 5351 48) return12 5341 5326 5356
  | 5385 => returnPath flagLit return13 5375 5358 5401
  | 5421 => valuePath [ast.NExpr (tLit 5421 72); ast.NExpr sliceLit] spec16 5425
  | 5440 => valuePath [ast.NExpr (tLit 5440 74); ast.NExpr wrapCall] spec17 5444
  | 5501 => valuePath [ast.NExpr (tLit 5501 76)] spec18 5504
  | _ => [fileNode]
  end.

(** [EnclosingFunction]: the results of [g], of [h] and of [k]. *)
Definition isFuncDecl (n : ast.Node) : bool :=
  match n with
  | ast.NOther what _ _ => String.eqb what "FuncDecl"
  | _ => false
  end.

Definition enclosingFunction (path : list ast.Node) (info : types.Info) : option FuncInfo :=
  match find isFuncDecl path with
  | Some (ast.NOther _ 5291 _) => Some (mkFuncInfo [stringerType])
  | Some (ast.NOther _ 5326 _) => Some (mkFuncInfo [World.errorType])
  | Some (ast.NOther _ 5358 _) => Some (mkFuncInfo [World.aType])
  | _ => None
  end.

Definition env : Env Pkg := {|
  Identical := World.identical;
  NewMethodSet := World.newMethodSet;
  PositionFilename := positionFilename;
  PositionOffset := positionOffset;
  FindFile uri := mkFH uri 1;
  GetParsedFile fh _ := parsedFile fh;
  RangeSpan := rangeSpan;
  SpanRange _ spn := Ok spn;
  PathEnclosingInterval := pathEnclosingInterval;
  AddNamedImport := World.addNamedImport;
  formatNode n := Ok (World.printExpr n);
  formatFile f := Ok (World.printFile f);
  ParseFile := World.parseFile;
  EnclosingFunction := enclosingFunction;
  copyAST n := n;
  computeTextEdits := World.wholeFileEdit |}.

(** *** The diagnostics *)

Definition fh : VersionedFileHandle := mkFH "cases.go" 1.

Definition d7 : protocol.Diagnostic :=
  World.diagnosticAt 16 16 32
    "cannot use Wrap{...} (value of type Wrap) as store.A value in variable declaration: missing method F".
Definition d8 : protocol.Diagnostic :=
  World.diagnosticAt 18 22 25
    "cannot use T{} (value of type T) as store.A value in array or slice literal: missing method F".
Definition d9 : protocol.Diagnostic :=
  World.diagnosticAt 20 15 18
    "cannot use T{} (value of type T) as Failer value in variable declaration: missing method Error".
Definition d10 : protocol.Diagnostic :=
  World.diagnosticAt 22 14 17
    "cannot use T{} (value of type T) as error value in variable declaration: missing method Error".
Definition d11 : protocol.Diagnostic :=
  World.diagnosticAt 25 8 11
    "cannot use T{} (value of type T) as lib.Text value in return statement: missing method String".
Definition d12 : protocol.Diagnostic :=
  World.diagnosticAt 29 8 11
    "cannot use T{} (value of type T) as error value in return statement: missing method Error".
Definition d13 : protocol.Diagnostic :=
  World.diagnosticAt 33 8 22
    "cannot use Flag{...} (value of type Flag) as store.A value in return statement: missing method F".

Definition d16 : protocol.Diagnostic :=
  World.diagnosticAt 36 18 21
    "cannot use T{} (value of type T) as store.A value in array or slice literal: missing method F".
Definition d17 : protocol.Diagnostic :=
  World.diagnosticAt 38 13 16 "cannot convert T{} (value of type T) to type Wrap".
Definition d18 : protocol.Diagnostic :=
  World.diagnosticAt 44 15 18
    "cannot use T{} (value of type T) as Keeper value in variable declaration: missing method Save".

(** Two diagnostics that are not of a missing method: one of the compiler
    about something else, one of another source that quotes the words. *)
Definition d14 : protocol.Diagnostic :=
  World.diagnosticAt 18 4 5 "z declared but not used".
Definition d15 : protocol.Diagnostic :=
  protocol.mkDiagnostic
    (protocol.mkRange (protocol.mkPosition 20 15) (protocol.mkPosition 20 18))
    "go vet" "T does not implement Failer: missing method Fail".

End Cases.

(** * Properties *)

(** ** Results *)

Lemma bind_Ok {A B : Type} (r : result A) (k : A → result B) (b : B) :
  (r ≫= k) = Ok b ↔ ∃ a, r = Ok a ∧ k a = Ok b.
Proof.
  destruct r as [a|e|m]; simpl; split.
  - intros Hk. exists a. split; [reflexivity | exact Hk].
  - intros (a' & Ha & Hk). injection Ha as <-. exact Hk.
  - discriminate.
  - intros (a' & Ha & _). discriminate.
  - discriminate.
  - intros (a' & Ha & _). discriminate.
Qed.

Lemma wrap_Ok {A : Type} (msg : string) (r : result A) (a : A) :
  wrap msg r = Ok a ↔ r = Ok a.
Proof. destruct r; simpl; split; congruence. Qed.

Lemma deref_Ok {A : Type} (p : option A) (a : A) : deref p = Ok a ↔ p = Some a.
Proof. destruct p; simpl; split; congruence. Qed.

(** Splits a hypothesis [(x ← r; k) = Ok b] into [r = Ok a] and [k a = Ok b]. *)
Ltac bind_inv H :=
  let a := fresh "a" in
  let Ha := fresh "Hstep" in
  apply bind_Ok in H; destruct H as (a & Ha & H);
  try (apply wrap_Ok in Ha); try (apply deref_Ok in Ha).

(** ** The added imports *)

Lemma sameImport_spec (name path : string) (imp : addedImport) :
  sameImport name path imp = true ↔ imp = mkAddedImport name path.
Proof.
  unfold sameImport. destruct imp as [n p]; simpl.
  rewrite andb_true_iff, !String.eqb_eq. split.
  - intros [-> ->]. reflexivity.
  - intros [= -> ->]. split; reflexivity.
Qed.

Lemma existsb_sameImport (name path : string) (l : list addedImport) :
  existsb (sameImport name path) l = true ↔ mkAddedImport name path ∈ l.
Proof.
  rewrite existsb_exists. split.
  - intros (imp & Hin & Hs). apply sameImport_spec in Hs. subst imp.
    apply list_elem_of_In. exact Hin.
  - intros Hin. exists (mkAddedImport name path). split.
    + apply list_elem_of_In. exact Hin.
    + apply sameImport_spec. reflexivity.
Qed.

Lemma addImport_present (ct : concreteType) (name path : string) :
  mkAddedImport name path ∈ addedImports ct → addImport ct name path = ct.
Proof.
  intros Hin. unfold addImport.
  apply existsb_sameImport in Hin. rewrite Hin. reflexivity.
Qed.

Lemma addImport_elem (ct : concreteType) (name path : string) :
  mkAddedImport name path ∈ addedImports (addImport ct name path).
Proof.
  unfold addImport. destruct (existsb _ _) eqn:E.
  - apply existsb_sameImport. exact E.
  - simpl. apply elem_of_app. right. apply list_elem_of_singleton. reflexivity.
Qed.

Lemma addImport_mono (ct : concreteType) (name path : string) (imp : addedImport) :
  imp ∈ addedImports ct → imp ∈ addedImports (addImport ct name path).
Proof.
  intros Hin. unfold addImport. destruct (existsb _ _); [exact Hin |].
  simpl. apply elem_of_app. left. exact Hin.
Qed.

Lemma addImport_new (ct : concreteType) (name path : string) (imp : addedImport) :
  imp ∈ addedImports (addImport ct name path) →
  imp ∈ addedImports ct ∨ imp = mkAddedImport name path.
Proof.
  unfold addImport. destruct (existsb _ _); [left; assumption |].
  simpl. rewrite elem_of_app, list_elem_of_singleton. tauto.
Qed.

Lemma addImport_NoDup (ct : concreteType) (name path : string) :
  NoDup (addedImports ct) → NoDup (addedImports (addImport ct name path)).
Proof.
  intros Hnd. unfold addImport. destruct (existsb _ _) eqn:E; [exact Hnd |].
  simpl. apply NoDup_app. split; [exact Hnd |]. split.
  - intros imp Hin Hs. apply list_elem_of_singleton in Hs. subst imp.
    apply existsb_sameImport in Hin. congruence.
  - apply NoDup_singleton.
Qed.

Lemma addImport_frame (ct : concreteType) (name path : string) :
  pkg (addImport ct name path) = pkg ct ∧ file (addImport ct name path) = file ct
  ∧ tms (addImport ct name path) = tms ct ∧ pms (addImport ct name path) = pms ct.
Proof. unfold addImport. destruct (existsb _ _); simpl; auto. Qed.

(** ** The rewriter *)

Lemma Expr_nested_ind (Q : ast.Expr → Prop) :
  (∀ x, Q (ast.EIdent x)) →
  (∀ X Sel, Q X → Q (ast.ESelector X Sel)) →
  (∀ k p e kids, Forall Q kids → Q (ast.ENode k p e kids)) →
  ∀ n, Q n.
Proof.
  intros Hid Hsel Hnode. fix IH 1. intros [x | X Sel | k p e kids].
  - apply Hid.
  - apply Hsel, IH.
  - apply Hnode. induction kids as [| c kids IHk]; constructor.
    + apply IH.
    + exact IHk.
Qed.

Lemma extends_refl (ct : concreteType) : extends ct ct.
Proof. unfold extends. repeat split; auto. Qed.

Lemma firstImport_file (ct ct' : concreteType) (path : string) :
  file ct' = file ct → firstImport ct' path = firstImport ct path.
Proof. unfold firstImport. intros ->. reflexivity. Qed.

Lemma extends_trans (ct1 ct2 ct3 : concreteType) :
  extends ct1 ct2 → extends ct2 ct3 → extends ct1 ct3.
Proof.
  intros (Hp & Hf & Ht & Hm & Hin & Hnd & Hnew) (Hp' & Hf' & Ht' & Hm' & Hin' & Hnd' & Hnew').
  unfold extends. repeat split; try congruence; auto.
  intros imp Himp. destruct (Hnew' imp Himp) as [H2 | H2].
  - apply Hnew. exact H2.
  - right. rewrite <- (firstImport_file ct1 ct2) by exact Hf. exact H2.
Qed.

Lemma extends_addImport (ct : concreteType) (name path : string) :
  firstImport ct path = Ok None → extends ct (addImport ct name path).
Proof.
  intros Hno. destruct (addImport_frame ct name path) as (Hp & Hf & Ht & Hm).
  unfold extends. repeat split; auto.
  - intros imp. apply addImport_mono.
  - apply addImport_NoDup.
  - intros imp Himp. apply addImport_new in Himp as [Himp | ->]; [left; exact Himp |].
    right. exact Hno.
Qed.

Section RewriterFacts.
Context {P : Type} `{Package P}.

Lemma mightRemoveSelector_false X Sel (ifacePkg : option P) implPath b n :
  mightRemoveSelector X Sel ifacePkg implPath = Ok (b, n) → b = false.
Proof.
  unfold mightRemoveSelector. intros Hr. bind_inv Hr.
  destruct (UsesAt _ Sel) as [obj|]; [| congruence].
  destruct (types.Pkg obj) as [objPkg|]; [| congruence].
  destruct (String.eqb _ _); congruence.
Qed.

Lemma mightRenameSelector_extends X Sel (ifacePkg : option P) ct b X' ct' :
  mightRenameSelector X Sel ifacePkg ct = Ok (b, X', ct') → b = false ∧ extends ct ct'.
Proof.
  unfold mightRenameSelector. intros Hr.
  destruct X as [ident | |]; try (injection Hr as <- <- <-; split; [reflexivity | apply extends_refl]).
  bind_inv Hr.
  destruct (UsesAt _ ident) as [obj|];
    [| injection Hr as <- <- <-; split; [reflexivity | apply extends_refl]].
  destruct (types.Kind obj) as [imported | | | | |];
    try (injection Hr as <- <- <-; split; [reflexivity | apply extends_refl]).
  bind_inv Hr. destruct a0 as [imp|].
  - injection Hr as <- <- <-. split; [reflexivity | apply extends_refl].
  - destruct (String.eqb _ _).
    + injection Hr as <- <- <-. split; [reflexivity | apply extends_refl].
    + injection Hr as <- <- <-. split; [reflexivity |].
      apply extends_addImport. exact Hstep0.
Qed.

Lemma mightRenameSelector_false X Sel (ifacePkg : option P) ct b X' ct' :
  mightRenameSelector X Sel ifacePkg ct = Ok (b, X', ct') → b = false.
Proof. intros Hr. apply mightRenameSelector_extends in Hr. tauto. Qed.

Lemma mightAddSelector_extends ident (ifacePkg : option P) ct b n ct' :
  mightAddSelector ident ifacePkg ct = Ok (b, n, ct') → b = false ∧ extends ct ct'.
Proof.
  unfold mightAddSelector. intros Hr. bind_inv Hr.
  destruct (UsesAt _ ident) as [obj|];
    [| injection Hr as <- <- <-; split; [reflexivity | apply extends_refl]].
  destruct (types.ObjType obj) as [| | n0 [npkg|] npos u | | | | |];
    try (injection Hr as <- <- <-; split; [reflexivity | apply extends_refl]).
  bind_inv Hr.
  assert (Hext : extends ct
            (if bool_decide (a0 = None)
                && negb (String.eqb (types.Path npkg) (types.Path (pkg ct)))
             then addImport ct "" (types.Path npkg) else ct)).
  { destruct (bool_decide (a0 = None)) eqn:E; simpl; [| apply extends_refl].
    apply bool_decide_eq_true in E. subst a0.
    destruct (negb _); [| apply extends_refl].
    apply extends_addImport. exact Hstep0. }
  destruct (_ || _); injection Hr as <- <- <-; split; auto.
Qed.

Lemma mightAddSelector_false ident (ifacePkg : option P) ct b n ct' :
  mightAddSelector ident ifacePkg ct = Ok (b, n, ct') → b = false.
Proof. intros Hr. apply mightAddSelector_extends in Hr. tauto. Qed.

Lemma applyRewrite_node (miPkg irPkg : option P) k p e kids ct :
  applyRewrite miPkg irPkg (ast.ENode k p e kids) ct
  = ('(kids', ct') ← applyRewriteList miPkg irPkg kids ct;
     Ok (ast.ENode k p e kids', ct')).
Proof.
  simpl. f_equal. clear k p e. revert ct.
  induction kids as [| c kids IH]; intros ct; simpl; [reflexivity |].
  destruct (applyRewrite miPkg irPkg c ct) as [[c' ct1] | |]; simpl; try reflexivity.
  rewrite IH. reflexivity.
Qed.

End RewriterFacts.

Section WalkFacts.
Context {P : Type} `{Package P}.

Lemma applyRewriteList_extends_of (miPkg irPkg : option P) (l : list ast.Expr) :
  Forall (λ n, ∀ ct n' ct',
            applyRewrite miPkg irPkg n ct = Ok (n', ct') → extends ct ct') l →
  ∀ ct l' ct', applyRewriteList miPkg irPkg l ct = Ok (l', ct') → extends ct ct'.
Proof.
  induction 1 as [| c l Hc _ IH]; intros ct l' ct' Hr; simpl in Hr.
  - injection Hr as <- <-. apply extends_refl.
  - bind_inv Hr. destruct a as [c' ct1]. bind_inv Hr. destruct a as [l'' ct2].
    injection Hr as <- <-.
    eapply extends_trans; [eapply Hc; eassumption | eapply IH; eassumption].
Qed.

Lemma applyRewrite_extends (miPkg irPkg : option P) (n : ast.Expr) :
  ∀ ct n' ct', applyRewrite miPkg irPkg n ct = Ok (n', ct') → extends ct ct'.
Proof.
  induction n as [ident | X Sel _ | k p e kids IH] using Expr_nested_ind;
    intros ct n' ct' Hr.
  - simpl in Hr. bind_inv Hr. destruct a as [[b n1] ct1]. injection Hr as <- <-.
    apply mightAddSelector_extends in Hstep. tauto.
  - simpl in Hr. bind_inv Hr. destruct a as [[b X'] ct1]. bind_inv Hr.
    destruct a as [b' n1]. injection Hr as <- <-.
    apply mightRenameSelector_extends in Hstep. tauto.
  - rewrite applyRewrite_node in Hr. bind_inv Hr. destruct a as [kids' ct1].
    injection Hr as <- <-.
    eapply applyRewriteList_extends_of; eassumption.
Qed.

Lemma applyRewriteList_extends (miPkg irPkg : option P) (l : list ast.Expr) :
  ∀ ct l' ct', applyRewriteList miPkg irPkg l ct = Ok (l', ct') → extends ct ct'.
Proof.
  apply applyRewriteList_extends_of, Forall_forall.
  intros n _. apply applyRewrite_extends.
Qed.

(** The walk of a list of children walks each of them, on the concrete type
    as the children before it have left it. *)
Lemma applyRewriteList_lookup (miPkg irPkg : option P) (l : list ast.Expr) :
  ∀ ct l' ct' i c,
    applyRewriteList miPkg irPkg l ct = Ok (l', ct') → l !! i = Some c →
    ∃ ct1 c' ct2, extends ct ct1 ∧ extends ct2 ct'
      ∧ applyRewrite miPkg irPkg c ct1 = Ok (c', ct2) ∧ l' !! i = Some c'.
Proof.
  induction l as [| c0 l IH]; intros ct l' ct' i c Hr Hi; [destruct i; discriminate |].
  simpl in Hr. bind_inv Hr. destruct a as [c0' ct1]. bind_inv Hr. destruct a as [l'' ct2].
  injection Hr as <- <-. destruct i as [| i]; simpl in Hi.
  - injection Hi as <-. exists ct, c0', ct1. refine (conj _ (conj _ (conj _ _))).
    + apply extends_refl.
    + eapply applyRewriteList_extends; eassumption.
    + exact Hstep.
    + reflexivity.
  - destruct (IH _ _ _ _ _ Hstep0 Hi) as (cta & c' & ctb & Ha & Hb & Hw & Hl).
    exists cta, c', ctb. refine (conj _ (conj Hb (conj Hw Hl))).
    eapply extends_trans; [eapply applyRewrite_extends; eassumption | exact Ha].
Qed.

(** With packages that are not nil and a syntax tree for the concrete file,
    the walk ends without a panic. *)
Lemma applyRewrite_total (mp ip : P) (n : ast.Expr) :
  ∀ ct, is_Some (file ct) → ∃ n' ct', applyRewrite (Some mp) (Some ip) n ct = Ok (n', ct').
Proof.
  induction n as [ident | X Sel _ | k p e kids IH] using Expr_nested_ind;
    intros ct [f Hf].
  - simpl. unfold mightAddSelector, firstImport. rewrite Hf. simpl.
    destruct (UsesAt _ ident) as [obj|]; simpl; [| eauto].
    destruct (types.ObjType obj) as [| | n0 [npkg|] npos u | | | | |]; simpl; eauto.
    destruct (_ || _); simpl; eauto.
  - simpl. unfold mightRenameSelector, mightRemoveSelector, firstImport. rewrite Hf.
    assert (Hrm : ∀ X' ct1, ∃ n' ct',
              ('(_, n') ← (ifacePkg ← deref (Some mp);
                 match UsesAt (GetTypesInfo ifacePkg) Sel with
                 | Some obj =>
                     match types.Pkg obj with
                     | Some objPkg =>
                         if String.eqb (types.Path objPkg) (types.Path (pkg ct1))
                         then Ok (false, ast.EIdent Sel)
                         else Ok (false, ast.ESelector X' Sel)
                     | None => Ok (false, ast.ESelector X' Sel)
                     end
                 | None => Ok (false, ast.ESelector X' Sel)
                 end); Ok (n', ct1)) = Ok (n', ct')).
    { intros X' ct1. simpl. destruct (UsesAt _ Sel) as [obj|]; simpl; eauto.
      destruct (types.Pkg obj); simpl; eauto. destruct (String.eqb _ _); simpl; eauto. }
    destruct X as [ident | |]; simpl; try apply Hrm.
    destruct (UsesAt _ ident) as [obj|]; simpl; try apply Hrm.
    destruct (types.Kind obj); simpl; try apply Hrm.
    destruct (find _ _); simpl; try apply Hrm.
    destruct (String.eqb _ _); simpl; apply Hrm.
  - rewrite applyRewrite_node.
    assert (Hl : ∀ ct, is_Some (file ct) →
              ∃ l' ct', applyRewriteList (Some mp) (Some ip) kids ct = Ok (l', ct')).
    { clear Hf f ct. induction IH as [| c l Hc _ IHl]; intros ct Hf; simpl; [eauto |].
      destruct (Hc ct Hf) as (c' & ct1 & Hc1). rewrite Hc1. simpl.
      destruct (IHl ct1) as (l' & ct2 & Hl2).
      { apply applyRewrite_extends in Hc1. destruct Hc1 as (_ & Hfile & _).
        rewrite Hfile. exact Hf. }
      rewrite Hl2. simpl. eauto. }
    destruct (Hl ct (ex_intro _ f Hf)) as (l' & ct' & Hl'). rewrite Hl'. simpl. eauto.
Qed.

End WalkFacts.

Section Positions.
Context {P : Type} `{Package P}.

(** The walk of a tree walks the node at each of its positions, and leaves
    the result at the same position. *)
Lemma applyRewrite_at (miPkg irPkg : option P) (path : list nat) :
  ∀ n ct n' ct' m,
    applyRewrite miPkg irPkg n ct = Ok (n', ct') → subAt path n = Some m →
    ∃ ct1 m' ct2, extends ct ct1 ∧ extends ct2 ct'
      ∧ applyRewrite miPkg irPkg m ct1 = Ok (m', ct2) ∧ subAt path n' = Some m'.
Proof.
  induction path as [| i path IH]; intros n ct n' ct' m Hr Hm; simpl in Hm.
  - injection Hm as <-. exists ct, n', ct'.
    refine (conj _ (conj _ (conj Hr _))); [apply extends_refl .. | reflexivity].
  - destruct n as [| | k p e kids]; try discriminate.
    destruct (kids !! i) as [c|] eqn:Hc; [| discriminate]. simpl in Hm.
    rewrite applyRewrite_node in Hr. bind_inv Hr. destruct a as [kids' cta].
    injection Hr as <- <-.
    destruct (applyRewriteList_lookup _ _ _ _ _ _ _ _ Hstep Hc)
      as (ct1 & c' & ct2 & H1 & H2 & Hw & Hl).
    destruct (IH _ _ _ _ _ Hw Hm) as (ct3 & m' & ct4 & H3 & H4 & Hw' & Hs).
    exists ct3, m', ct4. refine (conj _ (conj _ (conj Hw' _))).
    + eapply extends_trans; eassumption.
    + eapply extends_trans; eassumption.
    + simpl. rewrite Hl. exact Hs.
Qed.

(** C1 (self-unqualification).  Let the walk rewrite a signature [n] for a
    concrete type of package [pkg ct], with the type information of package
    [mp].  If the node at a position of [n] is a selector [X.Sel] whose
    member [Sel] resolves to an object owned by the package of the concrete
    type, the walk succeeds and the rewritten signature holds the bare
    identifier [Sel] at that position. *)
Theorem selector_of_own_package_is_stripped (mp ip : P) (n : ast.Expr)
    (ct : concreteType) (path : list nat) (X : ast.Expr) (Sel : ast.Ident)
    (obj : types.Object) (objPkg : types.Package) :
  is_Some (file ct) →
  subAt path n = Some (ast.ESelector X Sel) →
  UsesAt (GetTypesInfo mp) Sel = Some obj →
  types.Pkg obj = Some objPkg →
  types.Path objPkg = types.Path (pkg ct) →
  ∃ n' ct', applyRewrite (Some mp) (Some ip) n ct = Ok (n', ct')
            ∧ subAt path n' = Some (ast.EIdent Sel).
Proof.
  intros Hfile Hsub Huses Hpkg Hpath.
  destruct (applyRewrite_total mp ip n ct Hfile) as (n' & ct' & Hr).
  exists n', ct'. split; [exact Hr |].
  destruct (applyRewrite_at _ _ _ _ _ _ _ _ Hr Hsub)
    as (ct1 & m' & ct2 & H1 & _ & Hw & Hs).
  rewrite Hs. f_equal. simpl in Hw. bind_inv Hw. destruct a as [[b X'] ct3].
  bind_inv Hw. destruct a as [b' n1]. injection Hw as <- <-.
  apply mightRenameSelector_extends in Hstep. destruct Hstep as (_ & Hp3 & _).
  destruct H1 as (Hp1 & _).
  unfold mightRemoveSelector in Hstep0. simpl in Hstep0.
  rewrite Huses, Hpkg, Hp3, Hp1, Hpath, String.eqb_refl in Hstep0.
  congruence.
Qed.

End Positions.

Lemma selector_of_own_package_is_stripped_witness :
  subAt [0; 0; 0; 0] World.saveSig
    = Some (ast.ESelector (ast.EIdent World.modelsId) World.userId)
  ∧ ∃ n' ct',
      applyRewrite (Some World.Store) (Some World.Store) World.saveSig World.ctModels
        = Ok (n', ct')
      ∧ subAt [0; 0; 0; 0] n' = Some (ast.EIdent World.userId).
Proof.
  split; [reflexivity |].
  apply (selector_of_own_package_is_stripped World.Store World.Store World.saveSig
           World.ctModels [0; 0; 0; 0] (ast.EIdent World.modelsId) World.userId
           (World.typeObject World.userType) World.modelsT).
  - exists World.userFile. reflexivity.
  - reflexivity.
  - reflexivity.
  - reflexivity.
  - reflexivity.
Defined.

Lemma find_first {A : Type} (p : A → bool) (before after : list A) (x : A) :
  (∀ y, y ∈ before → p y = false) → p x = true →
  find p (before ++ x :: after) = Some x.
Proof.
  intros Hbefore Hx. induction before as [| y before IH]; simpl.
  - rewrite Hx. reflexivity.
  - rewrite (Hbefore y) by (left). apply IH. intros z Hz. apply Hbefore. right. exact Hz.
Qed.

Section Renaming.
Context {P : Type} `{Package P}.

(** C2, as the code has it (alias honouring).  Let the node at a position
    of the signature [n] be a selector [Q.N] where [Q] names the imported
    package [imported], the owner of [N], a package that is not the package
    of the concrete type, and let [imp] be the first import of that package
    in the file of the concrete type that is neither blank nor a dot
    import.  Then the walk succeeds, the rewritten signature spells the
    reference with the name of [imp] at that position, its alias [A] when
    it has one and the name of the package when it has none, whatever the
    imports after [imp] are, and the walk queues no import of that
    package. *)
Theorem selector_uses_first_usable_import (mp ip : P) (n : ast.Expr)
    (ct : concreteType) (f : ast.File) (path : list nat) (Q N : ast.Ident)
    (objQ objN : types.Object) (imported : types.Package)
    (before after : list ast.ImportSpec) (imp : ast.ImportSpec) :
  file ct = Some f →
  subAt path n = Some (ast.ESelector (ast.EIdent Q) N) →
  UsesAt (GetTypesInfo mp) Q = Some objQ →
  types.Kind objQ = types.PkgName imported →
  UsesAt (GetTypesInfo mp) N = Some objN →
  types.Pkg objN = Some imported →
  types.Path imported ≠ types.Path (pkg ct) →
  ast.Imports f = before ++ imp :: after →
  (∀ i, i ∈ before → importsPath (types.Path imported) i = false) →
  importsPath (types.Path imported) imp = true →
  ∃ n' ct',
    applyRewrite (Some mp) (Some ip) n ct = Ok (n', ct')
    ∧ subAt path n'
      = Some (ast.ESelector
                (ast.EIdent
                   (ast.mkIdent None (ast.NamePos Q)
                      (match ast.ImpName imp with
                       | Some A => ast.Name A
                       | None => types.Name imported
                       end)))
                N)
    ∧ ∀ imp', imp' ∈ addedImports ct' → Path imp' = types.Path imported →
              imp' ∈ addedImports ct.
Proof.
  intros Hfile Hsub HQ Hkind HN Hown Hne Himports Hbefore Hok.
  assert (Hfind : find (importsPath (types.Path imported)) (ast.Imports f) = Some imp)
    by (rewrite Himports; exact (find_first _ before after imp Hbefore Hok)).
  destruct (applyRewrite_total mp ip n ct (ex_intro _ f Hfile)) as (n' & ct' & Hr).
  exists n', ct'. split; [exact Hr |]. split.
  - destruct (applyRewrite_at _ _ _ _ _ _ _ _ Hr Hsub)
      as (ct1 & m' & ct2 & H1 & _ & Hw & Hs).
    rewrite Hs. f_equal. destruct H1 as (Hp1 & Hf1 & _).
    simpl in Hw. unfold mightRenameSelector, mightRemoveSelector, firstImport in Hw.
    simpl in Hw. rewrite HQ, Hkind, Hf1, Hfile in Hw. simpl in Hw.
    rewrite Hfind in Hw. apply String.eqb_neq in Hne.
    destruct (ast.ImpName imp) as [A |]; simpl in Hw; rewrite HN, Hown, Hp1 in Hw;
      rewrite Hne in Hw; simpl in Hw; injection Hw as <- <-; [| reflexivity].
    destruct (String.eqb (ast.Name A) (types.Name imported)) eqn:E; simpl.
    + apply String.eqb_eq in E. rewrite E. reflexivity.
    + reflexivity.
  - intros imp' Himp' Hpath.
    apply applyRewrite_extends in Hr. destruct Hr as (_ & _ & _ & _ & _ & _ & Hnew).
    destruct (Hnew imp' Himp') as [Hold | Hnone]; [exact Hold |].
    unfold firstImport in Hnone. rewrite Hfile, Hpath in Hnone. simpl in Hnone.
    congruence.
Qed.

(** The expansion of a dot import, where the package of the requested
    interface knows the identifier (the method is declared in a file of
    that package).  Let the node at a position of the
    signature [n] be a bare identifier [N] that resolves, in the package
    [ip] of the requested interface, to an object whose type is a named
    type of a package that is neither [ip] nor the package of the concrete
    type.  Then the walk succeeds, the rewritten signature holds the
    selector [alias.N] at that position, where [alias] is the local name of
    that package in the file of the concrete type, and when that file has
    no usable import of the package the import is queued with no required
    name. *)
Theorem identifier_of_dot_import_is_qualified (mp ip : P) (n : ast.Expr)
    (ct : concreteType) (f : ast.File) (path : list nat) (N : ast.Ident)
    (obj : types.Object) (name : string) (npkg : types.Package)
    (npos : token.Pos) (u : types.Type_) :
  file ct = Some f →
  subAt path n = Some (ast.EIdent N) →
  UsesAt (GetTypesInfo ip) N = Some obj →
  types.ObjType obj = types.Named name (Some npkg) npos u →
  types.Path npkg ≠ PkgPath ip →
  types.Path npkg ≠ types.Path (pkg ct) →
  ∃ n' ct',
    applyRewrite (Some mp) (Some ip) n ct = Ok (n', ct')
    ∧ subAt path n'
      = Some (ast.ESelector (ast.EIdent (ast.mkIdent None 0%Z (localAlias f npkg))) N)
    ∧ ((∀ imp, imp ∈ ast.Imports f → importsPath (types.Path npkg) imp = false) →
       mkAddedImport "" (types.Path npkg) ∈ addedImports ct').
Proof.
  intros Hfile Hsub HN Htype Hni Hnt.
  destruct (applyRewrite_total mp ip n ct (ex_intro _ f Hfile)) as (n' & ct' & Hr).
  exists n', ct'. split; [exact Hr |].
  destruct (applyRewrite_at _ _ _ _ _ _ _ _ Hr Hsub)
    as (ct1 & m' & ct2 & H1 & H2 & Hw & Hs).
  destruct H1 as (Hp1 & Hf1 & _).
  simpl in Hw. unfold mightAddSelector, firstImport in Hw. simpl in Hw.
  rewrite HN, Htype, Hf1, Hfile, Hp1 in Hw. simpl in Hw.
  apply String.eqb_neq in Hni, Hnt. rewrite Hni, Hnt in Hw. simpl in Hw.
  rewrite andb_true_r in Hw. injection Hw as <- <-. split.
  - rewrite Hs. reflexivity.
  - intros Hnone. destruct H2 as (_ & _ & _ & _ & Hmono & _). apply Hmono.
    assert (Hfind : find (importsPath (types.Path npkg)) (ast.Imports f) = None).
    { destruct (find _ _) as [imp|] eqn:E; [| reflexivity].
      apply find_some in E as [Hin Hok]. apply list_elem_of_In in Hin.
      rewrite (Hnone imp Hin) in Hok. discriminate. }
    rewrite Hfind. rewrite bool_decide_eq_true_2 by reflexivity.
    apply addImport_elem.
Qed.

End Renaming.

Lemma selector_uses_first_usable_import_witness :
  ∃ n' ct',
    applyRewrite (Some World.Store) (Some World.Store) World.saveSig World.ctApp
      = Ok (n', ct')
    ∧ subAt [0; 0; 0; 0] n'
      = Some (ast.ESelector
                (ast.EIdent (ast.mkIdent None (ast.NamePos World.modelsId) "m"))
                World.userId)
    ∧ ∀ imp, imp ∈ addedImports ct' → Path imp = "example.com/models" →
             imp ∈ addedImports World.ctApp.
Proof.
  apply (selector_uses_first_usable_import World.Store World.Store World.saveSig
           World.ctApp World.appFile [0; 0; 0; 0] World.modelsId World.userId
           World.modelsName
           (World.typeObject World.userType) World.modelsT
           [ast.mkImportSpec None "example.com/store"]
           [ast.mkImportSpec (Some (ast.mkIdent None 3077%Z "_")) "time"]
           (ast.mkImportSpec (Some (ast.mkIdent None 3047%Z "m")) "example.com/models")).
  - reflexivity.
  - reflexivity.
  - reflexivity.
  - reflexivity.
  - reflexivity.
  - reflexivity.
  - simpl. discriminate.
  - reflexivity.
  - intros i Hi. apply list_elem_of_singleton in Hi. subst i. reflexivity.
  - reflexivity.
Defined.

(** The file [twice.go] imports [example.com/models] twice, plainly and
    then under the alias [m]: it imports the package under an explicit
    alias by an import that is neither blank nor a dot import, and yet the
    stub of [Save] spells [models.User], after the first import, not
    [m.User]; no import is queued. *)
Lemma later_alias_is_not_used :
  ast.Imports Cases.twiceFile
  = [ ast.mkImportSpec None "example.com/models";
      ast.mkImportSpec (Some (ast.mkIdent None 8050%Z "m")) "example.com/models" ]
  ∧ importsPath "example.com/models"
      (ast.mkImportSpec (Some (ast.mkIdent None 8050%Z "m")) "example.com/models")
    = true
  ∧ subAt [0; 0; 0; 0] World.saveSig
    = Some (ast.ESelector (ast.EIdent World.modelsId) World.userId)
  ∧ UsesAt (GetTypesInfo (Cases.Lib World.Store)) World.userId
    = Some (World.typeObject World.userType)
  ∧ ∃ n' ct',
      applyRewrite (Some (Cases.Lib World.Store)) (Some (Cases.Lib World.Store))
        World.saveSig Cases.ctTwice = Ok (n', ct')
      ∧ subAt [0; 0; 0; 0] n'
        = Some (ast.ESelector
                  (ast.EIdent (ast.mkIdent None (ast.NamePos World.modelsId) "models"))
                  World.userId)
      ∧ subAt [0; 0; 0; 0] n'
        ≠ Some (ast.ESelector
                  (ast.EIdent (ast.mkIdent None (ast.NamePos World.modelsId) "m"))
                  World.userId)
      ∧ ∀ imp, imp ∈ addedImports ct' → Path imp ≠ "example.com/models".
Proof.
  split; [reflexivity |]. split; [reflexivity |]. split; [reflexivity |].
  split; [reflexivity |].
  eexists _, _. split; [vm_compute; reflexivity |]. split; [reflexivity |].
  split; [discriminate |]. intros imp Himp. simpl in Himp.
  apply list_elem_of_singleton in Himp. subst imp. discriminate.
Qed.

(** The blank import of [time] in [app.go] does not count as an import of
    [time]. *)
Example blank_import_is_not_usable :
  ∀ imp, imp ∈ ast.Imports World.appFile → importsPath "time" imp = false.
Proof.
  intros imp Hin. simpl in Hin.
  apply elem_of_cons in Hin as [-> | Hin]; [reflexivity |].
  apply elem_of_cons in Hin as [-> | Hin]; [reflexivity |].
  apply elem_of_cons in Hin as [-> | Hin]; [reflexivity |].
  apply elem_of_nil in Hin. destruct Hin.
Qed.

Lemma identifier_of_dot_import_is_qualified_witness :
  ∃ n' ct',
    applyRewrite (Some World.Store) (Some World.Store) World.saveSig World.ctApp
      = Ok (n', ct')
    ∧ subAt [0; 1; 0] n'
      = Some (ast.ESelector (ast.EIdent (ast.mkIdent None 0%Z "time")) World.timeId)
    ∧ mkAddedImport "" "time" ∈ addedImports ct'.
Proof.
  destruct (identifier_of_dot_import_is_qualified World.Store World.Store World.saveSig
              World.ctApp World.appFile [0; 1; 0] World.timeId
              (World.typeObject World.timeType) "Time" World.timeT 4010%Z types.Struct)
    as (n' & ct' & Hrun & Hsub & Hqueued).
  - reflexivity.
  - reflexivity.
  - reflexivity.
  - reflexivity.
  - simpl. discriminate.
  - simpl. discriminate.
  - exists n', ct'. split; [exact Hrun |]. split; [exact Hsub |].
    apply Hqueued. exact blank_import_is_not_usable.
Defined.

(** C3.  The expansion is missed for a method that the requested
    interface has from an interface of another package.  [Keeper] of
    package [cases] embeds [store.Saver], whose method [Save] names [Time]
    through the dot import of [store.go].  The selectors of the signature
    are looked up in the package of the file that declares the method
    ([mi.pkg], here [store]), the bare identifiers in the package of the
    requested interface ([ir.ifacePkg], here [cases]), which has no use of
    [Time]: the identifier stays bare and no import of [time] is queued,
    while [models.User] beside it is treated and an import of
    [example.com/models] is queued.  With the package of the method for
    both, [Time] becomes [time.Time] and [time] is queued.  The stub that
    [MethodStubActions] writes into [cases.go] reads
    [func (T) Save(u *models.User, at Time) error]. *)
Theorem dot_import_of_embedded_interface_stays_bare :
  (∃ sc v,
     resolveRequest Cases.env Cases.fh Cases.d18 = Ok (Some sc)
     ∧ scConcreteType sc = Cases.ct
     ∧ ifaceObj (scRequest sc) = World.typeObject Cases.keeperType
     ∧ ifacePkg (scRequest sc) = Some Cases.Main
     ∧ missingMethods Cases.env Cases.ct (World.typeObject Cases.keeperType)
         (Some Cases.Main) ∅
       = Ok ([mkMissingInterface (types.Underlying World.saverType) World.storeFile
                (Some (Cases.Lib World.Store)) [World.saveFunc]], v))
  ∧ subAt [0; 1; 0] World.saveSig = Some (ast.EIdent World.timeId)
  ∧ UsesAt (GetTypesInfo (Cases.Lib World.Store)) World.timeId
    = Some (World.typeObject World.timeType)
  ∧ UsesAt (GetTypesInfo Cases.Main) World.timeId = None
  ∧ (∃ n' ct',
       applyRewrite (Some (Cases.Lib World.Store)) (Some Cases.Main) World.saveSig
         Cases.ct = Ok (n', ct')
       ∧ subAt [0; 1; 0] n' = Some (ast.EIdent World.timeId)
       ∧ addedImports ct' = [mkAddedImport "" "example.com/models"])
  ∧ (∃ n' ct',
       applyRewrite (Some (Cases.Lib World.Store)) (Some (Cases.Lib World.Store))
         World.saveSig Cases.ct = Ok (n', ct')
       ∧ subAt [0; 1; 0] n'
         = Some (ast.ESelector (ast.EIdent (ast.mkIdent None 0%Z "time")) World.timeId)
       ∧ addedImports ct'
         = [mkAddedImport "" "example.com/models"; mkAddedImport "" "time"])
  ∧ ∃ a text,
      MethodStubActions Cases.env [Cases.d18] Cases.fh = Ok (Some [a])
      ∧ protocol.NewText
        <$> concat (protocol.Edits <$> protocol.DocumentChanges (protocol.Edit a))
        = [text]
      ∧ Contains text "func (T) Save(u *models.User, at Time) error" = true
      ∧ Contains text "time" = false.
Proof.
  split.
  { vm_compute. eexists _, _. split; [reflexivity |]. split; [reflexivity |].
    split; [reflexivity |]. split; reflexivity. }
  split; [reflexivity |]. split; [reflexivity |]. split; [reflexivity |].
  split.
  { eexists _, _. split; [vm_compute; reflexivity |]. split; reflexivity. }
  split.
  { eexists _, _. split; [vm_compute; reflexivity |]. split; reflexivity. }
  destruct (MethodStubActions Cases.env [Cases.d18] Cases.fh)
    as [[[| a [| b acts]] |] | e | msg] eqn:Hrun;
    try (vm_compute in Hrun; discriminate Hrun).
  vm_compute in Hrun. injection Hrun as <-.
  eexists _, _. split; [reflexivity |]. split; [reflexivity |].
  split; vm_compute; reflexivity.
Qed.

(** ** C6: the added imports hold no pair twice *)

Section Synthesis.
Context {P : Type} `{Package P} (env : Env P).

Lemma renderMethod_extends (pkg : P) (ir : stubRequest P) (mi : missingInterface P)
    (m : types.Func) (ct ct' : concreteType) (stub : string) :
  renderMethod env pkg ir mi m ct = Ok (stub, ct') → extends ct ct'.
Proof.
  unfold renderMethod. intros Hrun.
  apply bind_Ok in Hrun as (field & _ & Hrun).
  destruct field as [[x | X Sel | k p e kids] | rs | vs | what p e]; try discriminate.
  destruct k; try discriminate.
  apply bind_Ok in Hrun as (n & _ & Hrun).
  apply bind_Ok in Hrun as ([n' ct''] & Hwalk & Hrun).
  apply bind_Ok in Hrun as (sig & _ & Hrun).
  apply bind_Ok in Hrun as (name & _ & Hrun).
  injection Hrun as _ <-. exact (applyRewrite_extends _ _ _ _ _ _ Hwalk).
Qed.

Lemma renderMethods_extends (pkg : P) (ir : stubRequest P) (mi : missingInterface P)
    (ms : list types.Func) :
  ∀ buf ct buf' ct',
    renderMethods env pkg ir mi ms buf ct = Ok (buf', ct') → extends ct ct'.
Proof.
  induction ms as [| m ms IH]; intros buf ct buf' ct' Hrun; simpl in Hrun.
  - injection Hrun as _ <-. apply extends_refl.
  - apply bind_Ok in Hrun as ([stub ct1] & Hone & Hrun).
    apply renderMethod_extends in Hone. apply IH in Hrun.
    exact (extends_trans _ _ _ Hone Hrun).
Qed.

Lemma renderMissing_extends (pkg : P) (ir : stubRequest P)
    (l : list (missingInterface P)) :
  ∀ buf ct buf' ct',
    renderMissing env pkg ir l buf ct = Ok (buf', ct') → extends ct ct'.
Proof.
  induction l as [| mi l IH]; intros buf ct buf' ct' Hrun; simpl in Hrun.
  - injection Hrun as _ <-. apply extends_refl.
  - apply bind_Ok in Hrun as ([buf1 ct1] & Hone & Hrun).
    apply renderMethods_extends in Hone. apply IH in Hrun.
    exact (extends_trans _ _ _ Hone Hrun).
Qed.

(** C6.  In a state of the added imports that holds no pair twice,
    [addImport(name, path)] leaves a list that holds no pair twice;
    queueing a pair that is already present leaves the concrete type
    unchanged, and so does queueing a pair a second time.  The rendering
    of the stubs of one synthesis, which queues imports by [addImport]
    only, leaves a list that holds no pair twice; [MethodStubActions]
    starts every synthesis with the empty list. *)
Theorem addImport_never_queues_twice (ct : concreteType) (name path : string) :
  NoDup (addedImports ct) →
  NoDup (addedImports (addImport ct name path))
  ∧ (mkAddedImport name path ∈ addedImports ct → addImport ct name path = ct)
  ∧ addImport (addImport ct name path) name path = addImport ct name path
  ∧ ∀ pkg ir l buf buf' ct',
      renderMissing env pkg ir l buf ct = Ok (buf', ct') → NoDup (addedImports ct').
Proof.
  intros Hnd. split; [apply addImport_NoDup, Hnd |]. split; [| split].
  - apply addImport_present.
  - apply addImport_present, addImport_elem.
  - intros pkg ir l buf buf' ct' Hrun.
    apply renderMissing_extends in Hrun as (_ & _ & _ & _ & _ & Hkeep & _).
    apply Hkeep, Hnd.
Qed.

(** The concrete type [resolveRequest] builds has no added import. *)
Lemma resolveRequest_no_import (fh : VersionedFileHandle) (d : protocol.Diagnostic)
    (sc : stubContext) :
  resolveRequest env fh d = Ok (Some sc) → addedImports (scConcreteType sc) = [].
Proof.
  unfold resolveRequest. intros Hrun.
  apply bind_Ok in Hrun as ([pkg0 pgf] & _ & Hrun).
  apply bind_Ok in Hrun as ([nodes pos] & _ & Hrun).
  apply bind_Ok in Hrun as (ir & _ & Hrun).
  destruct ir as [ir|]; [| discriminate].
  apply bind_Ok in Hrun as ([concreteFile concreteFH] & _ & Hrun).
  apply bind_Ok in Hrun as (ctpkg & _ & Hrun).
  injection Hrun as <-. reflexivity.
Qed.
End Synthesis.

Lemma addImport_never_queues_twice_witness :
  NoDup (addedImports (addImport (addImport World.ctApp "" "time") "" "time"))
  ∧ addImport (addImport World.ctApp "" "time") "" "time"
    = addImport World.ctApp "" "time"
  ∧ ∀ pkg ir l buf buf' ct',
      renderMissing World.env pkg ir l buf (addImport World.ctApp "" "time")
      = Ok (buf', ct') →
      NoDup (addedImports ct').
Proof.
  assert (Hnd : NoDup (addedImports (addImport World.ctApp "" "time"))).
  { apply addImport_NoDup. constructor. }
  destruct (addImport_never_queues_twice World.env (addImport World.ctApp "" "time")
              "" "time" Hnd) as (Htwice & Hsame & _ & Hsynthesis).
  split; [exact Htwice |]. split; [| exact Hsynthesis].
  apply Hsame. apply addImport_elem.
Defined.

(** ** The missing methods *)

Lemma Type_embedded_ind (Q : types.Type_ → Prop) :
  (∀ t, (∀ ms es, interfaceOf t = Some (ms, es) → Forall Q es) → Q t) →
  ∀ t, Q t.
Proof.
  intros Hstep. fix IH 1. intros t. apply Hstep.
  assert (Hall : ∀ es : list types.Type_,
            (fix sub (l : list types.Type_) : Prop :=
               match l with [] => True | e :: l' => Q e ∧ sub l' end) es →
            Forall Q es).
  { induction es as [| e es IHes]; intros Hes; constructor; [apply Hes | apply IHes, Hes]. }
  destruct t as [| name | n p pos u | elem | elem | | ps rs v | ms0 es0];
    try (intros ms es Heq; discriminate Heq).
  - destruct u as [| name | n' p' pos' u' | elem | elem | | ps rs v | ms0 es0];
      try (intros ms es Heq; discriminate Heq).
    intros ms es Heq. injection Heq as _ <-. apply Hall.
    induction es0 as [| e es0 IHes]; simpl; [exact I | split; [apply IH | exact IHes]].
  - intros ms es Heq. injection Heq as _ <-. apply Hall.
    induction es0 as [| e es0 IHes]; simpl; [exact I | split; [apply IH | exact IHes]].
Qed.

Lemma graphMethods_unfold (t : types.Type_) :
  graphMethods t = match interfaceOf t with
                   | Some (ms, es) => embeddedMethods es ++ ms
                   | None => []
                   end.
Proof.
  destruct t as [| name | n p pos u | elem | elem | | ps rs v | ms0 es0];
    try reflexivity.
  destruct u; reflexivity.
Qed.

Lemma embeddedMethods_cons (e : types.Type_) (es : list types.Type_) :
  embeddedMethods (e :: es) = graphMethods e ++ embeddedMethods es.
Proof. reflexivity. Qed.

Lemma occurrences_none (name : string) (names : list string) :
  name ∉ names → occurrences name names = 0.
Proof.
  unfold occurrences. induction names as [| n names IH]; intros Hin; [reflexivity |].
  apply not_elem_of_cons in Hin as [Hne Hin].
  rewrite filter_cons_False by congruence. apply IH, Hin.
Qed.

Lemma occurrences_once (name : string) (names : list string) :
  NoDup names → name ∈ names → occurrences name names = 1.
Proof.
  induction 1 as [| n names Hn Hnd IH]; intros Hin.
  - apply elem_of_nil in Hin. destruct Hin.
  - unfold occurrences in *. apply elem_of_cons in Hin as [<- | Hin].
    + rewrite filter_cons_True by reflexivity. simpl. f_equal.
      apply (occurrences_none name names), Hn.
    + rewrite filter_cons_False; [apply IH, Hin |].
      intros ->. apply Hn, Hin.
Qed.

Lemma occurrences_NoDup (name : string) (names : list string) :
  NoDup names → occurrences name names ≤ 1.
Proof.
  intros Hnd. destruct (decide (name ∈ names)) as [Hin | Hin].
  - rewrite occurrences_once by assumption. lia.
  - rewrite occurrences_none by assumption. lia.
Qed.

Lemma recorded_nil (ct : concreteType) (visited : gset string) :
  recorded ct [] visited [] visited.
Proof.
  unfold recorded. refine (conj _ (conj _ (conj _ _))).
  - constructor.
  - intros m Hm. apply elem_of_nil in Hm. destruct Hm.
  - intros n. simpl. rewrite elem_of_nil. tauto.
  - intros m Hm. apply elem_of_nil in Hm. destruct Hm.
Qed.

Lemma recorded_app (ct : concreteType) (ms1 ms2 new1 new2 : list types.Func)
    (v0 v1 v2 : gset string) :
  recorded ct ms1 v0 new1 v1 → recorded ct ms2 v1 new2 v2 →
  recorded ct (ms1 ++ ms2) v0 (new1 ++ new2) v2.
Proof.
  intros (Hnd1 & Hnew1 & Hv1 & Hall1) (Hnd2 & Hnew2 & Hv2 & Hall2).
  unfold recorded. refine (conj _ (conj _ (conj _ _))).
  - rewrite fmap_app. apply NoDup_app. refine (conj Hnd1 (conj _ Hnd2)).
    intros n Hn1 Hn2. apply list_elem_of_fmap in Hn2 as (m & -> & Hm).
    destruct (Hnew2 m Hm) as (_ & _ & Hfresh). apply Hfresh, Hv1. right. exact Hn1.
  - intros m Hm. apply elem_of_app in Hm as [Hm | Hm].
    + destruct (Hnew1 m Hm) as (Hin & Hd & Hfresh).
      refine (conj _ (conj Hd Hfresh)). apply elem_of_app. left. exact Hin.
    + destruct (Hnew2 m Hm) as (Hin & Hd & Hfresh).
      refine (conj _ (conj Hd _)); [apply elem_of_app; right; exact Hin |].
      intros Hv. apply Hfresh, Hv1. left. exact Hv.
  - intros n. rewrite Hv2, Hv1, fmap_app, elem_of_app. tauto.
  - intros m Hm Hd. apply elem_of_app in Hm as [Hm | Hm].
    + apply Hv2. left. apply Hall1; assumption.
    + apply Hall2; assumption.
Qed.

Lemma recorded_one_new (ct : concreteType) (m : types.Func) (visited : gset string) :
  doesNotHaveMethod ct (types.fn_Name m) = true → types.fn_Name m ∉ visited →
  recorded ct [m] visited [m] ({[types.fn_Name m]} ∪ visited).
Proof.
  intros Hd Hfresh. unfold recorded. refine (conj _ (conj _ (conj _ _))).
  - simpl. apply NoDup_singleton.
  - intros m' Hm'. apply list_elem_of_singleton in Hm' as ->.
    refine (conj _ (conj Hd Hfresh)). apply list_elem_of_singleton. reflexivity.
  - intros n. simpl. rewrite list_elem_of_singleton, elem_of_union, elem_of_singleton.
    tauto.
  - intros m' Hm' _. apply list_elem_of_singleton in Hm' as ->.
    apply elem_of_union. left. apply elem_of_singleton. reflexivity.
Qed.

Lemma recorded_one_old (ct : concreteType) (m : types.Func) (visited : gset string) :
  doesNotHaveMethod ct (types.fn_Name m) = false ∨ types.fn_Name m ∈ visited →
  recorded ct [m] visited [] visited.
Proof.
  intros Hold. unfold recorded. refine (conj _ (conj _ (conj _ _))).
  - constructor.
  - intros m' Hm'. apply elem_of_nil in Hm'. destruct Hm'.
  - intros n. simpl. rewrite elem_of_nil. tauto.
  - intros m' Hm' Hd. apply list_elem_of_singleton in Hm' as ->.
    destruct Hold as [Hold | Hold]; [congruence | exact Hold].
Qed.

Section MissingFacts.
Context {P : Type} `{Package P} (env : Env P) (ct : concreteType).

Lemma firstMismatch_app (ms1 ms2 : list types.Func) :
  firstMismatch env ct (ms1 ++ ms2)
  = match firstMismatch env ct ms1 with
    | Some e => Some e
    | None => firstMismatch env ct ms2
    end.
Proof.
  induction ms1 as [| m ms1 IH]; simpl; [reflexivity |].
  destruct (mismatch env ct m); [reflexivity | exact IH].
Qed.

Lemma firstMismatch_None (ms : list types.Func) :
  firstMismatch env ct ms = None ↔ ∀ m, m ∈ ms → mismatch env ct m = None.
Proof.
  induction ms as [| m ms IH]; simpl.
  - split; [intros _ m Hm; apply elem_of_nil in Hm; destruct Hm | reflexivity].
  - destruct (mismatch env ct m) eqn:Hm; split.
    + discriminate.
    + intros Hall. rewrite <- Hm. apply Hall. apply elem_of_cons. left. reflexivity.
    + intros Hrest m' Hm'. apply elem_of_cons in Hm' as [-> | Hm']; [exact Hm |].
      apply IH; assumption.
    + intros Hall. apply IH. intros m' Hm'. apply Hall. apply elem_of_cons.
      right. exact Hm'.
Qed.

Lemma mismatch_Some (m : types.Func) (sel : types.Selection) :
  getMethodSelection ct (types.fn_Name m) = Some sel →
  Identical env (types.fn_Type m) (types.SelType sel) = false →
  mismatch env ct m
  = Some (mismatchError (types.fn_Name m) (types.SelType sel) (types.fn_Type m)).
Proof. unfold mismatch. intros -> ->. reflexivity. Qed.

Lemma getMethodSelection_has (name : string) :
  doesNotHaveMethod ct name = false ↔ is_Some (getMethodSelection ct name).
Proof.
  unfold doesNotHaveMethod, getMethodSelection.
  destruct (types.Lookup (tms ct) (pkg ct) name) as [s|];
    [| destruct (types.Lookup (pms ct) (pkg ct) name) as [s|]]; split; intros Hx;
    try reflexivity; try (eexists; reflexivity); try discriminate.
  destruct Hx as [s Hs]. discriminate.
Qed.

(** One turn of the loop over the explicit methods. *)
Lemma explicitMethods_cons (m : types.Func) (rest acc : list types.Func)
    (visited : gset string) :
  ∃ new1 visited1,
    recorded ct [m] visited new1 visited1
    ∧ explicitMethods env ct (m :: rest) acc visited
      = match mismatch env ct m with
        | Some e => Err e
        | None => explicitMethods env ct rest (acc ++ new1) visited1
        end.
Proof.
  simpl. unfold mismatch.
  destruct (doesNotHaveMethod ct (types.fn_Name m)) eqn:Hd.
  - destruct (bool_decide (types.fn_Name m ∈ visited)) eqn:Hv.
    + apply bool_decide_eq_true in Hv. exists [], visited.
      split; [apply recorded_one_old; right; exact Hv |]. rewrite app_nil_r.
      destruct (getMethodSelection ct (types.fn_Name m)) as [sel|]; [| reflexivity].
      destruct (Identical env (types.fn_Type m) (types.SelType sel)); reflexivity.
    + apply bool_decide_eq_false in Hv. exists [m], ({[types.fn_Name m]} ∪ visited).
      split; [apply recorded_one_new; assumption |].
      destruct (getMethodSelection ct (types.fn_Name m)) as [sel|]; [| reflexivity].
      destruct (Identical env (types.fn_Type m) (types.SelType sel)); reflexivity.
  - exists [], visited. split; [apply recorded_one_old; left; exact Hd |].
    rewrite app_nil_r.
    destruct (getMethodSelection ct (types.fn_Name m)) as [sel|]; [| reflexivity].
    destruct (Identical env (types.fn_Type m) (types.SelType sel)); reflexivity.
Qed.

(** The loop over the explicit methods ends with the first mismatch, and
    with a record of the methods when there is none. *)
Lemma explicitMethods_spec (ms acc : list types.Func) (visited : gset string) :
  match firstMismatch env ct ms with
  | Some e => explicitMethods env ct ms acc visited = Err e
  | None => ∃ new visited',
      explicitMethods env ct ms acc visited = Ok (acc ++ new, visited')
      ∧ recorded ct ms visited new visited'
  end.
Proof.
  revert acc visited. induction ms as [| m ms IH]; intros acc visited.
  - simpl. exists [], visited. rewrite app_nil_r. split; [reflexivity | apply recorded_nil].
  - destruct (explicitMethods_cons m ms acc visited) as (new1 & v1 & Hrec1 & ->).
    cbn [firstMismatch]. destruct (mismatch env ct m) as [e|]; [reflexivity |].
    specialize (IH (acc ++ new1) v1). destruct (firstMismatch env ct ms) as [e|].
    + exact IH.
    + destruct IH as (new & v' & -> & Hrec). exists (new1 ++ new), v'.
      rewrite app_assoc. split; [reflexivity |].
      apply (recorded_app ct [m] ms new1 new visited v1 v'); assumption.
Qed.
End MissingFacts.

Section MissingWalk.
Context {P : Type} `{Package P} (env : Env P) (ct : concreteType).

Lemma missingMethodsRec_unfold (t : types.Type_) (obj : types.Object) (ip : option P)
    (visited : gset string) :
  missingMethodsRec env ct t obj ip visited
  = match interfaceOf t with
    | Some (methods, embeddeds) =>
        '(missing0, visited0) ← embeddedLoop env ct ip embeddeds [] visited;
        ownMethods env ct (types.Underlying t) methods obj ip missing0 visited0
    | None =>
        Err (errorString ("expected <nil> to be an interface but got "
                          +:+ typeName (types.Underlying t)))
    end.
Proof.
  destruct t as [| name | n p pos u | elem | elem | | ps rs v | ms0 es0];
    try reflexivity.
  destruct u; reflexivity.
Qed.

Lemma loadable_unfold (t : types.Type_) (obj : types.Object) (ip : option P) :
  loadable env t obj ip
  = match interfaceOf t with
    | Some (_, embeddeds) => loadableAll env embeddeds ip && hasFile env obj
    | None => false
    end.
Proof.
  assert (Hall : ∀ es,
    (fix all (l : list types.Type_) : bool :=
       match l with
       | [] => true
       | e :: l' =>
           match e, ip with
           | types.Named n (Some epkg) pos u, Some ip =>
               match (if negb (String.eqb (types.Path epkg) (PkgPath ip))
                      then GetImport ip (types.Path epkg)
                      else Ok ip) with
               | Ok depPkg => loadable env e (types.Obj n (Some epkg) pos u) (Some depPkg)
               | _ => false
               end
           | _, _ => false
           end && all l'
       end) es = loadableAll env es ip).
  { induction es as [| e es IH]; [reflexivity |]. simpl. rewrite IH. reflexivity. }
  destruct t as [| name | n p pos u | elem | elem | | ps rs v | ms0 es0];
    try reflexivity.
  - destruct u; try reflexivity. simpl. rewrite Hall. reflexivity.
  - simpl. rewrite Hall. reflexivity.
Qed.

Lemma missingFuncs_app (l1 l2 : list (missingInterface P)) :
  missingFuncs (l1 ++ l2) = missingFuncs l1 ++ missingFuncs l2.
Proof. unfold missingFuncs. apply bind_app. Qed.

(** What [missingMethods] does after the embedded interfaces. *)
Lemma ownMethods_Ok (u : types.Type_) (methods : list types.Func) (obj : types.Object)
    (ip : option P) (missing0 l : list (missingInterface P)) (visited0 v : gset string) :
  ownMethods env ct u methods obj ip missing0 visited0 = Ok (l, v) →
  ∃ l', l = missing0 ++ l'
        ∧ recorded ct methods visited0 (missingFuncs l') v
        ∧ Forall (λ mi, missing mi ≠ []) l'
        ∧ firstMismatch env ct methods = None.
Proof.
  unfold ownMethods. intros Hrun. bind_inv Hrun. destruct a as [astFile fh].
  destruct astFile as [f|]; [| discriminate]. bind_inv Hrun.
  destruct a as [mimissing visited1].
  pose proof (explicitMethods_spec env ct methods [] visited0) as Hspec.
  destruct (firstMismatch env ct methods) as [e|]; [congruence |].
  destruct Hspec as (new & v' & Heq & Hrec). rewrite Heq in Hstep0.
  injection Hstep0 as <- <-. simpl in Hrun.
  destruct (bool_decide (0 < length new)) eqn:Hlen; injection Hrun as <- <-.
  - apply bool_decide_eq_true in Hlen.
    exists [mkMissingInterface u f ip new]. split; [reflexivity |].
    unfold missingFuncs. simpl. rewrite app_nil_r. split; [exact Hrec |].
    split; [| reflexivity]. constructor; [| constructor]. simpl.
    intros ->. simpl in Hlen. lia.
  - apply bool_decide_eq_false in Hlen. destruct new as [| m new]; [| simpl in Hlen; lia].
    exists []. rewrite app_nil_r. split; [reflexivity |]. split; [exact Hrec |].
    split; [constructor | reflexivity].
Qed.

Lemma ownMethods_spec (u : types.Type_) (methods : list types.Func) (obj : types.Object)
    (ip : option P) (missing0 : list (missingInterface P)) (visited0 : gset string) :
  hasFile env obj = true →
  match firstMismatch env ct methods with
  | Some e => ownMethods env ct u methods obj ip missing0 visited0 = Err e
  | None => ∃ l v, ownMethods env ct u methods obj ip missing0 visited0 = Ok (l, v)
  end.
Proof.
  unfold hasFile, ownMethods. intros Hfile.
  destruct (getFile env obj) as [[[f|] fh] | e | msg]; try discriminate. simpl.
  pose proof (explicitMethods_spec env ct methods [] visited0) as Hspec.
  destruct (firstMismatch env ct methods) as [e|].
  - rewrite Hspec. reflexivity.
  - destruct Hspec as (new & v' & -> & _). simpl.
    destruct (bool_decide (0 < length new)); eexists _, _; reflexivity.
Qed.
End MissingWalk.

#[local] Arguments missingMethodsRec : simpl never.
#[local] Arguments graphMethods : simpl never.
#[local] Arguments loadable : simpl never.

Section MissingGraph.
Context {P : Type} `{Package P} (env : Env P) (ct : concreteType).

Lemma embeddedLoop_Ok (ip : option P) (es : list types.Type_) :
  Forall (λ e, ∀ obj ip visited l v,
            missingMethodsRec env ct e obj ip visited = Ok (l, v) →
            recorded ct (graphMethods e) visited (missingFuncs l) v
            ∧ Forall (λ mi, missing mi ≠ []) l
            ∧ firstMismatch env ct (graphMethods e) = None) es →
  ∀ missing0 visited l v,
    embeddedLoop env ct ip es missing0 visited = Ok (l, v) →
    ∃ l', l = missing0 ++ l'
          ∧ recorded ct (embeddedMethods es) visited (missingFuncs l') v
          ∧ Forall (λ mi, missing mi ≠ []) l'
          ∧ firstMismatch env ct (embeddedMethods es) = None.
Proof.
  induction 1 as [| e es He _ IH]; intros missing0 visited l v Hrun.
  - simpl in Hrun. injection Hrun as <- <-. exists []. rewrite app_nil_r.
    split; [reflexivity |]. split; [apply recorded_nil |].
    split; [constructor | reflexivity].
  - simpl in Hrun. destruct e as [| name | n p pos u | elem | elem | | ps rs vr | ms0 es0];
      try discriminate.
    bind_inv Hrun. bind_inv Hrun. bind_inv Hrun. bind_inv Hrun.
    destruct a2 as [em visited1].
    destruct (He _ _ _ _ _ Hstep2) as (Hrec1 & Hne1 & Hmm1).
    destruct (IH _ _ _ _ Hrun) as (l' & -> & Hrec2 & Hne2 & Hmm2).
    exists (em ++ l'). rewrite app_assoc. split; [reflexivity |].
    rewrite embeddedMethods_cons, missingFuncs_app, firstMismatch_app, Hmm1.
    split; [eapply recorded_app; eassumption |].
    split; [apply Forall_app; split; assumption | exact Hmm2].
Qed.

(** A result of [missingMethods] is a record of the methods of the graph:
    no name twice, and every method the concrete type does not have under
    a name that is visited by then.  There is a result only when no method
    of the graph has a mismatch. *)
Lemma missingMethodsRec_Ok (t : types.Type_) :
  ∀ obj ip visited l v,
    missingMethodsRec env ct t obj ip visited = Ok (l, v) →
    recorded ct (graphMethods t) visited (missingFuncs l) v
    ∧ Forall (λ mi, missing mi ≠ []) l
    ∧ firstMismatch env ct (graphMethods t) = None.
Proof.
  induction t as [t IH] using Type_embedded_ind. intros obj ip visited l v Hrun.
  rewrite missingMethodsRec_unfold in Hrun. rewrite graphMethods_unfold.
  destruct (interfaceOf t) as [[ms es]|]; [| discriminate].
  bind_inv Hrun. destruct a as [missing0 visited0].
  destruct (embeddedLoop_Ok ip es (IH ms es eq_refl) _ _ _ _ Hstep)
    as (l0 & -> & Hrec0 & Hne0 & Hmm0).
  apply ownMethods_Ok in Hrun as (l1 & -> & Hrec1 & Hne1 & Hmm1).
  simpl. rewrite missingFuncs_app, firstMismatch_app, Hmm0.
  split; [eapply recorded_app; eassumption |].
  split; [apply Forall_app; split; assumption | exact Hmm1].
Qed.

Lemma embeddedLoop_spec (ip : option P) (es : list types.Type_) :
  Forall (λ e, ∀ obj ip, loadable env e obj ip = true → ∀ visited,
            match firstMismatch env ct (graphMethods e) with
            | Some err => missingMethodsRec env ct e obj ip visited = Err err
            | None => ∃ l v, missingMethodsRec env ct e obj ip visited = Ok (l, v)
            end) es →
  loadableAll env es ip = true →
  ∀ missing0 visited,
    match firstMismatch env ct (embeddedMethods es) with
    | Some err => embeddedLoop env ct ip es missing0 visited = Err err
    | None => ∃ l v, embeddedLoop env ct ip es missing0 visited = Ok (l, v)
    end.
Proof.
  induction 1 as [| e es He _ IH]; intros Hload missing0 visited.
  - simpl. eexists _, _. reflexivity.
  - simpl in Hload. apply andb_true_iff in Hload as [Hload1 Hload2].
    destruct e as [| name | n p pos u | elem | elem | | ps rs vr | ms0 es0];
      try discriminate.
    destruct p as [epkg|]; [| discriminate]. destruct ip as [ip0|]; [| discriminate].
    rewrite embeddedMethods_cons, firstMismatch_app. simpl.
    destruct (if negb (String.eqb (types.Path epkg) (PkgPath ip0))
              then GetImport ip0 (types.Path epkg) else Ok ip0) as [depPkg | err | msg];
      try discriminate.
    simpl. specialize (He _ _ Hload1 visited).
    destruct (firstMismatch env ct (graphMethods (types.Named n (Some epkg) pos u)))
      as [err|].
    + rewrite He. reflexivity.
    + destruct He as (em & v1 & ->). simpl. apply IH. exact Hload2.
Qed.

(** When the interfaces of the graph can be loaded, [missingMethods] ends
    with the first mismatch of the graph, and with a result when there is
    none. *)
Lemma missingMethodsRec_spec (t : types.Type_) :
  ∀ obj ip, loadable env t obj ip = true → ∀ visited,
    match firstMismatch env ct (graphMethods t) with
    | Some err => missingMethodsRec env ct t obj ip visited = Err err
    | None => ∃ l v, missingMethodsRec env ct t obj ip visited = Ok (l, v)
    end.
Proof.
  induction t as [t IH] using Type_embedded_ind. intros obj ip Hload visited.
  rewrite loadable_unfold in Hload.
  rewrite missingMethodsRec_unfold, graphMethods_unfold.
  destruct (interfaceOf t) as [[ms es]|]; [| discriminate].
  apply andb_true_iff in Hload as [Hall Hfile].
  pose proof (embeddedLoop_spec ip es (IH ms es eq_refl) Hall [] visited) as Hloop.
  rewrite firstMismatch_app.
  destruct (firstMismatch env ct (embeddedMethods es)) as [err|].
  - rewrite Hloop. reflexivity.
  - destruct Hloop as (missing0 & visited0 & ->). simpl.
    apply ownMethods_spec. exact Hfile.
Qed.
End MissingGraph.

(** ** C5: a method a diamond requires is recorded once *)

Section Diamond.
Context {P : Type} `{Package P} (env : Env P).

(** C5.  In the result of one call of [missingMethods], whatever the
    embedding graph of the interface, no method name is recorded twice;
    no recorded name was visited before the call; and every method of the
    graph that the concrete type does not have and whose name was not
    visited before the call is recorded under its name exactly once,
    however many embedded interfaces require it.  The visited names the
    call leaves are those it was given and those it has recorded.
    [MethodStubActions] makes the call with the empty set. *)
Theorem diamond_method_is_recorded_once (ct : concreteType) (ifaceObj : types.Object)
    (ifacePkg : option P) (visited : gset string) (l : list (missingInterface P))
    (v : gset string) :
  missingMethods env ct ifaceObj ifacePkg visited = Ok (l, v) →
  NoDup (missingNames l)
  ∧ (∀ name, name ∈ missingNames l → name ∉ visited)
  ∧ (∀ name, name ∈ v ↔ name ∈ visited ∨ name ∈ missingNames l)
  ∧ (∀ m, m ∈ graphMethods (types.ObjType ifaceObj) →
          doesNotHaveMethod ct (types.fn_Name m) = true →
          types.fn_Name m ∉ visited →
          occurrences (types.fn_Name m) (missingNames l) = 1).
Proof.
  unfold missingMethods. intros Hrun.
  apply missingMethodsRec_Ok in Hrun as ((Hnd & Hnew & Hv & Hall) & _ & _).
  unfold missingNames. refine (conj Hnd (conj _ (conj Hv _))).
  - intros name Hname. apply list_elem_of_fmap in Hname as (m & -> & Hm).
    apply (Hnew m Hm).
  - intros m Hm Hd Hfresh. apply occurrences_once; [exact Hnd |].
    destruct (proj1 (Hv (types.fn_Name m)) (Hall m Hm Hd)) as [Hold | Hin];
      [contradiction | exact Hin].
Qed.
End Diamond.

Lemma diamond_method_is_recorded_once_witness :
  graphMethods World.iType = [World.fOfA; World.fOfA; World.fOfB]
  ∧ missingMethods World.env World.ctApp (World.typeObject World.iType)
      (Some World.Store) ∅
    = Ok ([mkMissingInterface (types.Interface [World.fOfA] []) World.storeFile
             (Some World.Store) [World.fOfA]], {["F"]})
  ∧ occurrences "F"
      (missingNames [mkMissingInterface (types.Interface [World.fOfA] [])
                       World.storeFile (Some World.Store) [World.fOfA]]) = 1.
Proof.
  assert (Hrun : missingMethods World.env World.ctApp (World.typeObject World.iType)
                   (Some World.Store) ∅
                 = Ok ([mkMissingInterface (types.Interface [World.fOfA] [])
                          World.storeFile (Some World.Store) [World.fOfA]], {["F"]})).
  { vm_compute. reflexivity. }
  split; [reflexivity |]. split; [exact Hrun |].
  destruct (diamond_method_is_recorded_once World.env World.ctApp
              (World.typeObject World.iType) (Some World.Store) ∅ _ _ Hrun)
    as (_ & _ & _ & Honce).
  apply (Honce World.fOfB).
  - vm_compute. apply elem_of_cons. right. apply elem_of_cons. right.
    apply elem_of_cons. left. reflexivity.
  - reflexivity.
  - apply not_elem_of_empty.
Defined.

(** ** The loop over the diagnostics *)

Section LoopFacts.
Context {P : Type} `{Package P} (env : Env P) (fh : VersionedFileHandle).

(** A turn on a diagnostic the filter lets through and a request is found
    for. *)
Lemma diagnosticTurn_request (d : protocol.Diagnostic) (sc : stubContext) :
  isStubDiagnostic d = true → resolveRequest env fh d = Ok (Some sc) →
  diagnosticTurn env fh d
  = '(missing, _) ← wrap "missingMethods"
                      (missingMethods env (scConcreteType sc)
                         (ifaceObj (scRequest sc)) (ifacePkg (scRequest sc)) ∅);
    if bool_decide (length missing = 0) then Ok ReturnNil else
    action ← buildAction env d sc missing;
    Ok (Append action).
Proof. unfold diagnosticTurn. intros -> ->. reflexivity. Qed.

(** The loop passes the diagnostics whose turn is [continue] or an action. *)
Lemma actionsLoop_reaches (pre post : list protocol.Diagnostic)
    (actions : list protocol.CodeAction) :
  Forall (λ d, ∃ t, diagnosticTurn env fh d = Ok t ∧ t ≠ ReturnNil) pre →
  ∃ actions', actionsLoop env fh (pre ++ post) actions
              = actionsLoop env fh post actions'.
Proof.
  intros Hpre. revert actions.
  induction Hpre as [| d pre (t & Ht & Hne) _ IH]; intros actions.
  - exists actions. reflexivity.
  - simpl. rewrite Ht. simpl. destruct t as [| a |]; [apply IH | apply IH | congruence].
Qed.

(** The loop returns no slice of actions when the turn on one of the
    diagnostics is neither [continue] nor an action. *)
Lemma actionsLoop_ends (ds : list protocol.Diagnostic) (d : protocol.Diagnostic) :
  d ∈ ds → (∀ t, diagnosticTurn env fh d = Ok t → t = ReturnNil) →
  ∀ actions acts, actionsLoop env fh ds actions ≠ Ok (Some acts).
Proof.
  intros Hin Hturn. induction ds as [| d0 ds IH]; intros actions acts.
  - apply elem_of_nil in Hin. destruct Hin.
  - simpl. destruct (diagnosticTurn env fh d0) as [t | e | msg] eqn:Hd0; simpl;
      [| discriminate | discriminate].
    apply elem_of_cons in Hin as [<- | Hin].
    + rewrite (Hturn t Hd0). discriminate.
    + destruct t as [| a |]; [apply IH, Hin | apply IH, Hin | discriminate].
Qed.

(** Every action the loop returns is one it was given or the action of a
    turn on one of the diagnostics. *)
Lemma actionsLoop_actions (ds : list protocol.Diagnostic)
    (actions acts : list protocol.CodeAction) :
  actionsLoop env fh ds actions = Ok (Some acts) →
  ∀ a, a ∈ acts → a ∈ actions ∨ ∃ d, d ∈ ds ∧ diagnosticTurn env fh d = Ok (Append a).
Proof.
  revert actions. induction ds as [| d0 ds IH]; intros actions Hrun a Ha.
  - simpl in Hrun. injection Hrun as <-. left. exact Ha.
  - simpl in Hrun. bind_inv Hrun. destruct a0 as [| a0 |]; [| | discriminate].
    + destruct (IH _ Hrun a Ha) as [Hold | (d & Hd & Hturn)]; [left; exact Hold |].
      right. exists d. split; [apply elem_of_cons; right; exact Hd | exact Hturn].
    + destruct (IH _ Hrun a Ha) as [Hold | (d & Hd & Hturn)].
      * apply elem_of_app in Hold as [Hold | Hnew]; [left; exact Hold |].
        apply list_elem_of_singleton in Hnew as ->. right. exists d0.
        split; [apply elem_of_cons; left; reflexivity | exact Hstep].
      * right. exists d. split; [apply elem_of_cons; right; exact Hd | exact Hturn].
Qed.
End LoopFacts.

(** ** C4: a method of the same name with another signature *)

Section Mismatch.
Context {P : Type} `{Package P} (env : Env P).

Lemma mismatch_inv (ct : concreteType) (m : types.Func) (e : error) :
  mismatch env ct m = Some e →
  ∃ sel, getMethodSelection ct (types.fn_Name m) = Some sel
         ∧ Identical env (types.fn_Type m) (types.SelType sel) = false
         ∧ e = mismatchError (types.fn_Name m) (types.SelType sel) (types.fn_Type m).
Proof.
  unfold mismatch. destruct (getMethodSelection ct (types.fn_Name m)) as [sel|];
    [| discriminate].
  destruct (Identical env (types.fn_Type m) (types.SelType sel)) eqn:Hid;
    [discriminate |].
  intros [= <-]. exists sel. auto.
Qed.

Lemma firstMismatch_Some (ct : concreteType) (ms : list types.Func) (e : error) :
  firstMismatch env ct ms = Some e →
  ∃ pre m post, ms = pre ++ m :: post ∧ firstMismatch env ct pre = None
                ∧ mismatch env ct m = Some e.
Proof.
  induction ms as [| m ms IH]; simpl; [discriminate |].
  destruct (mismatch env ct m) as [e'|] eqn:Hm.
  - intros [= <-]. exists [], m, ms. auto.
  - intros Hrest. destruct (IH Hrest) as (pre & m' & post & -> & Hpre & Hm').
    exists (m :: pre), m', post. simpl. rewrite Hm. auto.
Qed.

(** C4.  Let the method [m] of the embedding graph of the interface have
    the name of a method of the concrete type (in the value or the pointer
    method set) with a signature that is not identical.  Then
    [missingMethods] has no result.  When the interfaces of the graph can
    be loaded it returns the mismatch error of a method [m'] of the graph:
    the name of [m'], the signature the concrete type has and the
    signature the interface wants; [m'] is the first method with a
    mismatch in the order of the traversal, [m] itself when no method
    before it has one.  A turn of [MethodStubActions] on a diagnostic with
    this request yields no action: it returns that error, wrapped, and
    the whole call returns no slice of actions. *)
Theorem mismatch_is_reported (ct : concreteType) (obj : types.Object) (ip : option P)
    (pre post : list types.Func) (m : types.Func) (sel : types.Selection) :
  graphMethods (types.ObjType obj) = pre ++ m :: post →
  getMethodSelection ct (types.fn_Name m) = Some sel →
  Identical env (types.fn_Type m) (types.SelType sel) = false →
  (∀ visited l v, missingMethods env ct obj ip visited ≠ Ok (l, v))
  ∧ (loadable env (types.ObjType obj) obj ip = true →
     ∃ m' sel',
       m' ∈ graphMethods (types.ObjType obj)
       ∧ getMethodSelection ct (types.fn_Name m') = Some sel'
       ∧ Identical env (types.fn_Type m') (types.SelType sel') = false
       ∧ (firstMismatch env ct pre = None → m' = m ∧ sel' = sel)
       ∧ (∀ visited,
            missingMethods env ct obj ip visited
            = Err (mismatchError (types.fn_Name m') (types.SelType sel')
                     (types.fn_Type m')))
       ∧ ∀ fh d sc,
           isStubDiagnostic d = true → resolveRequest env fh d = Ok (Some sc) →
           scConcreteType sc = ct → ifaceObj (scRequest sc) = obj →
           ifacePkg (scRequest sc) = ip →
           diagnosticTurn env fh d
           = Err (wrapError "missingMethods"
                    (mismatchError (types.fn_Name m') (types.SelType sel')
                       (types.fn_Type m'))))
  ∧ (∀ fh d sc,
       isStubDiagnostic d = true → resolveRequest env fh d = Ok (Some sc) →
       scConcreteType sc = ct → ifaceObj (scRequest sc) = obj →
       ifacePkg (scRequest sc) = ip →
       (∀ a, diagnosticTurn env fh d ≠ Ok (Append a))
       ∧ ∀ ds acts, d ∈ ds → MethodStubActions env ds fh ≠ Ok (Some acts)).
Proof.
  intros Hgraph Hsel Hid.
  pose proof (mismatch_Some env ct m sel Hsel Hid) as Hm.
  assert (Hnever : ∀ visited l v, missingMethods env ct obj ip visited ≠ Ok (l, v)).
  { intros visited l v Hrun. unfold missingMethods in Hrun.
    apply missingMethodsRec_Ok in Hrun as (_ & _ & Hnone).
    rewrite Hgraph in Hnone. apply (proj1 (firstMismatch_None env ct _)) with (m := m) in Hnone.
    - congruence.
    - apply elem_of_app. right. apply elem_of_cons. left. reflexivity. }
  assert (Hturn : ∀ fh d sc,
            isStubDiagnostic d = true → resolveRequest env fh d = Ok (Some sc) →
            scConcreteType sc = ct → ifaceObj (scRequest sc) = obj →
            ifacePkg (scRequest sc) = ip →
            ∀ t, diagnosticTurn env fh d ≠ Ok t).
  { intros fh d sc Hfilter Hreq <- <- <- t.
    rewrite (diagnosticTurn_request env fh d sc Hfilter Hreq). intros Hrun.
    bind_inv Hrun. destruct a as [l v]. exact (Hnever _ _ _ Hstep). }
  refine (conj Hnever (conj _ _)).
  - intros Hload.
    assert (Hfirst : ∃ m' sel',
              m' ∈ graphMethods (types.ObjType obj)
              ∧ getMethodSelection ct (types.fn_Name m') = Some sel'
              ∧ Identical env (types.fn_Type m') (types.SelType sel') = false
              ∧ (firstMismatch env ct pre = None → m' = m ∧ sel' = sel)
              ∧ firstMismatch env ct (graphMethods (types.ObjType obj))
                = Some (mismatchError (types.fn_Name m') (types.SelType sel')
                          (types.fn_Type m'))).
    { destruct (firstMismatch env ct pre) as [e|] eqn:Hpre.
      - destruct (firstMismatch_Some ct pre e Hpre)
          as (pre0 & m0 & post0 & Hsplit & _ & Hm0).
        apply mismatch_inv in Hm0 as (sel0 & Hsel0 & Hid0 & ->).
        exists m0, sel0. rewrite Hgraph, firstMismatch_app, Hpre.
        refine (conj _ (conj Hsel0 (conj Hid0 (conj _ eq_refl)))); [| discriminate].
        rewrite Hsplit. apply elem_of_app. left. apply elem_of_app. right.
        apply elem_of_cons. left. reflexivity.
      - exists m, sel. rewrite Hgraph, firstMismatch_app, Hpre. simpl. rewrite Hm.
        refine (conj _ (conj Hsel (conj Hid (conj _ eq_refl)))); [| auto].
        apply elem_of_app. right. apply elem_of_cons. left. reflexivity. }
    destruct Hfirst as (m' & sel' & Hin' & Hsel' & Hid' & Hsame & Hfirst).
    exists m', sel'. refine (conj Hin' (conj Hsel' (conj Hid' (conj Hsame _)))).
    assert (Hrun : ∀ visited,
              missingMethods env ct obj ip visited
              = Err (mismatchError (types.fn_Name m') (types.SelType sel')
                       (types.fn_Type m'))).
    { intros visited. unfold missingMethods.
      pose proof (missingMethodsRec_spec env ct _ obj ip Hload visited) as Hspec.
      rewrite Hfirst in Hspec. exact Hspec. }
    split; [exact Hrun |]. intros fh d sc Hfilter Hreq <- <- <-.
    rewrite (diagnosticTurn_request env fh d sc Hfilter Hreq), Hrun. reflexivity.
  - intros fh d sc Hfilter Hreq Hct Hobj Hip.
    pose proof (Hturn fh d sc Hfilter Hreq Hct Hobj Hip) as Hno.
    split; [intros a; apply Hno |]. intros ds acts Hin.
    apply (actionsLoop_ends env fh ds d Hin). intros t Ht. destruct (Hno t Ht).
Qed.
End Mismatch.

Lemma mismatch_is_reported_witness :
  missingMethods World.env (World.ctOf World.eType) (World.typeObject World.doerType)
    (Some World.Store) ∅
  = Err (mismatchError "Do" (types.Signature [types.Basic "string"] [] false)
           (types.Signature [types.Basic "int"] [] false))
  ∧ diagnosticTurn World.env World.fhApp World.d3
    = Err (wrapError "missingMethods"
             (mismatchError "Do" (types.Signature [types.Basic "string"] [] false)
                (types.Signature [types.Basic "int"] [] false)))
  ∧ ∀ acts, MethodStubActions World.env [World.d1; World.d3] World.fhApp
            ≠ Ok (Some acts).
Proof.
  destruct (mismatch_is_reported World.env (World.ctOf World.eType)
              (World.typeObject World.doerType) (Some World.Store)
              [World.beginFunc] [] World.doFunc
              (types.mkSelection (types.Signature [types.Basic "string"] [] false)))
    as (_ & Hloaded & Hactions).
  - reflexivity.
  - vm_compute. reflexivity.
  - reflexivity.
  - destruct (Hloaded eq_refl) as (m' & sel' & _ & _ & _ & Hsame & Hrun & Hturn).
    destruct (Hsame eq_refl) as [-> ->].
    assert (Hreq : ∃ sc, resolveRequest World.env World.fhApp World.d3 = Ok (Some sc)
                         ∧ scConcreteType sc = World.ctOf World.eType
                         ∧ ifaceObj (scRequest sc) = World.typeObject World.doerType
                         ∧ ifacePkg (scRequest sc) = Some World.Store).
    { vm_compute. eexists. split; [reflexivity |]. split; [reflexivity |].
      split; reflexivity. }
    destruct Hreq as (sc & Hreq & Hct & Hobj & Hip).
    split; [exact (Hrun ∅) |].
    split; [exact (Hturn World.fhApp World.d3 sc eq_refl Hreq Hct Hobj Hip) |].
    intros acts.
    apply (proj2 (Hactions World.fhApp World.d3 sc eq_refl Hreq Hct Hobj Hip)).
    apply elem_of_cons. right. apply elem_of_cons. left. reflexivity.
Defined.

(** ** C7 and C10: an empty set of missing methods *)

Section EmptySet.
Context {P : Type} `{Package P} (env : Env P).

Lemma missingFuncs_nil (l : list (missingInterface P)) :
  Forall (λ mi, missing mi ≠ []) l → missingFuncs l = [] → l = [].
Proof.
  intros Hne Hnil. destruct l as [| mi l]; [reflexivity |].
  apply Forall_cons in Hne as [Hmi _]. unfold missingFuncs in Hnil. simpl in Hnil.
  apply app_eq_nil in Hnil as [Hnil _]. contradiction.
Qed.

(** The result of [missingMethods], started with no visited name, is empty
    exactly when the concrete type has every method of the graph. *)
Lemma missingMethods_empty_iff (ct : concreteType) (obj : types.Object) (ip : option P)
    (l : list (missingInterface P)) (v : gset string) :
  missingMethods env ct obj ip ∅ = Ok (l, v) →
  l = [] ↔ ∀ m, m ∈ graphMethods (types.ObjType obj) →
                doesNotHaveMethod ct (types.fn_Name m) = false.
Proof.
  unfold missingMethods. intros Hrun.
  apply missingMethodsRec_Ok in Hrun as ((Hnd & Hnew & Hv & Hall) & Hne & _). split.
  - intros -> m Hm. destruct (doesNotHaveMethod ct (types.fn_Name m)) eqn:Hd;
      [| reflexivity].
    apply Hall, Hv in Hd; [| exact Hm]. destruct Hd as [Hd | Hd].
    + apply not_elem_of_empty in Hd. destruct Hd.
    + apply elem_of_nil in Hd. destruct Hd.
  - intros Hhas. apply missingFuncs_nil; [exact Hne |].
    destruct (missingFuncs l) as [| m ms]; [reflexivity |].
    destruct (Hnew m) as (Hm & Hd & _); [apply elem_of_cons; left; reflexivity |].
    rewrite (Hhas m Hm) in Hd. discriminate.
Qed.

Lemma actionsLoop_returns_nil (fh : VersionedFileHandle)
    (pre post : list protocol.Diagnostic) (d : protocol.Diagnostic) :
  Forall (λ d', ∃ t, diagnosticTurn env fh d' = Ok t) pre →
  diagnosticTurn env fh d = Ok ReturnNil →
  ∀ actions, actionsLoop env fh (pre ++ d :: post) actions = Ok None.
Proof.
  intros Hpre Hd. induction Hpre as [| d' pre (t & Ht) _ IH]; intros actions.
  - simpl. rewrite Hd. reflexivity.
  - simpl. rewrite Ht. simpl. destruct t; [apply IH | apply IH | reflexivity].
Qed.

Lemma actionsLoop_accumulates (fh : VersionedFileHandle) (pre : list protocol.Diagnostic) :
  Forall (λ d', ∃ t, diagnosticTurn env fh d' = Ok t ∧ t ≠ ReturnNil) pre →
  ∀ actions, ∃ acts,
    actionsLoop env fh pre actions = Ok (Some acts)
    ∧ (∀ a, a ∈ actions → a ∈ acts)
    ∧ ∀ d' a, d' ∈ pre → diagnosticTurn env fh d' = Ok (Append a) → a ∈ acts.
Proof.
  induction 1 as [| d0 pre (t & Ht & Hne) _ IH]; intros actions.
  - exists actions. split; [reflexivity |]. split; [auto |].
    intros d' a Hd'. apply elem_of_nil in Hd'. destruct Hd'.
  - simpl. rewrite Ht. simpl. destruct t as [| a0 |]; [| | congruence].
    + destruct (IH actions) as (acts & Hrun & Hold & Hnew). exists acts.
      refine (conj Hrun (conj Hold _)). intros d' a Hd' Hturn.
      apply elem_of_cons in Hd' as [-> | Hd']; [congruence |].
      exact (Hnew d' a Hd' Hturn).
    + destruct (IH (actions ++ [a0])) as (acts & Hrun & Hold & Hnew). exists acts.
      split; [exact Hrun |]. split.
      * intros a Ha. apply Hold. apply elem_of_app. left. exact Ha.
      * intros d' a Hd' Hturn. apply elem_of_cons in Hd' as [-> | Hd'].
        -- rewrite Ht in Hturn. injection Hturn as <-. apply Hold.
           apply elem_of_app. right. apply list_elem_of_singleton. reflexivity.
        -- exact (Hnew d' a Hd' Hturn).
Qed.

(** C7.  Let a diagnostic pass the filter and give a request whose
    concrete type has every method of the embedding graph of the
    interface, with an identical signature (the interfaces of the graph
    being loaded).  Then the set of missing methods [missingMethods]
    computes is empty, the turn of the loop on the diagnostic returns nil
    and appends no action, and no call of [MethodStubActions] on a list
    that holds the diagnostic returns a slice of actions. *)
Theorem provided_methods_yield_no_action (fh : VersionedFileHandle)
    (d : protocol.Diagnostic) (sc : stubContext) :
  isStubDiagnostic d = true →
  resolveRequest env fh d = Ok (Some sc) →
  loadable env (types.ObjType (ifaceObj (scRequest sc))) (ifaceObj (scRequest sc))
    (ifacePkg (scRequest sc)) = true →
  (∀ m, m ∈ graphMethods (types.ObjType (ifaceObj (scRequest sc))) →
        ∃ sel, getMethodSelection (scConcreteType sc) (types.fn_Name m) = Some sel
               ∧ Identical env (types.fn_Type m) (types.SelType sel) = true) →
  (∃ v, missingMethods env (scConcreteType sc) (ifaceObj (scRequest sc))
          (ifacePkg (scRequest sc)) ∅ = Ok ([], v))
  ∧ diagnosticTurn env fh d = Ok ReturnNil
  ∧ ∀ ds acts, d ∈ ds → MethodStubActions env ds fh ≠ Ok (Some acts).
Proof.
  intros Hfilter Hreq Hload Hhas.
  assert (Hnone : firstMismatch env (scConcreteType sc)
                    (graphMethods (types.ObjType (ifaceObj (scRequest sc)))) = None).
  { apply firstMismatch_None. intros m Hm. destruct (Hhas m Hm) as (sel & Hsel & Hid).
    unfold mismatch. rewrite Hsel, Hid. reflexivity. }
  pose proof (missingMethodsRec_spec env (scConcreteType sc) _ _ _ Hload ∅) as Hspec.
  rewrite Hnone in Hspec. destruct Hspec as (l & v & Hrun).
  fold (missingMethods env (scConcreteType sc) (ifaceObj (scRequest sc))
          (ifacePkg (scRequest sc)) ∅) in Hrun.
  assert (Hl : l = []).
  { apply (missingMethods_empty_iff _ _ _ _ _ Hrun). intros m Hm.
    apply getMethodSelection_has. destruct (Hhas m Hm) as (sel & Hsel & _).
    exists sel. exact Hsel. }
  subst l.
  assert (Hturn : diagnosticTurn env fh d = Ok ReturnNil).
  { rewrite (diagnosticTurn_request env fh d sc Hfilter Hreq), Hrun. reflexivity. }
  split; [exists v; exact Hrun |]. split; [exact Hturn |].
  intros ds acts Hin. apply (actionsLoop_ends env fh ds d Hin).
  intros t Ht. congruence.
Qed.

(** C10.  Let a diagnostic of the list pass the filter and give a request
    for which [missingMethods] computes the empty set.  When no turn on an
    earlier diagnostic fails, [MethodStubActions] returns the nil slice
    and the nil error, whatever follows the diagnostic in the list.  The
    actions of the earlier diagnostics are lost: when no earlier turn
    returns nil either, the call on the earlier diagnostics alone returns
    a slice that holds the action of each of their turns. *)
Theorem empty_missing_set_discards_actions (fh : VersionedFileHandle)
    (pre post : list protocol.Diagnostic) (d : protocol.Diagnostic) (sc : stubContext)
    (v : gset string) :
  isStubDiagnostic d = true →
  resolveRequest env fh d = Ok (Some sc) →
  missingMethods env (scConcreteType sc) (ifaceObj (scRequest sc))
    (ifacePkg (scRequest sc)) ∅ = Ok ([], v) →
  Forall (λ d', ∃ t, diagnosticTurn env fh d' = Ok t) pre →
  MethodStubActions env (pre ++ d :: post) fh = Ok None
  ∧ (Forall (λ d', ∃ t, diagnosticTurn env fh d' = Ok t ∧ t ≠ ReturnNil) pre →
     ∃ acts, MethodStubActions env pre fh = Ok (Some acts)
             ∧ ∀ d' a, d' ∈ pre → diagnosticTurn env fh d' = Ok (Append a) → a ∈ acts).
Proof.
  intros Hfilter Hreq Hrun Hpre.
  assert (Hturn : diagnosticTurn env fh d = Ok ReturnNil).
  { rewrite (diagnosticTurn_request env fh d sc Hfilter Hreq), Hrun. reflexivity. }
  split.
  - apply actionsLoop_returns_nil; assumption.
  - intros Hok. destruct (actionsLoop_accumulates fh pre Hok []) as (acts & Hacts & _ & Hnew).
    exists acts. split; [exact Hacts | exact Hnew].
Qed.
End EmptySet.

(** The request of the diagnostic on [var _ store.A = D{}]. *)
Lemma request_of_d2 :
  ∃ sc, resolveRequest World.env World.fhApp World.d2 = Ok (Some sc)
        ∧ scConcreteType sc = World.ctOf World.dType
        ∧ ifaceObj (scRequest sc) = World.typeObject World.aType
        ∧ ifacePkg (scRequest sc) = Some World.Store.
Proof.
  vm_compute. eexists. split; [reflexivity |]. split; [reflexivity |]. split; reflexivity.
Defined.

Lemma provided_methods_yield_no_action_witness :
  diagnosticTurn World.env World.fhApp World.d2 = Ok ReturnNil
  ∧ ∀ acts, MethodStubActions World.env [World.d1; World.d2] World.fhApp
            ≠ Ok (Some acts).
Proof.
  destruct request_of_d2 as (sc & Hreq & Hct & Hobj & Hip).
  destruct (provided_methods_yield_no_action World.env World.fhApp World.d2 sc)
    as (_ & Hturn & Hactions).
  - reflexivity.
  - exact Hreq.
  - rewrite Hobj, Hip. reflexivity.
  - rewrite Hobj, Hct. intros m Hm. vm_compute in Hm.
    apply list_elem_of_singleton in Hm as ->.
    exists (types.mkSelection (types.Signature [] [] false)).
    split; [vm_compute; reflexivity | reflexivity].
  - split; [exact Hturn |]. intros acts. apply Hactions.
    apply elem_of_cons. right. apply elem_of_cons. left. reflexivity.
Defined.

Lemma empty_missing_set_discards_actions_witness :
  MethodStubActions World.env [World.d1; World.d2; World.d6] World.fhApp = Ok None
  ∧ ∃ acts a, MethodStubActions World.env [World.d1] World.fhApp = Ok (Some acts)
              ∧ diagnosticTurn World.env World.fhApp World.d1 = Ok (Append a)
              ∧ a ∈ acts.
Proof.
  destruct request_of_d2 as (sc & Hreq & Hct & Hobj & Hip).
  assert (Hd1 : ∃ a, diagnosticTurn World.env World.fhApp World.d1 = Ok (Append a)).
  { vm_compute. eexists. reflexivity. }
  destruct Hd1 as (a1 & Hd1).
  destruct (empty_missing_set_discards_actions World.env World.fhApp
              [World.d1] [World.d6] World.d2 sc ∅) as (Hnil & Hlost).
  - reflexivity.
  - exact Hreq.
  - rewrite Hct, Hobj, Hip. vm_compute. reflexivity.
  - constructor; [| constructor]. exists (Append a1). exact Hd1.
  - split; [exact Hnil |]. destruct Hlost as (acts & Hacts & Hall).
    + constructor; [| constructor]. exists (Append a1). split; [exact Hd1 | discriminate].
    + exists acts, a1. split; [exact Hacts |]. split; [exact Hd1 |].
      apply (Hall World.d1 a1); [| exact Hd1]. apply elem_of_cons. left. reflexivity.
Defined.

(** ** C8: a position outside the results of the return statement *)

Section ReturnPosition.
Context {P : Type} `{Package P} (env : Env P).

Lemma returnIndexFrom_None (results : list ast.Expr) (pos : token.Pos) :
  (∀ r, r ∈ results → within pos r = false) →
  ∀ idx, returnIndexFrom idx results pos = None.
Proof.
  induction results as [| r results IH]; intros Hout idx; [reflexivity |].
  simpl. rewrite (Hout r) by (apply elem_of_cons; left; reflexivity).
  apply IH. intros r' Hr'. apply Hout. apply elem_of_cons. right. exact Hr'.
Qed.

(** C8, as the code has it.  Let the path of the diagnostic hold no
    variable declaration and hold a return statement, and let the position
    lie outside every result of that statement.  [getReturnIndex] returns
    an error and [getRequestFromReturn] returns it; [getImplementRequest]
    assigns that error to the blank identifier and returns no request.
    The turn of [MethodStubActions] on the diagnostic continues with the
    next diagnostic, and the call on that diagnostic alone returns the
    empty slice of actions and the nil error. *)
Theorem return_position_out_of_range_is_dropped (nodes : list ast.Node) (pkg : P)
    (pos : token.Pos) (rs : ast.ReturnStmt) :
  isVariableDeclaration nodes = None →
  isReturnStatement nodes = Some rs →
  (∀ r, r ∈ ast.Results rs → within pos r = false) →
  (∃ e, getReturnIndex rs pos = Err e
        ∧ getRequestFromReturn env pos nodes rs pkg = Err e)
  ∧ getImplementRequest env nodes pkg pos = Ok None
  ∧ ∀ fh d pgf,
      isStubDiagnostic d = true →
      GetParsedFile env fh NarrowestPackage = Ok (pkg, pgf) →
      getNodes env pgf d = Ok (nodes, pos) →
      resolveRequest env fh d = Ok None
      ∧ diagnosticTurn env fh d = Ok Continue
      ∧ MethodStubActions env [d] fh = Ok (Some []).
Proof.
  intros Hvar Hret Hout.
  assert (Hidx : ∃ e, getReturnIndex rs pos = Err e).
  { unfold getReturnIndex. rewrite (returnIndexFrom_None _ _ Hout). eexists. reflexivity. }
  destruct Hidx as (e & Hidx).
  assert (Hreq : getRequestFromReturn env pos nodes rs pkg = Err e).
  { unfold getRequestFromReturn. rewrite Hidx. reflexivity. }
  assert (Himpl : getImplementRequest env nodes pkg pos = Ok None).
  { unfold getImplementRequest. rewrite Hvar, Hret, Hreq. reflexivity. }
  split; [exists e; split; assumption |]. split; [exact Himpl |].
  intros fh d pgf Hfilter Hfile Hnodes.
  assert (Hresolve : resolveRequest env fh d = Ok None).
  { unfold resolveRequest. rewrite Hfile. simpl. rewrite Hnodes. simpl.
    rewrite Himpl. reflexivity. }
  assert (Hturn : diagnosticTurn env fh d = Ok Continue).
  { unfold diagnosticTurn. rewrite Hfilter, Hresolve. reflexivity. }
  split; [exact Hresolve |]. split; [exact Hturn |].
  unfold MethodStubActions. simpl. rewrite Hturn. reflexivity.
Qed.
End ReturnPosition.

Lemma return_position_out_of_range_is_dropped_witness :
  getImplementRequest World.env World.returnPath World.App 3314%Z = Ok None
  ∧ diagnosticTurn World.env World.fhApp World.d4' = Ok Continue.
Proof.
  destruct (return_position_out_of_range_is_dropped World.env World.returnPath
              World.App 3314%Z World.return4) as (_ & Himpl & Hturn).
  - reflexivity.
  - reflexivity.
  - intros r Hr. simpl in Hr. apply list_elem_of_singleton in Hr as ->. reflexivity.
  - split; [exact Himpl |].
    apply (Hturn World.fhApp World.d4' (mkPGF "app.go" (Some World.appFile))).
    + reflexivity.
    + reflexivity.
    + vm_compute. reflexivity.
Defined.

(** The diagnostic [d4'] of [app.go] starts at the keyword of
    [return C{}]: its path holds the return statement, its position is
    outside the one result, and [getReturnIndex] fails.  No error reaches
    the caller: [getImplementRequest] returns no request and
    [MethodStubActions] returns the empty slice and the nil error. *)
Lemma return_position_error_is_not_surfaced :
  getNodes World.env (mkPGF "app.go" (Some World.appFile)) World.d4'
  = Ok (World.returnPath, 3314%Z)
  ∧ isVariableDeclaration World.returnPath = None
  ∧ isReturnStatement World.returnPath = Some World.return4
  ∧ returnIndexFrom 0 (ast.Results World.return4) 3314%Z = None
  ∧ getRequestFromReturn World.env 3314%Z World.returnPath World.return4 World.App
    = Err (errorString "pos 3314 not within return statement bounds: [3314-3324]")
  ∧ getImplementRequest World.env World.returnPath World.App 3314%Z = Ok None
  ∧ MethodStubActions World.env [World.d4'] World.fhApp = Ok (Some []).
Proof.
  split; [vm_compute; reflexivity |]. split; [reflexivity |]. split; [reflexivity |].
  split; [reflexivity |]. split; [vm_compute; reflexivity |].
  split; [vm_compute; reflexivity |]. vm_compute. reflexivity.
Qed.

(** ** C9: the name the interface is shown under *)

Lemma length_append (s1 s2 : string) :
  String.length (s1 +:+ s2) = String.length s1 + String.length s2.
Proof. induction s1 as [| c s1 IH]; simpl; [reflexivity | rewrite IH; reflexivity]. Qed.

Section InterfaceName.
Context {P : Type} `{Package P} (env : Env P).

Lemma getIfaceName_inv (pkg : P) (ifacePkg : option P) (obj : types.Object)
    (name : string) :
  getIfaceName pkg ifacePkg obj = Ok name →
  ∃ ip, ifacePkg = Some ip
        ∧ (PkgPath pkg = PkgPath ip → name = types.ObjName obj)
        ∧ (PkgPath pkg ≠ PkgPath ip →
           name = PkgName ip +:+ "." +:+ types.ObjName obj)
        ∧ (name = types.ObjName obj ↔ PkgPath pkg = PkgPath ip).
Proof.
  unfold getIfaceName. destruct ifacePkg as [ip|]; [| discriminate]. simpl.
  intros Hname. exists ip. split; [reflexivity |].
  destruct (String.eqb (PkgPath pkg) (PkgPath ip)) eqn:Heq.
  - apply String.eqb_eq in Heq. injection Hname as <-.
    split; [reflexivity |]. split; [contradiction |]. tauto.
  - apply String.eqb_neq in Heq. injection Hname as <-.
    split; [contradiction |]. split; [reflexivity |]. split; [| contradiction].
    intros Hsame. apply (f_equal String.length) in Hsame.
    rewrite !length_append in Hsame. simpl in Hsame. lia.
Qed.

Lemma buildAction_inv (d : protocol.Diagnostic) (sc : stubContext)
    (l : list (missingInterface P)) (a : protocol.CodeAction) :
  buildAction env d sc l = Ok a →
  ∃ name,
    getIfaceName (scPkg sc) (ifacePkg (scRequest sc)) (ifaceObj (scRequest sc)) = Ok name
    ∧ protocol.Title a = "Implement " +:+ name
    ∧ protocol.Diagnostics a = [d].
Proof.
  unfold buildAction. intros Hrun.
  apply bind_Ok in Hrun as ([buf ct'] & _ & Hrun).
  apply bind_Ok in Hrun as (concreteFile & _ & Hrun).
  apply bind_Ok in Hrun as (concreteSrc & _ & Hrun).
  apply bind_Ok in Hrun as (decl & _ & Hrun).
  destruct (bool_decide _) in Hrun; [discriminate |].
  apply bind_Ok in Hrun as (newF & _ & Hrun).
  apply bind_Ok in Hrun as (source & _ & Hrun).
  apply bind_Ok in Hrun as ([p pgf] & _ & Hrun).
  apply bind_Ok in Hrun as (edits & _ & Hrun).
  apply bind_Ok in Hrun as (name & Hname & Hrun).
  injection Hrun as <-. exists name. auto.
Qed.

Lemma renderMethod_inv (pkg : P) (ir : stubRequest P) (mi : missingInterface P)
    (m : types.Func) (ct ct' : concreteType) (stub : string) :
  renderMethod env pkg ir mi m ct = Ok (stub, ct') →
  ∃ name concrete sig,
    getIfaceName pkg (ifacePkg ir) (ifaceObj ir) = Ok name
    ∧ stub = tmpl (mkMethodData (types.fn_Name m) name concrete sig) +:+ newline.
Proof.
  unfold renderMethod. intros Hrun.
  apply bind_Ok in Hrun as (field & _ & Hrun).
  destruct field as [[x | X Sel | k p e kids] | rs | vs | what p e]; try discriminate.
  destruct k; try discriminate.
  apply bind_Ok in Hrun as (n & _ & Hrun).
  apply bind_Ok in Hrun as ([n' ct''] & _ & Hrun).
  apply bind_Ok in Hrun as (sig & _ & Hrun).
  apply bind_Ok in Hrun as (name & Hname & Hrun).
  injection Hrun as <- <-. eexists name, _, _. split; [exact Hname | reflexivity].
Qed.

Lemma resolveRequest_inv (fh : VersionedFileHandle) (d : protocol.Diagnostic)
    (sc : stubContext) :
  resolveRequest env fh d = Ok (Some sc) →
  ∃ pgf nodes pos,
    GetParsedFile env fh NarrowestPackage = Ok (scPkg sc, pgf)
    ∧ getNodes env pgf d = Ok (nodes, pos)
    ∧ getImplementRequest env nodes (scPkg sc) pos = Ok (Some (scRequest sc))
    ∧ types.Pkg (concreteObj (scRequest sc)) = Some (pkg (scConcreteType sc)).
Proof.
  unfold resolveRequest. intros Hrun.
  apply bind_Ok in Hrun as ([pkg0 pgf] & Hfile & Hrun). apply wrap_Ok in Hfile.
  apply bind_Ok in Hrun as ([nodes pos] & Hnodes & Hrun). apply wrap_Ok in Hnodes.
  apply bind_Ok in Hrun as (ir & Hir & Hrun).
  destruct ir as [ir|]; [| discriminate].
  apply bind_Ok in Hrun as ([concreteFile concreteFH] & _ & Hrun).
  apply bind_Ok in Hrun as (ctpkg & Hpkg & Hrun). apply deref_Ok in Hpkg.
  injection Hrun as <-. simpl. exists pgf, nodes, pos. auto.
Qed.

Lemma diagnosticTurn_Append_inv (fh : VersionedFileHandle) (d : protocol.Diagnostic)
    (a : protocol.CodeAction) :
  diagnosticTurn env fh d = Ok (Append a) →
  isStubDiagnostic d = true
  ∧ ∃ sc l v,
      resolveRequest env fh d = Ok (Some sc)
      ∧ missingMethods env (scConcreteType sc) (ifaceObj (scRequest sc))
          (ifacePkg (scRequest sc)) ∅ = Ok (l, v)
      ∧ l ≠ []
      ∧ buildAction env d sc l = Ok a.
Proof.
  unfold diagnosticTurn. intros Hrun.
  destruct (isStubDiagnostic d); [| discriminate]. split; [reflexivity |]. simpl in Hrun.
  apply bind_Ok in Hrun as (sc & Hreq & Hrun). destruct sc as [sc|]; [| discriminate].
  apply bind_Ok in Hrun as ([l v] & Hmissing & Hrun). apply wrap_Ok in Hmissing.
  destruct (bool_decide (length l = 0)) eqn:Hlen; [discriminate |].
  apply bool_decide_eq_false in Hlen.
  apply bind_Ok in Hrun as (a' & Hbuild & Hrun). injection Hrun as <-.
  exists sc, l, v. refine (conj Hreq (conj Hmissing (conj _ Hbuild))).
  intros ->. apply Hlen. reflexivity.
Qed.

(** C9, as the code has it.  The title of an action of
    [MethodStubActions] is [Implement] followed by the name of the
    interface, and every stub of the action names the interface the same
    way: bare exactly when the package of the file of the diagnostic (the
    file [MethodStubActions] is called on) has the path of the package of
    the interface, and qualified by the name of the package of the
    interface otherwise.  The package of the concrete type has no part in
    it. *)
Theorem interface_name_follows_diagnostic_package (fh : VersionedFileHandle)
    (d : protocol.Diagnostic) (a : protocol.CodeAction) :
  diagnosticTurn env fh d = Ok (Append a) →
  ∃ sc pgf ip name,
    resolveRequest env fh d = Ok (Some sc)
    ∧ GetParsedFile env fh NarrowestPackage = Ok (scPkg sc, pgf)
    ∧ ifacePkg (scRequest sc) = Some ip
    ∧ protocol.Title a = "Implement " +:+ name
    ∧ (name = types.ObjName (ifaceObj (scRequest sc))
       ↔ PkgPath (scPkg sc) = PkgPath ip)
    ∧ (PkgPath (scPkg sc) ≠ PkgPath ip →
       name = PkgName ip +:+ "." +:+ types.ObjName (ifaceObj (scRequest sc)))
    ∧ ∀ mi m ct stub ct',
        renderMethod env (scPkg sc) (scRequest sc) mi m ct = Ok (stub, ct') →
        ∃ concrete sig,
          stub = tmpl (mkMethodData (types.fn_Name m) name concrete sig) +:+ newline.
Proof.
  intros Hturn.
  apply diagnosticTurn_Append_inv in Hturn as (_ & sc & l & v & Hreq & _ & _ & Hbuild).
  apply buildAction_inv in Hbuild as (name & Hname & Htitle & _).
  destruct (resolveRequest_inv fh d sc Hreq) as (pgf & _ & _ & Hfile & _).
  destruct (getIfaceName_inv _ _ _ _ Hname) as (ip & Hip & _ & Hqual & Hbare).
  exists sc, pgf, ip, name.
  refine (conj Hreq (conj Hfile (conj Hip (conj Htitle (conj Hbare (conj Hqual _)))))).
  intros mi m ct stub ct' Hrender.
  apply renderMethod_inv in Hrender as (name' & concrete & sig & Hname' & ->).
  rewrite Hname in Hname'. injection Hname' as <-. exists concrete, sig. reflexivity.
Qed.
End InterfaceName.

Lemma interface_name_follows_diagnostic_package_witness :
  ∃ a, diagnosticTurn World.env World.fhStore World.d5 = Ok (Append a)
       ∧ ∃ sc ip name,
           resolveRequest World.env World.fhStore World.d5 = Ok (Some sc)
           ∧ ifacePkg (scRequest sc) = Some ip
           ∧ protocol.Title a = "Implement " +:+ name
           ∧ (name = types.ObjName (ifaceObj (scRequest sc))
              ↔ PkgPath (scPkg sc) = PkgPath ip).
Proof.
  assert (Hd5 : ∃ a, diagnosticTurn World.env World.fhStore World.d5 = Ok (Append a)).
  { vm_compute. eexists. reflexivity. }
  destruct Hd5 as (a & Hd5). exists a. split; [exact Hd5 |].
  destruct (interface_name_follows_diagnostic_package World.env World.fhStore World.d5
              a Hd5) as (sc & pgf & ip & name & Hreq & _ & Hip & Htitle & Hbare & _).
  exists sc, ip, name. auto.
Defined.

(** The diagnostic [d5] is on [var _ A = models.Repo{}] in [store.go]: the
    interface [A] is of package [store], the concrete type [Repo] of
    package [models].  The two packages differ, and yet the title of the
    action and the comment of the stub, which is written to [user.go] of
    package [models], name the interface [A], without its package. *)
Lemma interface_name_ignores_concrete_package :
  ∃ sc a edit,
    resolveRequest World.env World.fhStore World.d5 = Ok (Some sc)
    ∧ PkgPath <$> ifacePkg (scRequest sc) = Some "example.com/store"
    ∧ types.Path <$> types.Pkg (concreteObj (scRequest sc)) = Some "example.com/models"
    ∧ PkgPath (concretePkg (scRequest sc)) = "example.com/models"
    ∧ diagnosticTurn World.env World.fhStore World.d5 = Ok (Append a)
    ∧ protocol.Title a = "Implement A"
    ∧ protocol.DocumentChanges (protocol.Edit a)
      = [protocol.mkTextDocumentEdit (protocol.mkVTDI 1 "user.go") [edit]]
    ∧ Contains (protocol.NewText edit) "// F implements A" = true
    ∧ Contains (protocol.NewText edit) "store.A" = false.
Proof.
  vm_compute. eexists _, _, _.
  repeat (split; [reflexivity |]). reflexivity.
Qed.

(** * Further properties of the code *)

(** ** The filter and the shape of the actions *)

Section Filter.
Context {P : Type} `{Package P} (env : Env P) (fh : VersionedFileHandle).

Lemma isStubDiagnostic_compiler (d : protocol.Diagnostic) :
  isStubDiagnostic d = true →
  protocol.Source d = "compiler"
  ∧ (Contains (protocol.Message d) "missing method" = true
     ∨ HasPrefix (protocol.Message d) "cannot convert" = true).
Proof.
  unfold isStubDiagnostic, isMissingMethodErr, isConversionErr.
  destruct (String.eqb (protocol.Source d) "compiler") eqn:Hsrc; simpl.
  - apply String.eqb_eq in Hsrc. intros Hmsg. split; [exact Hsrc |].
    destruct (Contains (protocol.Message d) "missing method"); [left; reflexivity |].
    destruct (HasPrefix (protocol.Message d) "cannot convert"); [right; reflexivity |].
    discriminate.
  - discriminate.
Qed.

(** X1.
    Diagnostics that do not come from the compiler, or whose message
    neither holds [missing method] nor starts with [cannot convert], are
    skipped without a look at the snapshot: on a list of such diagnostics
    [MethodStubActions] returns the empty slice, not nil, and no error,
    whatever the snapshot. *)
Theorem other_diagnostics_are_skipped (ds : list protocol.Diagnostic) :
  (∀ d, d ∈ ds →
        protocol.Source d ≠ "compiler"
        ∨ (Contains (protocol.Message d) "missing method" = false
           ∧ HasPrefix (protocol.Message d) "cannot convert" = false)) →
  MethodStubActions env ds fh = Ok (Some []).
Proof.
  unfold MethodStubActions. generalize (@nil protocol.CodeAction) as actions.
  induction ds as [| d ds IH]; intros actions Hskip; [reflexivity |].
  assert (Hd : isStubDiagnostic d = false).
  { destruct (isStubDiagnostic d) eqn:Hf; [| reflexivity].
    apply isStubDiagnostic_compiler in Hf as [Hsrc Hmsg].
    destruct (Hskip d) as [Hne | [Hm Hc]]; [apply elem_of_cons; left; reflexivity | |].
    - contradiction.
    - destruct Hmsg; congruence. }
  simpl. unfold diagnosticTurn. rewrite Hd. simpl. apply IH.
  intros d' Hd'. apply Hskip. apply elem_of_cons. right. exact Hd'.
Qed.
End Filter.

Section Shape.
Context {P : Type} `{Package P} (env : Env P) (fh : VersionedFileHandle).

Lemma buildAction_shape (d : protocol.Diagnostic) (sc : stubContext)
    (l : list (missingInterface P)) (a : protocol.CodeAction) :
  buildAction env d sc l = Ok a →
  protocol.Kind a = protocol.QuickFix
  ∧ protocol.Diagnostics a = [d]
  ∧ ∃ edits,
      protocol.Edit a
      = protocol.mkWorkspaceEdit
          [protocol.mkTextDocumentEdit
             (protocol.mkVTDI (fhVersion (scConcreteFH sc)) (fhURI (scConcreteFH sc)))
             edits].
Proof.
  unfold buildAction. intros Hrun.
  apply bind_Ok in Hrun as ([buf ct'] & _ & Hrun).
  apply bind_Ok in Hrun as (concreteFile & _ & Hrun).
  apply bind_Ok in Hrun as (concreteSrc & _ & Hrun).
  apply bind_Ok in Hrun as (decl & _ & Hrun).
  destruct (bool_decide _) in Hrun; [discriminate |].
  apply bind_Ok in Hrun as (newF & _ & Hrun).
  apply bind_Ok in Hrun as (source & _ & Hrun).
  apply bind_Ok in Hrun as ([p pgf] & _ & Hrun).
  apply bind_Ok in Hrun as (edits & _ & Hrun).
  apply bind_Ok in Hrun as (name & _ & Hrun).
  injection Hrun as <-. simpl. split; [reflexivity |]. split; [reflexivity |].
  exists edits. reflexivity.
Qed.

Lemma resolveRequest_file (d : protocol.Diagnostic) (sc : stubContext) :
  resolveRequest env fh d = Ok (Some sc) →
  scConcreteFH sc
  = FindFile env (PositionFilename env (types.ObjPos (concreteObj (scRequest sc)))).
Proof.
  unfold resolveRequest. intros Hrun.
  apply bind_Ok in Hrun as ([pkg0 pgf] & _ & Hrun).
  apply bind_Ok in Hrun as ([nodes pos] & _ & Hrun).
  apply bind_Ok in Hrun as (ir & _ & Hrun).
  destruct ir as [ir|]; [| discriminate].
  apply bind_Ok in Hrun as ([concreteFile concreteFH] & Hfile & Hrun).
  apply wrap_Ok in Hfile. unfold getFile in Hfile.
  apply bind_Ok in Hfile as ([p0 goFile] & _ & Hfile). injection Hfile as _ <-.
  apply bind_Ok in Hrun as (ctpkg & _ & Hrun). injection Hrun as <-. reflexivity.
Qed.

Lemma actionsLoop_sublist (ds : list protocol.Diagnostic) :
  ∀ actions acts,
    actionsLoop env fh ds actions = Ok (Some acts) →
    ∃ ds' new,
      acts = actions ++ new ∧ sublist ds' ds
      ∧ Forall2 (λ d a, diagnosticTurn env fh d = Ok (Append a)) ds' new.
Proof.
  induction ds as [| d ds IH]; intros actions acts Hrun; simpl in Hrun.
  - injection Hrun as <-. exists [], []. rewrite app_nil_r.
    split; [reflexivity |]. split; constructor.
  - apply bind_Ok in Hrun as (t & Ht & Hrun). destruct t as [| a |]; [| | discriminate].
    + destruct (IH _ _ Hrun) as (ds' & new & -> & Hsub & Hall).
      exists ds', new. split; [reflexivity |]. split; [| exact Hall].
      apply sublist_cons. exact Hsub.
    + destruct (IH _ _ Hrun) as (ds' & new & -> & Hsub & Hall).
      exists (d :: ds'), (a :: new). rewrite <- app_assoc. split; [reflexivity |].
      split; [apply sublist_skip; exact Hsub | constructor; assumption].
Qed.

(** X2.
    The actions [MethodStubActions] returns follow the diagnostics: they
    are the actions of the turns on a sublist of the diagnostics, in the
    order of the list.  Each one is a quick fix for its one diagnostic,
    which passes the filter, and holds one edit of one document: the file
    that declares the concrete type, at the version of its file handle,
    whichever file the diagnostics are of. *)
Theorem actions_follow_diagnostics (ds : list protocol.Diagnostic)
    (acts : list protocol.CodeAction) :
  MethodStubActions env ds fh = Ok (Some acts) →
  ∃ ds',
    sublist ds' ds
    ∧ Forall2 (λ d a,
        isStubDiagnostic d = true
        ∧ diagnosticTurn env fh d = Ok (Append a)
        ∧ protocol.Kind a = protocol.QuickFix
        ∧ protocol.Diagnostics a = [d]
        ∧ ∃ sc edits,
            resolveRequest env fh d = Ok (Some sc)
            ∧ protocol.Edit a
              = protocol.mkWorkspaceEdit
                  [protocol.mkTextDocumentEdit
                     (protocol.mkVTDI
                        (fhVersion
                           (FindFile env
                              (PositionFilename env
                                 (types.ObjPos (concreteObj (scRequest sc))))))
                        (fhURI
                           (FindFile env
                              (PositionFilename env
                                 (types.ObjPos (concreteObj (scRequest sc)))))))
                     edits]) ds' acts.
Proof.
  unfold MethodStubActions. intros Hrun.
  apply actionsLoop_sublist in Hrun as (ds' & new & -> & Hsub & Hall).
  exists ds'. split; [exact Hsub |]. simpl. clear Hsub.
  induction Hall as [| d a ds' new Hturn _ IH]; constructor; [| exact IH].
  split; [apply (diagnosticTurn_Append_inv env fh d a Hturn) |].
  split; [exact Hturn |].
  destruct (diagnosticTurn_Append_inv env fh d a Hturn)
    as (_ & sc & l & v & Hreq & _ & _ & Hbuild).
  destruct (buildAction_shape d sc l a Hbuild) as (Hkind & Hdiag & edits & Hedit).
  split; [exact Hkind |]. split; [exact Hdiag |].
  exists sc, edits. split; [exact Hreq |].
  rewrite <- (resolveRequest_file d sc Hreq). exact Hedit.
Qed.
End Shape.

(** ** The index of the returned value *)

Lemma within_spec (pos : token.Pos) (r : ast.Expr) :
  within pos r = true ↔ (ast.Pos r ≤ pos ∧ pos ≤ ast.End r)%Z.
Proof.
  unfold within. rewrite andb_true_iff, !bool_decide_eq_true. reflexivity.
Qed.

Lemma returnIndexFrom_Some (results : list ast.Expr) (pos : token.Pos) :
  ∀ base idx,
    returnIndexFrom base results pos = Some idx →
    ∃ i r, idx = base + i ∧ results !! i = Some r ∧ within pos r = true
           ∧ ∀ j r', j < i → results !! j = Some r' → within pos r' = false.
Proof.
  induction results as [| r0 results IH]; intros base idx Hrun; [discriminate |].
  simpl in Hrun. destruct (within pos r0) eqn:Hin.
  - injection Hrun as <-. exists 0, r0. split; [lia |]. split; [reflexivity |].
    split; [exact Hin |]. intros j r' Hj. lia.
  - destruct (IH _ _ Hrun) as (i & r & -> & Hi & Hr & Hbefore).
    exists (S i), r. split; [lia |]. split; [exact Hi |]. split; [exact Hr |].
    intros [| j] r' Hj Hr'.
    + simpl in Hr'. injection Hr' as <-. exact Hin.
    + simpl in Hr'. apply (Hbefore j r'); [lia | exact Hr'].
Qed.

(** X3.
    [getReturnIndex] returns the index of the first result of the return
    statement whose extent holds the position, ends included; the index
    is in range, so [rs.Results[idx]] of [getRequestFromReturn] does not
    panic.  It fails exactly when no result holds the position. *)
Theorem getReturnIndex_first_result (rs : ast.ReturnStmt) (pos : token.Pos) :
  (∀ idx, getReturnIndex rs pos = Ok idx →
     ∃ r, index (ast.Results rs) idx = Ok r
          ∧ (ast.Pos r ≤ pos ∧ pos ≤ ast.End r)%Z
          ∧ ∀ j r', j < idx → ast.Results rs !! j = Some r' →
                    ¬ (ast.Pos r' ≤ pos ∧ pos ≤ ast.End r')%Z)
  ∧ ((∃ e, getReturnIndex rs pos = Err e)
     ↔ ∀ r, r ∈ ast.Results rs → ¬ (ast.Pos r ≤ pos ∧ pos ≤ ast.End r)%Z)
  ∧ ∀ msg, getReturnIndex rs pos ≠ Panic msg.
Proof.
  unfold getReturnIndex. split; [| split].
  - intros idx Hrun.
    destruct (returnIndexFrom 0 (ast.Results rs) pos) as [i|] eqn:Hidx; [| discriminate].
    injection Hrun as ->.
    apply returnIndexFrom_Some in Hidx as (i & r & -> & Hi & Hr & Hbefore).
    exists r. unfold index. simpl. rewrite Hi. split; [reflexivity |].
    split; [apply within_spec, Hr |].
    intros j r' Hj Hr' Hwithin. apply within_spec in Hwithin.
    rewrite (Hbefore j r' Hj Hr') in Hwithin. discriminate.
  - split.
    + intros (e & Hrun) r Hr Hwithin.
      destruct (returnIndexFrom 0 (ast.Results rs) pos) as [i|] eqn:Hidx; [discriminate |].
      clear Hrun. revert Hidx. generalize 0.
      induction (ast.Results rs) as [| r0 results IH]; intros base Hidx.
      * apply elem_of_nil in Hr. destruct Hr.
      * simpl in Hidx. destruct (within pos r0) eqn:Hin; [discriminate |].
        apply elem_of_cons in Hr as [-> | Hr].
        -- apply within_spec in Hwithin. congruence.
        -- exact (IH Hr _ Hidx).
    + intros Hout. rewrite returnIndexFrom_None; [eexists; reflexivity |].
      intros r Hr. destruct (within pos r) eqn:Hin; [| reflexivity].
      apply within_spec in Hin. destruct (Hout r Hr Hin).
  - intros msg. destruct (returnIndexFrom 0 (ast.Results rs) pos); discriminate.
Qed.

(** ** The identifiers of the request *)

Lemma inspectIdents_app {S : Type} (f : ast.Ident → S → result S)
    (l1 l2 : list ast.Ident) (s : S) :
  inspectIdents f (l1 ++ l2) s = (s' ← inspectIdents f l1 s; inspectIdents f l2 s').
Proof.
  revert s. induction l1 as [| x l1 IH]; intros s; simpl; [reflexivity |].
  destruct (f x s) as [s1 | e | msg]; simpl; [apply IH | reflexivity | reflexivity].
Qed.

Lemma inspectIdents_not_Err {S : Type} (f : ast.Ident → S → result S)
    (l : list ast.Ident) :
  (∀ x s e, f x s ≠ Err e) → ∀ s e, inspectIdents f l s ≠ Err e.
Proof.
  intros Hf. induction l as [| x l IH]; intros s e; simpl; [discriminate |].
  destruct (f x s) as [s1 | e1 | msg] eqn:Hx; simpl;
    [apply IH | destruct (Hf _ _ _ Hx) | discriminate].
Qed.

Lemma inspectIdents_unchanged {S : Type} (f : ast.Ident → S → result S)
    (l : list ast.Ident) (s : S) :
  (∀ x, x ∈ l → f x s = Ok s) → inspectIdents f l s = Ok s.
Proof.
  induction l as [| x l IH]; intros Hf; simpl; [reflexivity |].
  rewrite Hf by (apply elem_of_cons; left; reflexivity). simpl.
  apply IH. intros y Hy. apply Hf. apply elem_of_cons. right. exact Hy.
Qed.

Section Identifiers.
Context {P : Type} `{Package P} (env : Env P).

Lemma returnIdent_not_Err (pkg : P) (x : ast.Ident) (ir : option (types.Object * P))
    (e : error) :
  returnIdent pkg x ir ≠ Err e.
Proof.
  unfold returnIdent. destruct (UsesAt (GetTypesInfo pkg) x) as [obj|]; [| discriminate].
  destruct (types.Pkg obj) as [objPkg|]; simpl; [| discriminate].
  destruct (negb _).
  - destruct (GetImport pkg (types.Path objPkg)); try discriminate.
    destruct (types.Kind obj); discriminate.
  - destruct (types.Kind obj); discriminate.
Qed.

Lemma specIdent_not_Err (pkg : P) (x : ast.Ident) (st : option types.Object * option P)
    (e : error) :
  specIdent pkg x st ≠ Err e.
Proof.
  unfold specIdent. destruct (UsesAt (GetTypesInfo pkg) x) as [obj|]; [| discriminate].
  destruct (types.Kind obj); try discriminate.
  destruct (types.Pkg obj) as [objPkg|]; simpl; [| discriminate].
  destruct (negb _); [| discriminate].
  destruct (GetImport pkg (types.Path objPkg)); discriminate.
Qed.

(** An identifier of the universe (no package) among those a walk
    visits: the walk panics, there or earlier. *)
Lemma returnIdents_universe (pkg : P) (pre post : list ast.Ident) (x : ast.Ident)
    (obj : types.Object) (ir : option (types.Object * P)) :
  UsesAt (GetTypesInfo pkg) x = Some obj → types.Pkg obj = None →
  ∃ msg, inspectIdents (returnIdent pkg) (pre ++ x :: post) ir = Panic msg.
Proof.
  intros Huse Hpkg. rewrite inspectIdents_app.
  destruct (inspectIdents (returnIdent pkg) pre ir) as [s | e | msg] eqn:Hpre; simpl.
  - unfold returnIdent. rewrite Huse, Hpkg. simpl. eexists. reflexivity.
  - destruct (inspectIdents_not_Err _ pre (returnIdent_not_Err pkg) _ _ Hpre).
  - eexists. reflexivity.
Qed.

Lemma specIdents_universe (pkg : P) (pre post : list ast.Ident) (x : ast.Ident)
    (obj : types.Object) (st : option types.Object * option P) :
  UsesAt (GetTypesInfo pkg) x = Some obj → types.Kind obj = types.TypeName →
  types.Pkg obj = None →
  ∃ msg, inspectIdents (specIdent pkg) (pre ++ x :: post) st = Panic msg.
Proof.
  intros Huse Hkind Hpkg. rewrite inspectIdents_app.
  destruct (inspectIdents (specIdent pkg) pre st) as [s | e | msg] eqn:Hpre; simpl.
  - unfold specIdent. rewrite Huse, Hkind, Hpkg. simpl. eexists. reflexivity.
  - destruct (inspectIdents_not_Err _ pre (specIdent_not_Err pkg) _ _ Hpre).
  - eexists. reflexivity.
Qed.
End Identifiers.

(** ** Requests that make the call panic *)

Section Reached.
Context {P : Type} `{Package P} (env : Env P) (fh : VersionedFileHandle).

(** A panic or an error of a turn ends the call, when the turns before it
    go on. *)
Lemma actionsLoop_stops (pre post : list protocol.Diagnostic) (d : protocol.Diagnostic) :
  Forall (λ d', ∃ t, diagnosticTurn env fh d' = Ok t ∧ t ≠ ReturnNil) pre →
  (∀ msg, diagnosticTurn env fh d = Panic msg →
          MethodStubActions env (pre ++ d :: post) fh = Panic msg)
  ∧ (∀ e, diagnosticTurn env fh d = Err e →
          MethodStubActions env (pre ++ d :: post) fh = Err e).
Proof.
  intros Hpre. unfold MethodStubActions.
  destruct (actionsLoop_reaches env fh pre (d :: post) [] Hpre) as (actions & ->).
  split; intros x Hd; simpl; rewrite Hd; reflexivity.
Qed.

Variables (d : protocol.Diagnostic) (pkg : P) (pgf : ParsedGoFile)
  (nodes : list ast.Node) (pos : token.Pos).
Hypothesis Hfilter : isStubDiagnostic d = true.
Hypothesis Hfile : GetParsedFile env fh NarrowestPackage = Ok (pkg, pgf).
Hypothesis Hnodes : getNodes env pgf d = Ok (nodes, pos).

Lemma diagnosticTurn_reached :
  diagnosticTurn env fh d
  = (sc ← (ir ← getImplementRequest env nodes pkg pos;
           match ir with
           | None => Ok None
           | Some ir =>
               '(concreteFile, concreteFH) ←
                 wrap "getFile(concrete)" (getFile env (concreteObj ir));
               ctpkg ← deref (types.Pkg (concreteObj ir));
               Ok (Some (mkStubContext pkg ir concreteFile concreteFH
                           {| source.pkg := ctpkg;
                              file := concreteFile;
                              tms := NewMethodSet env (types.ObjType (concreteObj ir));
                              pms := NewMethodSet env
                                       (types.Pointer (types.ObjType (concreteObj ir)));
                              addedImports := [] |}))
           end);
     match sc with
     | None => Ok Continue
     | Some sc =>
         '(missing, _) ← wrap "missingMethods"
                           (missingMethods env (scConcreteType sc)
                              (ifaceObj (scRequest sc)) (ifacePkg (scRequest sc)) ∅);
         if bool_decide (length missing = 0) then Ok ReturnNil else
         action ← buildAction env d sc missing;
         Ok (Append action)
     end).
Proof.
  unfold diagnosticTurn, resolveRequest. rewrite Hfilter, Hfile. simpl.
  rewrite Hnodes. reflexivity.
Qed.

Lemma request_panic_is_turn_panic (msg : string) :
  getImplementRequest env nodes pkg pos = Panic msg →
  diagnosticTurn env fh d = Panic msg.
Proof. intros Hreq. rewrite diagnosticTurn_reached, Hreq. reflexivity. Qed.

(** X4.
    A variable declaration without a value, such as
    [var z [len(...)]int] with the diagnostic inside its type: the
    declaration is in the path, [fromValueSpec] indexes its empty list of
    values at 0, and the call panics. *)
Theorem declaration_without_value_panics (vs : ast.ValueSpec)
    (pre post : list protocol.Diagnostic) :
  isVariableDeclaration nodes = Some vs → ast.Values vs = [] →
  Forall (λ d', ∃ t, diagnosticTurn env fh d' = Ok t ∧ t ≠ ReturnNil) pre →
  fromValueSpec vs pkg pos = Panic "index out of range"
  ∧ MethodStubActions env (pre ++ d :: post) fh = Panic "index out of range".
Proof.
  intros Hvs Hvalues Hpre.
  assert (Hfrom : fromValueSpec vs pkg pos = Panic "index out of range").
  { unfold fromValueSpec, valueIndex. rewrite Hvalues. reflexivity. }
  split; [exact Hfrom |].
  apply (actionsLoop_stops pre post d Hpre). apply request_panic_is_turn_panic.
  unfold getImplementRequest. rewrite Hvs. exact Hfrom.
Qed.

(** X5.
    A type name of the universe ([error], [int], ...) in the type of a
    variable declaration, as in [var _ error = T{}]: [fromValueSpec] calls
    [Path] on the nil package of its object, and the call panics. *)
Theorem universe_type_in_declaration_panics (vs : ast.ValueSpec) (t v : ast.Expr)
    (before after : list ast.Ident) (x : ast.Ident) (obj : types.Object)
    (pre post : list protocol.Diagnostic) :
  isVariableDeclaration nodes = Some vs →
  ast.Values vs !! valueIndex vs pos = Some v →
  ast.SpecType vs = Some t →
  ast.idents t = before ++ x :: after →
  UsesAt (GetTypesInfo pkg) x = Some obj → types.Kind obj = types.TypeName →
  types.Pkg obj = None →
  Forall (λ d', ∃ t, diagnosticTurn env fh d' = Ok t ∧ t ≠ ReturnNil) pre →
  ∃ msg, fromValueSpec vs pkg pos = Panic msg
         ∧ MethodStubActions env (pre ++ d :: post) fh = Panic msg.
Proof.
  intros Hvs Hv Ht Hidents Huse Hkind Hpkg Hpre.
  destruct (specIdents_universe pkg before after x obj (None, None) Huse Hkind Hpkg)
    as (msg & Hwalk).
  assert (Hfrom : fromValueSpec vs pkg pos = Panic msg).
  { unfold fromValueSpec, index. rewrite Hv, Ht. simpl.
    unfold inspectNode. rewrite Hidents, Hwalk. reflexivity. }
  exists msg. split; [exact Hfrom |].
  apply (actionsLoop_stops pre post d Hpre). apply request_panic_is_turn_panic.
  unfold getImplementRequest. rewrite Hvs. exact Hfrom.
Qed.

(** X6.
    An identifier of the universe ([true], [nil], [len], [int], ...) in the
    value a return statement returns, as in [return Flag{On: true}]:
    [getRequestFromReturn] calls [Path] on the nil package of its object,
    whatever the object is, and the call panics. *)
Theorem universe_identifier_in_return_panics (rs : ast.ReturnStmt) (idx : nat)
    (n : ast.Expr) (before after : list ast.Ident) (x : ast.Ident) (obj : types.Object)
    (pre post : list protocol.Diagnostic) :
  isVariableDeclaration nodes = None → isReturnStatement nodes = Some rs →
  getReturnIndex rs pos = Ok idx → ast.Results rs !! idx = Some n →
  (∀ p e kids, n ≠ ast.ENode ast.MapType p e kids) →
  (∀ p e kids, n ≠ ast.ENode ast.ArrayType p e kids) →
  ast.idents n = before ++ x :: after →
  UsesAt (GetTypesInfo pkg) x = Some obj → types.Pkg obj = None →
  Forall (λ d', ∃ t, diagnosticTurn env fh d' = Ok t ∧ t ≠ ReturnNil) pre →
  ∃ msg, getRequestFromReturn env pos nodes rs pkg = Panic msg
         ∧ MethodStubActions env (pre ++ d :: post) fh = Panic msg.
Proof.
  intros Hvar Hret Hidx Hn Hmap Harray Hidents Huse Hpkg Hpre.
  destruct (returnIdents_universe pkg before after x obj None Huse Hpkg) as (msg & Hwalk).
  assert (Hreq : getRequestFromReturn env pos nodes rs pkg = Panic msg).
  { unfold getRequestFromReturn, index. rewrite Hidx. simpl. rewrite Hn. simpl.
    rewrite Hidents, Hwalk.
    destruct n as [y | X Sel | k p e kids]; try reflexivity.
    destruct k; try reflexivity; [destruct (Hmap p e kids eq_refl)
                                 | destruct (Harray p e kids eq_refl)]. }
  exists msg. split; [exact Hreq |].
  apply (actionsLoop_stops pre post d Hpre). apply request_panic_is_turn_panic.
  unfold getImplementRequest. rewrite Hvar, Hret, Hreq. reflexivity.
Qed.

(** X7.
    A function whose result at the index of the returned value is a named
    type of the universe, that is [error]: once a concrete type is found
    in the returned value, [getRequestFromReturn] calls [Path] on the nil
    package of [error], and the call panics. *)
Theorem return_as_error_panics (rs : ast.ReturnStmt) (idx : nat) (n : ast.Expr)
    (found : types.Object * P) (fi : FuncInfo) (name : string) (npos : token.Pos)
    (u : types.Type_) (pre post : list protocol.Diagnostic) :
  isVariableDeclaration nodes = None → isReturnStatement nodes = Some rs →
  getReturnIndex rs pos = Ok idx → ast.Results rs !! idx = Some n →
  (∀ p e kids, n ≠ ast.ENode ast.MapType p e kids) →
  (∀ p e kids, n ≠ ast.ENode ast.ArrayType p e kids) →
  inspectIdents (returnIdent pkg) (ast.idents n) None = Ok (Some found) →
  EnclosingFunction env nodes (GetTypesInfo pkg) = Some fi →
  SigResults fi !! idx = Some (types.Named name None npos u) →
  Forall (λ d', ∃ t, diagnosticTurn env fh d' = Ok t ∧ t ≠ ReturnNil) pre →
  getRequestFromReturn env pos nodes rs pkg = Panic nilDeref
  ∧ MethodStubActions env (pre ++ d :: post) fh = Panic nilDeref.
Proof.
  intros Hvar Hret Hidx Hn Hmap Harray Hwalk Hfun Hresult Hpre.
  assert (Hreq : getRequestFromReturn env pos nodes rs pkg = Panic nilDeref).
  { unfold getRequestFromReturn, index. rewrite Hidx. simpl. rewrite Hn. simpl.
    rewrite Hwalk. destruct found as [cobj cpkg]. simpl. rewrite Hfun, Hresult. simpl.
    destruct n as [y | X Sel | k p e kids]; try reflexivity.
    destruct k; try reflexivity; [destruct (Hmap p e kids eq_refl)
                                 | destruct (Harray p e kids eq_refl)]. }
  split; [exact Hreq |].
  apply (actionsLoop_stops pre post d Hpre). apply request_panic_is_turn_panic.
  unfold getImplementRequest. rewrite Hvar, Hret, Hreq. reflexivity.
Qed.
End Reached.

Section EmbeddedUniverse.
Context {P : Type} `{Package P} (env : Env P).

Lemma embeddedLoop_app (ct : concreteType) (ip : option P) (l1 l2 : list types.Type_) :
  ∀ missing0 visited,
    embeddedLoop env ct ip (l1 ++ l2) missing0 visited
    = ('(missing1, visited1) ← embeddedLoop env ct ip l1 missing0 visited;
       embeddedLoop env ct ip l2 missing1 visited1).
Proof.
  induction l1 as [| e l1 IH]; intros missing0 visited; [reflexivity |].
  simpl. destruct e as [| name | n p pos u | elem | elem | | ps rs vr | ms0 es0];
    try reflexivity.
  destruct (deref p) as [epkg | e | msg]; simpl; try reflexivity.
  destruct (deref ip) as [ip0 | e | msg]; simpl; try reflexivity.
  destruct (if negb (String.eqb (types.Path epkg) (PkgPath ip0))
            then GetImport ip0 (types.Path epkg) else Ok ip0) as [dep | e | msg];
    simpl; try reflexivity.
  destruct (missingMethodsRec env ct (types.Named n p pos u) (types.Obj n p pos u)
              (Some dep) visited) as [[em v1] | e | msg]; simpl; try reflexivity.
  apply IH.
Qed.

(** X8.
    An interface that embeds an interface of the universe, that is
    [error]: once the embedded interfaces before it are done,
    [missingMethods] calls [Path] on the nil package of [error] and
    panics, and so does the call of [MethodStubActions] on a diagnostic
    with a request for the interface. *)
Theorem interface_embedding_error_panics (ct : concreteType) (obj : types.Object)
    (ip : option P) (ms : list types.Func) (before after : list types.Type_)
    (name : string) (npos : token.Pos) (u : types.Type_)
    (done : list (missingInterface P) * gset string) :
  interfaceOf (types.ObjType obj)
  = Some (ms, before ++ types.Named name None npos u :: after) →
  embeddedLoop env ct ip before [] ∅ = Ok done →
  missingMethods env ct obj ip ∅ = Panic nilDeref
  ∧ ∀ fh d sc pre post,
      isStubDiagnostic d = true → resolveRequest env fh d = Ok (Some sc) →
      scConcreteType sc = ct → ifaceObj (scRequest sc) = obj →
      ifacePkg (scRequest sc) = ip →
      Forall (λ d', ∃ t, diagnosticTurn env fh d' = Ok t ∧ t ≠ ReturnNil) pre →
      MethodStubActions env (pre ++ d :: post) fh = Panic nilDeref.
Proof.
  intros Hiface Hbefore.
  assert (Hrun : missingMethods env ct obj ip ∅ = Panic nilDeref).
  { unfold missingMethods. rewrite missingMethodsRec_unfold, Hiface.
    rewrite embeddedLoop_app, Hbefore. destruct done as [missing1 visited1].
    reflexivity. }
  split; [exact Hrun |]. intros fh d sc pre post Hfilter Hreq <- <- <- Hpre.
  apply (actionsLoop_stops env fh pre post d Hpre).
  rewrite (diagnosticTurn_request env fh d sc Hfilter Hreq), Hrun. reflexivity.
Qed.
End EmbeddedUniverse.

Section NilPackage.
Context {P : Type} `{Package P} (env : Env P) (fh : VersionedFileHandle).

(** X9.
    A type a function returns under a name its file does not import from
    the package of the type (a type alias of another package, say):
    [getRequestFromReturn] drops the error of [GetImport] and the request
    has a nil interface package.  The turn on such a request never yields
    an action (it returns nil, fails or panics), and no call on a list
    that holds the diagnostic returns a slice of actions. *)
Theorem unimportable_interface_package_yields_no_action (d : protocol.Diagnostic)
    (pkg : P) (pgf : ParsedGoFile) (nodes : list ast.Node) (pos : token.Pos)
    (rs : ast.ReturnStmt) (ir : stubRequest P) (ipkg : types.Package) (e : error) :
  isStubDiagnostic d = true →
  GetParsedFile env fh NarrowestPackage = Ok (pkg, pgf) →
  getNodes env pgf d = Ok (nodes, pos) →
  isVariableDeclaration nodes = None → isReturnStatement nodes = Some rs →
  getRequestFromReturn env pos nodes rs pkg = Ok (Some ir) →
  types.Pkg (ifaceObj ir) = Some ipkg →
  PkgPath pkg ≠ types.Path ipkg →
  GetImport pkg (types.Path ipkg) = Err e →
  ifacePkg ir = None
  ∧ (∀ a, diagnosticTurn env fh d ≠ Ok (Append a))
  ∧ (∀ ds acts, d ∈ ds → MethodStubActions env ds fh ≠ Ok (Some acts)).
Proof.
  intros Hfilter Hfile Hnodes Hvar Hret Hreq Hipkg Hne Himport.
  assert (Hnil : ifacePkg ir = None).
  { unfold getRequestFromReturn in Hreq.
    apply bind_Ok in Hreq as (idx & _ & Hreq).
    apply bind_Ok in Hreq as (n & _ & Hreq).
    assert (Hbody :
      (found ← inspectIdents (returnIdent pkg) (ast.idents n) None;
       match found with
       | None => Ok None
       | Some (concreteObj, concretePkg) =>
           match EnclosingFunction env nodes (GetTypesInfo pkg) with
           | None => Err (errorString "could not find function in a return statement")
           | Some fi =>
               r ← index (SigResults fi) idx;
               match r with
               | types.Named n npkg npos u =>
                   let ifaceObj := types.Obj n npkg npos u in
                   ifaceObjPkg ← deref npkg;
                   ifacePkg ←
                     (if negb (String.eqb (PkgPath pkg) (types.Path ifaceObjPkg))
                      then match GetImport pkg (types.Path ifaceObjPkg) with
                           | Ok p => Ok (Some p)
                           | Err _ => Ok None
                           | Panic m => Panic m
                           end
                      else Ok (Some pkg));
                   Ok (Some (mkStubRequest ifacePkg ifaceObj concretePkg concreteObj false))
               | _ => Ok None
               end
           end
       end) = Ok (Some ir)).
    { destruct n as [y | X Sel | k p0 e0 kids]; try exact Hreq.
      destruct k; try exact Hreq; discriminate. }
    clear Hreq. apply bind_Ok in Hbody as (found & _ & Hbody).
    destruct found as [[cobj cpkg]|]; [| discriminate].
    destruct (EnclosingFunction env nodes (GetTypesInfo pkg)) as [fi|]; [| discriminate].
    apply bind_Ok in Hbody as (r & _ & Hbody).
    destruct r as [| bn | n0 npkg npos u | el | el | | ps rs0 vr | ms0 es0];
      try discriminate.
    apply bind_Ok in Hbody as (ifaceObjPkg & Hderef & Hbody).
    apply deref_Ok in Hderef. subst npkg.
    apply bind_Ok in Hbody as (ip & Hip & Hbody). injection Hbody as <-.
    simpl in Hipkg. injection Hipkg as ->. simpl.
    apply String.eqb_neq in Hne. rewrite Hne, Himport in Hip. simpl in Hip.
    injection Hip as <-. reflexivity. }
  assert (Hturn : ∀ t, diagnosticTurn env fh d = Ok t → t = ReturnNil).
  { intros t Ht. destruct t as [| a |]; [| | reflexivity].
    - rewrite (diagnosticTurn_reached env fh d pkg pgf nodes pos Hfilter Hfile Hnodes)
        in Ht.
      unfold getImplementRequest in Ht. rewrite Hvar, Hret, Hreq in Ht. simpl in Ht.
      apply bind_Ok in Ht as (sc & Hsc & Ht).
      apply bind_Ok in Hsc as ([cf cfh] & _ & Hsc).
      apply bind_Ok in Hsc as (ctpkg & _ & Hsc). injection Hsc as <-.
      apply bind_Ok in Ht as ([l v] & _ & Ht).
      destruct (bool_decide (length l = 0)); [discriminate |].
      apply bind_Ok in Ht as (a & _ & Ht). discriminate.
    - apply diagnosticTurn_Append_inv in Ht as (_ & sc & l & v & Hsc & _ & _ & Hbuild).
      apply buildAction_inv in Hbuild as (name & Hname & _).
      apply getIfaceName_inv in Hname as (ip & Hip & _).
      unfold resolveRequest in Hsc. rewrite Hfile in Hsc. simpl in Hsc.
      rewrite Hnodes in Hsc. simpl in Hsc.
      unfold getImplementRequest in Hsc. rewrite Hvar, Hret, Hreq in Hsc. simpl in Hsc.
      apply bind_Ok in Hsc as ([cf cfh] & _ & Hsc).
      apply bind_Ok in Hsc as (ctpkg & _ & Hsc). injection Hsc as <-.
      simpl in Hip. congruence. }
  split; [exact Hnil |]. split.
  - intros a Ha. specialize (Hturn _ Ha). discriminate.
  - intros ds acts Hin. exact (actionsLoop_ends env fh ds d Hin Hturn [] acts).
Qed.
End NilPackage.

Section LastTypeName.
Context {P : Type} `{Package P}.

(** X10.
    The concrete type of a variable declaration is the type of the last
    identifier of the value, in the order of [ast.Inspect], that is the
    name of a type: the walk goes on after it has found one, and a later
    type name replaces an earlier one.  In
    [var _ I = Wrap{Inner: T{}}] the concrete type is [T], not [Wrap]. *)
Theorem last_type_name_is_the_concrete_type (pkg : P) (vs : ast.ValueSpec)
    (pos : token.Pos) (t v : ast.Expr) (iobj : types.Object) (ipkg : P)
    (before after : list ast.Ident) (x : ast.Ident) (obj : types.Object)
    (objPkg : types.Package) (p : P) :
  ast.Values vs !! valueIndex vs pos = Some v →
  ast.SpecType vs = Some t →
  inspectNode pkg (Some t) = Ok (Some iobj, Some ipkg) →
  ast.idents v = before ++ x :: after →
  (∀ msg, inspectIdents (specIdent pkg) before (None, None) ≠ Panic msg) →
  UsesAt (GetTypesInfo pkg) x = Some obj → types.Kind obj = types.TypeName →
  types.Pkg obj = Some objPkg →
  (if negb (String.eqb (types.Path objPkg) (PkgPath pkg))
   then GetImport pkg (types.Path objPkg) else Ok pkg) = Ok p →
  (∀ y o, y ∈ after → UsesAt (GetTypesInfo pkg) y = Some o →
          types.Kind o ≠ types.TypeName) →
  fromValueSpec vs pkg pos
  = Ok (Some (mkStubRequest (Some ipkg) iobj p obj
                (existsb isPointerNode (ast.preorder v)))).
Proof.
  intros Hv Ht Hiface Hidents Hbefore Huse Hkind Hpkg Hp Hafter.
  assert (Hwalk : inspectNode pkg (Some v) = Ok (Some obj, Some p)).
  { unfold inspectNode. rewrite Hidents, inspectIdents_app.
    destruct (inspectIdents (specIdent pkg) before (None, None)) as [st | e | msg] eqn:Hpre.
    - simpl. unfold specIdent at 2. rewrite Huse, Hkind, Hpkg. simpl.
      assert (Hx : (if negb (String.eqb (types.Path objPkg) (PkgPath pkg))
                    then match GetImport pkg (types.Path objPkg) with
                         | Ok nodePkg => Ok (Some obj, Some nodePkg)
                         | Err _ => Ok (st.1, None)
                         | Panic m => Panic m
                         end
                    else Ok (Some obj, Some pkg)) = Ok (Some obj, Some p)).
      { destruct (negb _); [| congruence]. rewrite Hp. reflexivity. }
      rewrite Hx. simpl. apply inspectIdents_unchanged. intros y Hy. unfold specIdent.
      destruct (UsesAt (GetTypesInfo pkg) y) as [o|] eqn:Hy'; [| reflexivity].
      pose proof (Hafter y o Hy Hy') as Hne.
      destruct (types.Kind o); try reflexivity. congruence.
    - destruct (inspectIdents_not_Err _ before (specIdent_not_Err pkg) _ _ Hpre).
    - destruct (Hbefore msg eq_refl). }
  unfold fromValueSpec, index. rewrite Hv, Ht. cbn -[inspectNode].
  rewrite Hiface. cbn -[inspectNode]. rewrite Hwalk. reflexivity.
Qed.
End LastTypeName.

(** ** More of the rewriter *)

Section Qualifiers.
Context {P : Type} `{Package P}.

Lemma find_importsPath_none (f : ast.File) (path : string) :
  (∀ imp, imp ∈ ast.Imports f → importsPath path imp = false) →
  find (importsPath path) (ast.Imports f) = None.
Proof.
  intros Hnone. destruct (find _ _) as [imp|] eqn:E; [| reflexivity].
  apply find_some in E as [Hin Hok]. apply list_elem_of_In in Hin.
  rewrite (Hnone imp Hin) in Hok. discriminate.
Qed.

(** X11.
    The add rule.  Let the node at a position of the signature be a
    selector [Q.N] where [Q] names the imported package [imported], the
    owner of [N], a package that is not the package of the concrete type
    and that the file of the concrete type has no usable import of.  The
    walk leaves the selector as it is and queues an import of the package:
    under the name [Q] when the interface file renames the package, with
    no required name otherwise. *)
Theorem selector_of_unimported_package_queues_import (mp ip : P) (n : ast.Expr)
    (ct : concreteType) (f : ast.File) (path : list nat) (Q N : ast.Ident)
    (objQ objN : types.Object) (imported : types.Package) :
  file ct = Some f →
  subAt path n = Some (ast.ESelector (ast.EIdent Q) N) →
  UsesAt (GetTypesInfo mp) Q = Some objQ →
  types.Kind objQ = types.PkgName imported →
  UsesAt (GetTypesInfo mp) N = Some objN →
  types.Pkg objN = Some imported →
  types.Path imported ≠ types.Path (pkg ct) →
  (∀ imp, imp ∈ ast.Imports f → importsPath (types.Path imported) imp = false) →
  ∃ n' ct',
    applyRewrite (Some mp) (Some ip) n ct = Ok (n', ct')
    ∧ subAt path n' = Some (ast.ESelector (ast.EIdent Q) N)
    ∧ mkAddedImport
        (if String.eqb (types.ObjName objQ) (types.Name imported)
         then "" else types.ObjName objQ)
        (types.Path imported) ∈ addedImports ct'.
Proof.
  intros Hfile Hsub HQ Hkind HN Hown Hne Hnone.
  pose proof (find_importsPath_none f _ Hnone) as Hfind.
  destruct (applyRewrite_total mp ip n ct (ex_intro _ f Hfile)) as (n' & ct' & Hr).
  exists n', ct'. split; [exact Hr |].
  destruct (applyRewrite_at _ _ _ _ _ _ _ _ Hr Hsub)
    as (ct1 & m' & ct2 & H1 & H2 & Hw & Hs).
  destruct H1 as (Hp1 & Hf1 & _).
  simpl in Hw. unfold mightRenameSelector, mightRemoveSelector, firstImport in Hw.
  simpl in Hw. rewrite HQ, Hkind, Hf1, Hfile in Hw. simpl in Hw.
  rewrite Hfind in Hw. simpl in Hw. rewrite Hp1 in Hw.
  apply String.eqb_neq in Hne. rewrite Hne in Hw. simpl in Hw.
  rewrite HN, Hown in Hw.
  assert (Hpkg : pkg (addImport ct1
                        (if negb (String.eqb (types.ObjName objQ) (types.Name imported))
                         then types.ObjName objQ else "") (types.Path imported))
                 = pkg ct) by (rewrite <- Hp1; apply addImport_frame).
  rewrite Hpkg, Hne in Hw. simpl in Hw. injection Hw as <- <-.
  split; [exact Hs |]. destruct H2 as (_ & _ & _ & _ & Hmono & _). apply Hmono.
  destruct (String.eqb (types.ObjName objQ) (types.Name imported)); simpl;
    apply addImport_elem.
Qed.

(** X12.
    A local declaration.  Let the node at a position of the signature be
    a bare identifier [N] that resolves, in the package [ip] of the
    requested interface, to an object whose type is a named type of [ip]
    itself, and let [ip] not be the package of the concrete type.  The
    walk puts the selector [alias.N] at that position, where [alias] is
    the local name of [ip] in the file of the concrete type, and queues an
    import of [ip] with no required name when that file has no usable
    import of it. *)
Theorem identifier_of_interface_package_is_qualified (mp ip : P) (n : ast.Expr)
    (ct : concreteType) (f : ast.File) (path : list nat) (N : ast.Ident)
    (obj : types.Object) (name : string) (npkg : types.Package)
    (npos : token.Pos) (u : types.Type_) :
  file ct = Some f →
  subAt path n = Some (ast.EIdent N) →
  UsesAt (GetTypesInfo ip) N = Some obj →
  types.ObjType obj = types.Named name (Some npkg) npos u →
  types.Path npkg = PkgPath ip →
  types.Path npkg ≠ types.Path (pkg ct) →
  ∃ n' ct',
    applyRewrite (Some mp) (Some ip) n ct = Ok (n', ct')
    ∧ subAt path n'
      = Some (ast.ESelector (ast.EIdent (ast.mkIdent None 0%Z (localAlias f npkg))) N)
    ∧ ((∀ imp, imp ∈ ast.Imports f → importsPath (types.Path npkg) imp = false) →
       mkAddedImport "" (types.Path npkg) ∈ addedImports ct').
Proof.
  intros Hfile Hsub HN Htype Hlocal Hnt.
  destruct (applyRewrite_total mp ip n ct (ex_intro _ f Hfile)) as (n' & ct' & Hr).
  exists n', ct'. split; [exact Hr |].
  destruct (applyRewrite_at _ _ _ _ _ _ _ _ Hr Hsub)
    as (ct1 & m' & ct2 & H1 & H2 & Hw & Hs).
  destruct H1 as (Hp1 & Hf1 & _).
  simpl in Hw. unfold mightAddSelector, firstImport in Hw. simpl in Hw.
  rewrite HN, Htype, Hf1, Hfile, Hp1 in Hw. simpl in Hw.
  apply String.eqb_eq in Hlocal. apply String.eqb_neq in Hnt.
  rewrite Hlocal, Hnt in Hw. simpl in Hw.
  rewrite andb_true_r in Hw. injection Hw as <- <-. split.
  - rewrite Hs. reflexivity.
  - intros Hnone. destruct H2 as (_ & _ & _ & _ & Hmono & _). apply Hmono.
    rewrite (find_importsPath_none f _ Hnone).
    rewrite bool_decide_eq_true_2 by reflexivity. apply addImport_elem.
Qed.

(** X13.
    What stays bare.  An identifier that the package of the requested
    interface has no use of (the name of a parameter, say), or whose
    object has no named type with a package (a type of the universe such
    as [int] or [error], a variable of a basic type), or whose named type
    is of the package of the concrete type, is left as it is. *)
Theorem identifier_without_foreign_type_stays_bare (mp ip : P) (n : ast.Expr)
    (ct : concreteType) (path : list nat) (N : ast.Ident) :
  is_Some (file ct) →
  subAt path n = Some (ast.EIdent N) →
  (∀ obj name npkg npos u,
     UsesAt (GetTypesInfo ip) N = Some obj →
     types.ObjType obj = types.Named name (Some npkg) npos u →
     types.Path npkg = types.Path (pkg ct)) →
  ∃ n' ct',
    applyRewrite (Some mp) (Some ip) n ct = Ok (n', ct')
    ∧ subAt path n' = Some (ast.EIdent N).
Proof.
  intros Hfile Hsub Hown.
  destruct (applyRewrite_total mp ip n ct Hfile) as (n' & ct' & Hr).
  exists n', ct'. split; [exact Hr |].
  destruct (applyRewrite_at _ _ _ _ _ _ _ _ Hr Hsub)
    as (ct1 & m' & ct2 & H1 & H2 & Hw & Hs).
  destruct H1 as (Hp1 & Hf1 & _). rewrite Hs. f_equal.
  simpl in Hw. unfold mightAddSelector in Hw. simpl in Hw.
  destruct (UsesAt (GetTypesInfo ip) N) as [obj|] eqn:HN; [| injection Hw as <- _; reflexivity].
  destruct (types.ObjType obj) as [| bn | name [npkg|] npos u | el | el | | ps rs vr | ms es]
    eqn:Htype; try (injection Hw as <- _; reflexivity).
  pose proof (Hown obj name npkg npos u eq_refl Htype) as Hpath.
  apply bind_Ok in Hw as ([[b n1] ct3] & Hadd & Hw). injection Hw as <- _.
  apply bind_Ok in Hadd as (found & _ & Hadd).
  rewrite Hp1 in Hadd. apply String.eqb_eq in Hpath. rewrite Hpath in Hadd.
  simpl in Hadd. rewrite !andb_false_r in Hadd. simpl in Hadd.
  injection Hadd as _ <- _. reflexivity.
Qed.
End Qualifiers.

Section NeededImports.
Context {P : Type} `{Package P} (env : Env P).

Lemma mightRenameSelector_foreign X Sel (ifacePkg : option P) ct b X' ct' :
  mightRenameSelector X Sel ifacePkg ct = Ok (b, X', ct') →
  ∀ imp, imp ∈ addedImports ct' →
         imp ∈ addedImports ct ∨ Path imp ≠ types.Path (pkg ct).
Proof.
  unfold mightRenameSelector. intros Hr imp Himp.
  destruct X as [ident | |]; try (injection Hr as _ _ <-; left; exact Himp).
  apply bind_Ok in Hr as (ip & _ & Hr).
  destruct (UsesAt (GetTypesInfo ip) ident) as [obj|];
    [| injection Hr as _ _ <-; left; exact Himp].
  destruct (types.Kind obj) as [imported | | | | |];
    try (injection Hr as _ _ <-; left; exact Himp).
  apply bind_Ok in Hr as (found & _ & Hr).
  destruct found as [imp0|]; [injection Hr as _ _ <-; left; exact Himp |].
  destruct (String.eqb (types.Path imported) (types.Path (pkg ct))) eqn:Hown;
    injection Hr as _ _ <-; [left; exact Himp |].
  apply addImport_new in Himp as [Hold | ->]; [left; exact Hold |].
  right. simpl. apply String.eqb_neq. exact Hown.
Qed.

Lemma mightAddSelector_foreign ident (ifacePkg : option P) ct b n ct' :
  mightAddSelector ident ifacePkg ct = Ok (b, n, ct') →
  ∀ imp, imp ∈ addedImports ct' →
         imp ∈ addedImports ct ∨ Path imp ≠ types.Path (pkg ct).
Proof.
  unfold mightAddSelector. intros Hr imp Himp.
  apply bind_Ok in Hr as (ip & _ & Hr).
  destruct (UsesAt (GetTypesInfo ip) ident) as [obj|];
    [| injection Hr as _ _ <-; left; exact Himp].
  destruct (types.ObjType obj) as [| bn | name [npkg|] npos u | el | el | | ps rs vr | ms es];
    try (injection Hr as _ _ <-; left; exact Himp).
  apply bind_Ok in Hr as (found & _ & Hr).
  assert (Hct : ct' = if bool_decide (found = None)
                         && negb (String.eqb (types.Path npkg) (types.Path (pkg ct)))
                      then addImport ct "" (types.Path npkg) else ct).
  { destruct (_ || _) in Hr; injection Hr as _ _ <-; reflexivity. }
  subst ct'. destruct (bool_decide (found = None)); simpl in Himp;
    [| left; exact Himp].
  destruct (String.eqb (types.Path npkg) (types.Path (pkg ct))) eqn:Hown; simpl in Himp;
    [left; exact Himp |].
  apply addImport_new in Himp as [Hold | ->]; [left; exact Hold |].
  right. simpl. apply String.eqb_neq. exact Hown.
Qed.

Lemma applyRewrite_foreign (miPkg irPkg : option P) (n : ast.Expr) :
  ∀ ct n' ct', applyRewrite miPkg irPkg n ct = Ok (n', ct') →
  ∀ imp, imp ∈ addedImports ct' →
         imp ∈ addedImports ct ∨ Path imp ≠ types.Path (pkg ct).
Proof.
  induction n as [ident | X Sel _ | k p e kids IH] using Expr_nested_ind;
    intros ct n' ct' Hr imp Himp.
  - simpl in Hr. apply bind_Ok in Hr as ([[b n1] ct1] & Hadd & Hr).
    injection Hr as _ <-. exact (mightAddSelector_foreign _ _ _ _ _ _ Hadd imp Himp).
  - simpl in Hr. apply bind_Ok in Hr as ([[b X'] ct1] & Hren & Hr).
    apply bind_Ok in Hr as ([b' n1] & _ & Hr). injection Hr as _ <-.
    exact (mightRenameSelector_foreign _ _ _ _ _ _ _ Hren imp Himp).
  - rewrite applyRewrite_node in Hr. apply bind_Ok in Hr as ([kids' cta] & Hwalk & Hr).
    injection Hr as _ <-. clear k p e n'. revert ct kids' Hwalk.
    induction IH as [| c kids Hc _ IHkids]; intros ct kids' Hwalk; simpl in Hwalk.
    + injection Hwalk as _ <-. left. exact Himp.
    + apply bind_Ok in Hwalk as ([c' ct1] & Hone & Hwalk).
      apply bind_Ok in Hwalk as ([l'' ct2] & Hrest & Hwalk). injection Hwalk as _ <-.
      destruct (IHkids _ _ Hrest) as [Hold | Hnew].
      * exact (Hc _ _ _ Hone imp Hold).
      * right. apply applyRewrite_extends in Hone as (Hp & _). rewrite <- Hp. exact Hnew.
Qed.

(** X14.
    The imports a synthesis queues are needed.  Every import in the list
    after the walk over a signature, and after the rendering of all the
    stubs, was in the list before or is an import of a package other than
    that of the concrete type, of which the file of the concrete type has
    no usable import: the rewriter never makes the file import its own
    package or a package it imports already under a usable name. *)
Theorem queued_imports_are_needed (miPkg irPkg : option P) (n n' : ast.Expr)
    (ct ct' : concreteType) :
  applyRewrite miPkg irPkg n ct = Ok (n', ct') →
  (∀ imp, imp ∈ addedImports ct' →
     imp ∈ addedImports ct
     ∨ (Path imp ≠ types.Path (pkg ct) ∧ firstImport ct (Path imp) = Ok None))
  ∧ ∀ pkg0 ir l buf buf' ct'',
      renderMissing env pkg0 ir l buf ct' = Ok (buf', ct'') →
      ∀ imp, imp ∈ addedImports ct'' →
        imp ∈ addedImports ct
        ∨ (Path imp ≠ types.Path (pkg ct) ∧ firstImport ct (Path imp) = Ok None).
Proof.
  intros Hr.
  assert (Hwalk : ∀ c c' m m', applyRewrite miPkg irPkg m c = Ok (m', c') →
            ∀ imp, imp ∈ addedImports c' →
              imp ∈ addedImports c
              ∨ (Path imp ≠ types.Path (pkg c) ∧ firstImport c (Path imp) = Ok None)).
  { intros c c' m m' Hm imp Himp.
    destruct (applyRewrite_foreign _ _ _ _ _ _ Hm imp Himp) as [Hold | Hne];
      [left; exact Hold |].
    apply applyRewrite_extends in Hm as (_ & _ & _ & _ & _ & _ & Hnew).
    destruct (Hnew imp Himp) as [Hold | Hnone]; [left; exact Hold | right; auto]. }
  split; [exact (Hwalk _ _ _ _ Hr) |].
  intros pkg0 ir l buf buf' ct'' Hrender imp Himp.
  pose proof (applyRewrite_extends _ _ _ _ _ _ Hr) as (Hp & Hf & _).
  assert (Hall : ∀ l buf c buf' c',
            renderMissing env pkg0 ir l buf c = Ok (buf', c') →
            ∀ imp, imp ∈ addedImports c' →
              imp ∈ addedImports c
              ∨ (Path imp ≠ types.Path (pkg c)
                 ∧ firstImport c (Path imp) = Ok None)).
  { clear. intros l. induction l as [| mi l IH]; intros buf c buf' c' Hrun imp Himp.
    - simpl in Hrun. injection Hrun as _ <-. left. exact Himp.
    - simpl in Hrun. apply bind_Ok in Hrun as ([buf1 c1] & Hone & Hrun).
      assert (Hms : ∀ ms buf c buf1 c1,
                renderMethods env pkg0 ir mi ms buf c = Ok (buf1, c1) →
                ∀ imp, imp ∈ addedImports c1 →
                  imp ∈ addedImports c
                  ∨ (Path imp ≠ types.Path (pkg c)
                     ∧ firstImport c (Path imp) = Ok None)).
      { clear. intros ms. induction ms as [| m ms IHms]; intros buf c buf1 c1 Hrun imp Himp.
        - simpl in Hrun. injection Hrun as _ <-. left. exact Himp.
        - simpl in Hrun. apply bind_Ok in Hrun as ([stub c2] & Hone & Hrun).
          pose proof (renderMethod_extends env _ _ _ _ _ _ _ Hone) as Hext.
          destruct (IHms _ _ _ _ Hrun imp Himp) as [Hold | [Hne Hnone]].
          + unfold renderMethod in Hone.
            apply bind_Ok in Hone as (field & _ & Hone).
            destruct field as [[x | X Sel | k p e kids] | rs | vs | what p e];
              try discriminate.
            destruct k; try discriminate.
            apply bind_Ok in Hone as (n0 & _ & Hone).
            apply bind_Ok in Hone as ([n1 c3] & Hw & Hone).
            apply bind_Ok in Hone as (sig & _ & Hone).
            apply bind_Ok in Hone as (name & _ & Hone). injection Hone as _ <-.
            destruct (applyRewrite_foreign _ _ _ _ _ _ Hw imp Hold) as [Holder | Hne];
              [left; exact Holder |].
            destruct Hext as (_ & _ & _ & _ & _ & _ & Hnew).
            destruct (Hnew imp Hold) as [Holder | Hnone]; [left; exact Holder | right; auto].
          + right. destruct Hext as (Hp & Hf & _). rewrite <- Hp.
            rewrite <- (firstImport_file c c2) by exact Hf. auto. }
      pose proof (renderMethods_extends env _ _ _ _ _ _ _ _ Hone) as (Hp & Hf & _).
      destruct (IH _ _ _ _ Hrun imp Himp) as [Hold | [Hne Hnone]].
      + exact (Hms _ _ _ _ _ Hone imp Hold).
      + right. rewrite <- Hp. rewrite <- (firstImport_file c c1) by exact Hf. auto. }
  destruct (Hall _ _ _ _ _ Hrender imp Himp) as [Hold | [Hne Hnone]].
  - exact (Hwalk _ _ _ _ Hr imp Hold).
  - right. rewrite <- Hp. rewrite <- (firstImport_file ct ct') by exact Hf. auto.
Qed.
End NeededImports.

(** ** The stubs *)

Lemma append_nil_r (s : string) : s +:+ "" = s.
Proof.
  induction s as [| c s IH]; [reflexivity |].
  change (String c (s +:+ "") = String c s). f_equal. exact IH.
Qed.

Lemma append_assoc (s1 s2 s3 : string) : (s1 +:+ s2) +:+ s3 = s1 +:+ (s2 +:+ s3).
Proof.
  induction s1 as [| c s1 IH]; [reflexivity |].
  change (String c ((s1 +:+ s2) +:+ s3) = String c (s1 +:+ (s2 +:+ s3))).
  f_equal. exact IH.
Qed.

Section Stubs.
Context {P : Type} `{Package P} (env : Env P).

Lemma renderMethod_stub (pkg : P) (ir : stubRequest P) (mi : missingInterface P)
    (m : types.Func) (ct ct' : concreteType) (stub : string) :
  renderMethod env pkg ir mi m ct = Ok (stub, ct') →
  ∃ name sig,
    getIfaceName pkg (ifacePkg ir) (ifaceObj ir) = Ok name
    ∧ stub = tmpl (mkMethodData (types.fn_Name m) name
                     (if pointer ir then "*" +:+ types.ObjName (concreteObj ir)
                      else types.ObjName (concreteObj ir))
                     sig) +:+ newline.
Proof.
  unfold renderMethod. intros Hrun.
  apply bind_Ok in Hrun as (field & _ & Hrun).
  destruct field as [[x | X Sel | k p e kids] | rs | vs | what p e]; try discriminate.
  destruct k; try discriminate.
  apply bind_Ok in Hrun as (n & _ & Hrun).
  apply bind_Ok in Hrun as ([n' ct''] & _ & Hrun).
  apply bind_Ok in Hrun as (sig & _ & Hrun).
  apply bind_Ok in Hrun as (name & Hname & Hrun).
  injection Hrun as <- <-. eexists name, _. split; [exact Hname | reflexivity].
Qed.

(** X15.
    The rendering writes one stub for each method of the list of missing
    interfaces, in the order of the list, after what the buffer holds:
    the stub of a method carries its name, the receiver of the request
    ([T], or [*T] for a pointer) and the name of the requested interface,
    whichever embedded interface declares the method. *)
Theorem stubs_follow_missing_methods (pkg : P) (ir : stubRequest P)
    (l : list (missingInterface P)) (buf buf' : string) (ct ct' : concreteType) :
  renderMissing env pkg ir l buf ct = Ok (buf', ct') →
  ∃ mds,
    buf' = buf +:+ foldr (λ md rest, tmpl md +:+ newline +:+ rest) "" mds
    ∧ Method <$> mds = missingNames l
    ∧ Forall (λ md,
        Concrete md = (if pointer ir then "*" +:+ types.ObjName (concreteObj ir)
                       else types.ObjName (concreteObj ir))
        ∧ getIfaceName pkg (ifacePkg ir) (ifaceObj ir) = Ok (Interface md)) mds.
Proof.
  assert (Hms : ∀ mi ms buf ct buf' ct',
            renderMethods env pkg ir mi ms buf ct = Ok (buf', ct') →
            ∃ mds,
              buf' = buf +:+ foldr (λ md rest, tmpl md +:+ newline +:+ rest) "" mds
              ∧ Method <$> mds = types.fn_Name <$> ms
              ∧ Forall (λ md,
                  Concrete md
                  = (if pointer ir then "*" +:+ types.ObjName (concreteObj ir)
                     else types.ObjName (concreteObj ir))
                  ∧ getIfaceName pkg (ifacePkg ir) (ifaceObj ir) = Ok (Interface md))
                  mds).
  { intros mi ms. induction ms as [| m ms IH]; intros b c b' c' Hrun; simpl in Hrun.
    - injection Hrun as <- _. exists []. cbn [foldr]. rewrite append_nil_r.
      split; [reflexivity |]. split; [reflexivity | constructor].
    - apply bind_Ok in Hrun as ([stub c1] & Hone & Hrun).
      apply renderMethod_stub in Hone as (name & sig & Hname & ->).
      destruct (IH _ _ _ _ Hrun) as (mds & -> & Hnames & Hall).
      eexists (_ :: mds). cbn [foldr fmap list_fmap]. rewrite !append_assoc.
      split; [reflexivity |]. split; [rewrite Hnames; reflexivity |].
      constructor; [split; [reflexivity | exact Hname] | exact Hall]. }
  revert buf ct. induction l as [| mi l IH]; intros buf ct Hrun; simpl in Hrun.
  - injection Hrun as <- _. exists []. cbn [foldr]. rewrite append_nil_r.
    split; [reflexivity |]. split; [reflexivity | constructor].
  - apply bind_Ok in Hrun as ([buf1 ct1] & Hone & Hrun).
    destruct (Hms _ _ _ _ _ _ Hone) as (mds1 & -> & Hnames1 & Hall1).
    destruct (IH _ _ Hrun) as (mds2 & -> & Hnames2 & Hall2).
    exists (mds1 ++ mds2). rewrite append_assoc. split.
    + f_equal. clear. induction mds1 as [| md mds1 IH1]; cbn [foldr app];
        [reflexivity |]. rewrite !append_assoc, IH1. reflexivity.
    + split.
      * unfold missingNames, missingFuncs in *. simpl.
        rewrite !fmap_app, Hnames1, Hnames2. reflexivity.
      * apply Forall_app. split; assumption.
Qed.
End Stubs.

(** ** The properties on the second workspace *)

Lemma other_diagnostics_are_skipped_witness :
  MethodStubActions Cases.env [Cases.d14; Cases.d15] Cases.fh = Ok (Some []).
Proof.
  apply (other_diagnostics_are_skipped Cases.env Cases.fh [Cases.d14; Cases.d15]).
  intros d Hd. apply elem_of_cons in Hd as [-> | Hd].
  - right. split; vm_compute; reflexivity.
  - apply elem_of_cons in Hd as [-> | Hd]; [left; simpl; discriminate |].
    apply elem_of_nil in Hd. destruct Hd.
Defined.

Lemma actions_follow_diagnostics_witness :
  ∃ acts,
    MethodStubActions Cases.env [Cases.d14; Cases.d7] Cases.fh = Ok (Some acts)
    ∧ ∃ ds',
        sublist ds' [Cases.d14; Cases.d7]
        ∧ Forall2 (λ d a,
            isStubDiagnostic d = true
            ∧ diagnosticTurn Cases.env Cases.fh d = Ok (Append a)
            ∧ protocol.Kind a = protocol.QuickFix
            ∧ protocol.Diagnostics a = [d]
            ∧ ∃ sc edits,
                resolveRequest Cases.env Cases.fh d = Ok (Some sc)
                ∧ protocol.Edit a
                  = protocol.mkWorkspaceEdit
                      [protocol.mkTextDocumentEdit
                         (protocol.mkVTDI
                            (fhVersion
                               (FindFile Cases.env
                                  (PositionFilename Cases.env
                                     (types.ObjPos (concreteObj (scRequest sc))))))
                            (fhURI
                               (FindFile Cases.env
                                  (PositionFilename Cases.env
                                     (types.ObjPos (concreteObj (scRequest sc)))))))
                         edits]) ds' acts.
Proof.
  destruct (MethodStubActions Cases.env [Cases.d14; Cases.d7] Cases.fh)
    as [[acts |] | e | msg] eqn:Hrun; try (vm_compute in Hrun; discriminate Hrun).
  exists acts. split; [reflexivity |].
  exact (actions_follow_diagnostics Cases.env Cases.fh [Cases.d14; Cases.d7] acts Hrun).
Defined.

Lemma declaration_without_value_panics_witness :
  fromValueSpec Cases.spec8 Cases.Main 5241%Z = Panic "index out of range"
  ∧ MethodStubActions Cases.env [Cases.d14; Cases.d8; Cases.d7] Cases.fh
    = Panic "index out of range".
Proof.
  apply (declaration_without_value_panics Cases.env Cases.fh Cases.d8 Cases.Main
           (mkPGF "cases.go" (Some Cases.casesFile))
           (Cases.pathEnclosingInterval Cases.casesFile 5241%Z 5244%Z) 5241%Z
           eq_refl eq_refl eq_refl Cases.spec8 [Cases.d14] [Cases.d7]).
  - reflexivity.
  - reflexivity.
  - constructor; [| constructor]. exists Continue. split; [reflexivity | discriminate].
Defined.

Lemma universe_type_in_declaration_panics_witness :
  ∃ msg, fromValueSpec Cases.spec10 Cases.Main 5286%Z = Panic msg
         ∧ MethodStubActions Cases.env [Cases.d10] Cases.fh = Panic msg.
Proof.
  apply (universe_type_in_declaration_panics Cases.env Cases.fh Cases.d10 Cases.Main
           (mkPGF "cases.go" (Some Cases.casesFile))
           (Cases.pathEnclosingInterval Cases.casesFile 5286%Z 5289%Z) 5286%Z
           eq_refl eq_refl eq_refl Cases.spec10
           (ast.EIdent (Cases.ident 43 5278%Z "error")) (Cases.tLit 5286%Z 44)
           [] [] (Cases.ident 43 5278%Z "error")
           (World.typeObject World.errorType) [] []).
  - reflexivity.
  - reflexivity.
  - reflexivity.
  - reflexivity.
  - reflexivity.
  - reflexivity.
  - reflexivity.
  - constructor.
Defined.

Lemma universe_identifier_in_return_panics_witness :
  ∃ msg, getRequestFromReturn Cases.env 5385%Z
           (Cases.pathEnclosingInterval Cases.casesFile 5385%Z 5399%Z)
           Cases.return13 Cases.Main = Panic msg
         ∧ MethodStubActions Cases.env [Cases.d13] Cases.fh = Panic msg.
Proof.
  apply (universe_identifier_in_return_panics Cases.env Cases.fh Cases.d13 Cases.Main
           (mkPGF "cases.go" (Some Cases.casesFile))
           (Cases.pathEnclosingInterval Cases.casesFile 5385%Z 5399%Z) 5385%Z
           eq_refl eq_refl eq_refl Cases.return13 0 Cases.flagLit
           [Cases.ident 50 5385%Z "Flag"; Cases.ident 51 5390%Z "On"] []
           (Cases.ident 52 5394%Z "true")
           (Cases.universe "true" types.Const (types.Basic "untyped bool")) [] []).
  - reflexivity.
  - reflexivity.
  - reflexivity.
  - reflexivity.
  - discriminate.
  - discriminate.
  - reflexivity.
  - reflexivity.
  - reflexivity.
  - constructor.
Defined.

Lemma return_as_error_panics_witness :
  getRequestFromReturn Cases.env 5351%Z
    (Cases.pathEnclosingInterval Cases.casesFile 5351%Z 5354%Z)
    Cases.return12 Cases.Main = Panic nilDeref
  ∧ MethodStubActions Cases.env [Cases.d12] Cases.fh = Panic nilDeref.
Proof.
  apply (return_as_error_panics Cases.env Cases.fh Cases.d12 Cases.Main
           (mkPGF "cases.go" (Some Cases.casesFile))
           (Cases.pathEnclosingInterval Cases.casesFile 5351%Z 5354%Z) 5351%Z
           eq_refl eq_refl eq_refl Cases.return12 0 (Cases.tLit 5351%Z 48)
           (World.typeObject Cases.tType, Cases.Main) (mkFuncInfo [World.errorType])
           "error" 0%Z
           (types.Interface
              [types.mkFunc "Error" 0%Z (types.Signature [] [types.Basic "string"] false)]
              [])
           [] []).
  - reflexivity.
  - reflexivity.
  - reflexivity.
  - reflexivity.
  - discriminate.
  - discriminate.
  - reflexivity.
  - reflexivity.
  - reflexivity.
  - constructor.
Defined.

Lemma interface_embedding_error_panics_witness :
  missingMethods Cases.env Cases.ct (World.typeObject Cases.failerType)
    (Some Cases.Main) ∅ = Panic nilDeref
  ∧ MethodStubActions Cases.env [Cases.d9] Cases.fh = Panic nilDeref.
Proof.
  destruct (interface_embedding_error_panics Cases.env Cases.ct
              (World.typeObject Cases.failerType) (Some Cases.Main)
              [Cases.failFunc] [] [] "error" 0%Z
              (types.Interface
                 [types.mkFunc "Error" 0%Z
                    (types.Signature [] [types.Basic "string"] false)] [])
              ([], ∅)) as (Hrun & Hcall).
  - reflexivity.
  - reflexivity.
  - split; [exact Hrun |].
    assert (Hreq : ∃ sc, resolveRequest Cases.env Cases.fh Cases.d9 = Ok (Some sc)
                         ∧ scConcreteType sc = Cases.ct
                         ∧ ifaceObj (scRequest sc) = World.typeObject Cases.failerType
                         ∧ ifacePkg (scRequest sc) = Some Cases.Main).
    { vm_compute. eexists. split; [reflexivity |]. split; [reflexivity |].
      split; reflexivity. }
    destruct Hreq as (sc & Hreq & Hct & Hobj & Hip).
    exact (Hcall Cases.fh Cases.d9 sc [] [] eq_refl Hreq Hct Hobj Hip (List.Forall_nil _)).
Defined.

Lemma unimportable_interface_package_yields_no_action_witness :
  (∃ ir, getRequestFromReturn Cases.env 5319%Z
           (Cases.pathEnclosingInterval Cases.casesFile 5319%Z 5322%Z)
           Cases.return11 Cases.Main = Ok (Some ir)
         ∧ ifacePkg ir = None)
  ∧ (∀ a, diagnosticTurn Cases.env Cases.fh Cases.d11 ≠ Ok (Append a))
  ∧ ∀ acts, MethodStubActions Cases.env [Cases.d7; Cases.d11] Cases.fh ≠ Ok (Some acts).
Proof.
  destruct (unimportable_interface_package_yields_no_action Cases.env Cases.fh Cases.d11
              Cases.Main (mkPGF "cases.go" (Some Cases.casesFile))
              (Cases.pathEnclosingInterval Cases.casesFile 5319%Z 5322%Z) 5319%Z
              Cases.return11
              (mkStubRequest None (World.typeObject Cases.stringerType) Cases.Main
                 (World.typeObject Cases.tType) false)
              Cases.fmtT (errorString "no such import"))
    as (Hnil & Hturn & Hcall).
  - reflexivity.
  - reflexivity.
  - reflexivity.
  - reflexivity.
  - reflexivity.
  - reflexivity.
  - reflexivity.
  - simpl. discriminate.
  - reflexivity.
  - split; [eexists; split; [reflexivity | exact Hnil] |].
    split; [exact Hturn |]. intros acts. apply Hcall.
    apply elem_of_cons. right. apply elem_of_cons. left. reflexivity.
Defined.

Lemma last_type_name_is_the_concrete_type_witness :
  fromValueSpec Cases.spec7 Cases.Main 5201%Z
  = Ok (Some (mkStubRequest (Some (Cases.Lib World.Store)) (World.typeObject World.aType)
                Cases.Main (World.typeObject Cases.tType) false)).
Proof.
  apply (last_type_name_is_the_concrete_type Cases.Main Cases.spec7 5201%Z
           (Cases.storeA 5191%Z 5197%Z 31 32) Cases.wrapLit
           (World.typeObject World.aType) (Cases.Lib World.Store)
           [Cases.ident 33 5201%Z "Wrap"; Cases.ident 34 5206%Z "Inner"] []
           (Cases.ident 35 5213%Z "T") (World.typeObject Cases.tType) Cases.casesT
           Cases.Main).
  - reflexivity.
  - reflexivity.
  - reflexivity.
  - reflexivity.
  - intros msg. vm_compute. discriminate.
  - reflexivity.
  - reflexivity.
  - reflexivity.
  - reflexivity.
  - intros y o Hy. apply elem_of_nil in Hy. destruct Hy.
Defined.

Lemma selector_of_unimported_package_queues_import_witness :
  ∃ n' ct',
    applyRewrite (Some (Cases.Lib World.Store)) (Some (Cases.Lib World.Store))
      World.saveSig Cases.ct = Ok (n', ct')
    ∧ subAt [0; 0; 0; 0] n'
      = Some (ast.ESelector (ast.EIdent World.modelsId) World.userId)
    ∧ mkAddedImport "" "example.com/models" ∈ addedImports ct'.
Proof.
  apply (selector_of_unimported_package_queues_import (Cases.Lib World.Store)
           (Cases.Lib World.Store) World.saveSig Cases.ct Cases.casesFile [0; 0; 0; 0]
           World.modelsId World.userId World.modelsName
           (World.typeObject World.userType) World.modelsT).
  - reflexivity.
  - reflexivity.
  - reflexivity.
  - reflexivity.
  - reflexivity.
  - reflexivity.
  - simpl. discriminate.
  - intros imp Hin. simpl in Hin.
    apply elem_of_cons in Hin as [-> | Hin]; [reflexivity |].
    apply elem_of_cons in Hin as [-> | Hin]; [reflexivity |].
    apply elem_of_nil in Hin. destruct Hin.
Defined.

Lemma identifier_of_interface_package_is_qualified_witness :
  ∃ n' ct',
    applyRewrite (Some Cases.Aliases) (Some Cases.Aliases) Cases.logSig Cases.ct
      = Ok (n', ct')
    ∧ subAt [0; 0; 0] n'
      = Some (ast.ESelector (ast.EIdent (ast.mkIdent None 0%Z "lib")) Cases.levelId).
Proof.
  destruct (identifier_of_interface_package_is_qualified Cases.Aliases Cases.Aliases
              Cases.logSig Cases.ct Cases.casesFile [0; 0; 0] Cases.levelId
              (World.typeObject Cases.levelType) "Level" Cases.libT 6058%Z
              (types.Basic "int")) as (n' & ct' & Hrun & Hsub & _).
  - reflexivity.
  - reflexivity.
  - reflexivity.
  - reflexivity.
  - reflexivity.
  - simpl. discriminate.
  - exists n', ct'. split; [exact Hrun | exact Hsub].
Defined.

Lemma identifier_without_foreign_type_stays_bare_witness :
  ∃ n' ct',
    applyRewrite (Some World.Store) (Some World.Store) World.saveSig World.ctApp
      = Ok (n', ct')
    ∧ subAt [1; 0; 0] n' = Some (ast.EIdent World.errorId).
Proof.
  apply (identifier_without_foreign_type_stays_bare World.Store World.Store
           World.saveSig World.ctApp [1; 0; 0] World.errorId).
  - exists World.appFile. reflexivity.
  - reflexivity.
  - intros obj name npkg npos u Huse Htype. vm_compute in Huse.
    injection Huse as <-. discriminate Htype.
Defined.

Lemma queued_imports_are_needed_witness :
  ∃ n' ct',
    applyRewrite (Some World.Store) (Some World.Store) World.saveSig World.ctApp
      = Ok (n', ct')
    ∧ addedImports ct' = [mkAddedImport "" "time"]
    ∧ ∀ imp, imp ∈ addedImports ct' →
        imp ∈ addedImports World.ctApp
        ∨ (Path imp ≠ types.Path (pkg World.ctApp)
           ∧ firstImport World.ctApp (Path imp) = Ok None).
Proof.
  destruct (applyRewrite (Some World.Store) (Some World.Store) World.saveSig World.ctApp)
    as [[n' ct'] | e | msg] eqn:Hrun; try (vm_compute in Hrun; discriminate Hrun).
  exists n', ct'. split; [reflexivity |]. split.
  - vm_compute in Hrun. injection Hrun as _ <-. reflexivity.
  - exact (proj1 (queued_imports_are_needed World.env (Some World.Store)
                    (Some World.Store) World.saveSig n' World.ctApp ct' Hrun)).
Defined.

Lemma stubs_follow_missing_methods_witness :
  ∃ buf' ct' mds,
    renderMissing World.env World.App
      (mkStubRequest (Some World.Store) (World.typeObject World.saverType) World.App
         (World.typeObject World.cType) false)
      [mkMissingInterface (types.Underlying World.saverType) World.storeFile
         (Some World.Store) [World.saveFunc]]
      "" (World.ctOf World.cType) = Ok (buf', ct')
    ∧ buf' = "" +:+ foldr (λ md rest, tmpl md +:+ newline +:+ rest) "" mds
    ∧ Method <$> mds = ["Save"]
    ∧ Forall (λ md, Concrete md = "C" ∧ Interface md = "store.Saver") mds.
Proof.
  destruct (renderMissing World.env World.App
              (mkStubRequest (Some World.Store) (World.typeObject World.saverType)
                 World.App (World.typeObject World.cType) false)
              [mkMissingInterface (types.Underlying World.saverType) World.storeFile
                 (Some World.Store) [World.saveFunc]]
              "" (World.ctOf World.cType))
    as [[buf' ct'] | e | msg] eqn:Hrun; try (vm_compute in Hrun; discriminate Hrun).
  destruct (stubs_follow_missing_methods World.env World.App _ _ "" buf' _ ct' Hrun)
    as (mds & Hbuf & Hnames & Hall).
  exists buf', ct', mds. split; [reflexivity |]. split; [exact Hbuf |].
  split; [exact Hnames |].
  eapply Forall_impl; [exact Hall |]. intros md [Hc Hi]. split; [exact Hc |].
  change (Ok "store.Saver" = Ok (Interface md)) in Hi. congruence.
Defined.

(** ** The packages a file can import *)

Lemma prefix_cons (c c' : Ascii.ascii) (t s : string) :
  String.prefix (String c t) (String c' s) = true ↔ c = c' ∧ String.prefix t s = true.
Proof.
  simpl. destruct (Ascii.ascii_dec c c') as [-> | Hne]; split.
  - intros Hp. split; [reflexivity | exact Hp].
  - intros [_ Hp]. exact Hp.
  - discriminate.
  - intros [Heq _]. contradiction.
Qed.

Lemma prefix_app_l (t u s : string) :
  String.prefix (t +:+ u) s = true → String.prefix t s = true.
Proof.
  revert s. induction t as [| c t IH]; intros s Hp; [destruct s; reflexivity |].
  change (String.prefix (String c (t +:+ u)) s = true) in Hp.
  destruct s as [| c' s]; [discriminate Hp |].
  apply prefix_cons in Hp as [-> Hp]. apply prefix_cons. split; [reflexivity |].
  exact (IH s Hp).
Qed.

Lemma prefix_app (t s : string) : String.prefix t (t +:+ s) = true.
Proof.
  induction t as [| c t IH]; [destruct s; reflexivity |].
  change (String.prefix (String c t) (String c (t +:+ s)) = true).
  apply prefix_cons. split; [reflexivity | exact IH].
Qed.

Lemma prefix_app_r (r t s : string) :
  String.prefix t s = true → String.prefix (r +:+ t) (r +:+ s) = true.
Proof.
  intros Hp. induction r as [| c r IH]; [exact Hp |].
  change (String.prefix (String c (r +:+ t)) (String c (r +:+ s)) = true).
  apply prefix_cons. split; [reflexivity | exact IH].
Qed.

Lemma Contains_nil (substr : string) : Contains "" substr = String.prefix substr "".
Proof. simpl. apply orb_false_r. Qed.

Lemma Contains_cons (c : Ascii.ascii) (s substr : string) :
  Contains (String c s) substr = String.prefix substr (String c s) || Contains s substr.
Proof. reflexivity. Qed.

Lemma prefix_Contains (s substr : string) :
  String.prefix substr s = true → Contains s substr = true.
Proof.
  intros Hp. destruct s; [rewrite Contains_nil | rewrite Contains_cons, Hp];
    [exact Hp | reflexivity].
Qed.

Lemma Contains_app_l (s t u : string) :
  Contains s (t +:+ u) = true → Contains s t = true.
Proof.
  induction s as [| c s IH].
  - rewrite !Contains_nil. apply prefix_app_l.
  - rewrite !Contains_cons. intros Hc. apply orb_true_iff in Hc as [Hp | Hc].
    + rewrite (prefix_app_l _ _ _ Hp). reflexivity.
    + rewrite (IH Hc). apply orb_true_r.
Qed.

Lemma Contains_tail (s t : string) (c : Ascii.ascii) :
  Contains s (String c t) = true → Contains s t = true.
Proof.
  induction s as [| c' s IH].
  - rewrite Contains_nil. discriminate.
  - rewrite !Contains_cons. intros Hc. apply orb_true_iff in Hc as [Hp | Hc].
    + apply prefix_cons in Hp as [_ Hp]. rewrite (prefix_Contains _ _ Hp).
      apply orb_true_r.
    + rewrite (IH Hc). apply orb_true_r.
Qed.

Lemma Contains_app (r s t : string) : Contains s t = true → Contains (r +:+ s) t = true.
Proof.
  intros Hc. induction r as [| c r IH]; [exact Hc |].
  change (Contains (String c (r +:+ s)) t = true).
  rewrite Contains_cons, IH. apply orb_true_r.
Qed.

Import known.

Lemma LastIndex_cons (c : Ascii.ascii) (s substr : string) :
  LastIndex (String c s) substr
  = if bool_decide (-1 < LastIndex s substr)%Z then (LastIndex s substr + 1)%Z
    else if String.prefix substr (String c s) then 0%Z else (-1)%Z.
Proof. reflexivity. Qed.

Lemma LastIndex_nil (substr : string) :
  LastIndex "" substr = if String.prefix substr "" then 0%Z else (-1)%Z.
Proof. reflexivity. Qed.

Lemma LastIndex_range (s substr : string) : (-1 ≤ LastIndex s substr)%Z.
Proof.
  induction s as [| c s IH].
  - rewrite LastIndex_nil. destruct (String.prefix substr ""); lia.
  - rewrite LastIndex_cons. destruct (bool_decide _); [lia |].
    destruct (String.prefix substr (String c s)); lia.
Qed.

(** Without an instance of the substring, [LastIndex] is -1. *)
Lemma LastIndex_none (s substr : string) :
  Contains s substr = false → LastIndex s substr = (-1)%Z.
Proof.
  induction s as [| c s IH].
  - rewrite Contains_nil, LastIndex_nil. intros Hp. rewrite Hp. reflexivity.
  - rewrite Contains_cons. intros Hc. apply orb_false_iff in Hc as [Hp Hc].
    rewrite LastIndex_cons, (IH Hc), Hp. reflexivity.
Qed.

(** With an instance, it is the index of one. *)
Lemma LastIndex_some (s substr : string) :
  Contains s substr = true → (0 ≤ LastIndex s substr)%Z.
Proof.
  induction s as [| c s IH];
    [rewrite Contains_nil, LastIndex_nil; intros Hp; rewrite Hp; lia |].
  rewrite Contains_cons. intros Hc. apply orb_true_iff in Hc as [Hp | Hc].
  - rewrite LastIndex_cons. pose proof (LastIndex_range s substr) as Hr.
    destruct (bool_decide _) eqn:Hi; [lia |]. rewrite Hp. lia.
  - rewrite LastIndex_cons. specialize (IH Hc).
    rewrite bool_decide_eq_true_2 by lia. lia.
Qed.

Lemma LastIndex_app (r s substr : string) :
  (0 ≤ LastIndex s substr)%Z →
  LastIndex (r +:+ s) substr = (Z.of_nat (String.length r) + LastIndex s substr)%Z.
Proof.
  intros Hi. induction r as [| c r IH];
    [change (LastIndex s substr = (0 + LastIndex s substr)%Z); lia |].
  change (LastIndex (String c (r +:+ s)) substr
          = (Z.of_nat (S (String.length r)) + LastIndex s substr)%Z).
  rewrite LastIndex_cons, IH. rewrite bool_decide_eq_true_2 by lia. lia.
Qed.

Lemma LastIndex_here (c : Ascii.ascii) (s substr : string) :
  LastIndex s substr = (-1)%Z → String.prefix substr (String c s) = true →
  LastIndex (String c s) substr = 0%Z.
Proof. intros Hi Hp. rewrite LastIndex_cons, Hi, Hp. reflexivity. Qed.

Lemma LastIndex_not_here (c : Ascii.ascii) (s substr : string) :
  LastIndex s substr = (-1)%Z → String.prefix substr (String c s) = false →
  LastIndex (String c s) substr = (-1)%Z.
Proof. intros Hi Hp. rewrite LastIndex_cons, Hi, Hp. reflexivity. Qed.

Lemma upTo_app (r s : string) : upTo (r +:+ s) (Z.of_nat (String.length r)) = r.
Proof.
  unfold upTo. rewrite Nat2Z.id. induction r as [| c r IH]; [destruct s; reflexivity |].
  change (String c (String.substring 0 (String.length r) (r +:+ s)) = String c r).
  rewrite IH. reflexivity.
Qed.

(** X16.
    A path that does not hold the word [internal] can be imported from
    everywhere. *)
Theorem import_without_internal_is_valid (pkgPath importPkgPath : string) :
  Contains importPkgPath "internal" = false →
  isValidImport pkgPath importPkgPath = true.
Proof.
  intros Hc. unfold isValidImport, HasPrefix.
  assert (H1 : String.prefix "internal/" importPkgPath = false).
  { destruct (String.prefix "internal/" importPkgPath) eqn:Hp; [| reflexivity].
    apply (prefix_app_l "internal" "/") in Hp. apply prefix_Contains in Hp. congruence. }
  assert (H2 : Contains importPkgPath "/internal" = false).
  { destruct (Contains importPkgPath "/internal") eqn:Hp; [| reflexivity].
    apply Contains_tail in Hp. congruence. }
  assert (H3 : Contains importPkgPath "/internal/" = false).
  { destruct (Contains importPkgPath "/internal/") eqn:Hp; [| reflexivity].
    apply (Contains_app_l _ "/internal" "/") in Hp. congruence. }
  rewrite H1, (LastIndex_none _ _ H3), (LastIndex_none _ _ H2). reflexivity.
Qed.

Lemma LastIndex_internal (rest : string) :
  Contains rest "internal" = false →
  LastIndex ("/internal/" +:+ rest) "/internal/" = 0%Z.
Proof.
  intros Hc.
  assert (H1 : String.prefix "internal/" rest = false).
  { destruct (String.prefix "internal/" rest) eqn:Hp; [| reflexivity].
    apply (prefix_app_l "internal" "/") in Hp. apply prefix_Contains in Hp. congruence. }
  assert (H2 : LastIndex rest "/internal/" = (-1)%Z).
  { apply LastIndex_none. destruct (Contains rest "/internal/") eqn:Hp; [| reflexivity].
    apply (Contains_app_l _ "/internal" "/") in Hp. apply Contains_tail in Hp.
    congruence. }
  cbv [String.append]. apply LastIndex_here; [| exact (prefix_app "/internal/" rest)].
  do 8 (apply LastIndex_not_here; [| reflexivity]).
  apply LastIndex_not_here; [exact H2 |].
  match goal with |- ?p = false => destruct p eqn:Hp; [| reflexivity] end.
  apply prefix_cons in Hp as [_ Hp]. congruence.
Qed.

(** X17.
    The rule of [internal] directories is a test of strings.  When the
    last [/internal/] of the path of the import follows [root], the import
    is valid exactly from the packages whose path starts with the
    characters of [root]: from [root] and the packages below it, and also
    from a package beside it whose name only starts like that of [root]. *)
Theorem internal_import_is_valid_by_prefix (pkgPath root rest : string) :
  HasPrefix (root +:+ "/internal/" +:+ rest) "internal/" = false →
  Contains rest "internal" = false →
  isValidImport pkgPath (root +:+ "/internal/" +:+ rest) = HasPrefix pkgPath root
  ∧ ∀ more, isValidImport (root +:+ more) (root +:+ "/internal/" +:+ rest) = true.
Proof.
  intros Hnp Hc.
  assert (Hrule : ∀ p, isValidImport p (root +:+ "/internal/" +:+ rest) = HasPrefix p root).
  { intros p. unfold isValidImport. rewrite Hnp.
    rewrite LastIndex_app by (rewrite (LastIndex_internal rest Hc); lia).
    rewrite (LastIndex_internal rest Hc), Z.add_0_r.
    rewrite bool_decide_eq_true_2 by lia. rewrite upTo_app. reflexivity. }
  split; [apply Hrule |]. intros more. rewrite Hrule. apply prefix_app.
Qed.

Lemma internal_import_is_valid_by_prefix_witness :
  isValidImport "example.com/store" "example.com/vault/internal/keys"
  = HasPrefix "example.com/store" "example.com/vault"
  ∧ ∀ more, isValidImport ("example.com/vault" +:+ more)
              "example.com/vault/internal/keys" = true.
Proof.
  apply (internal_import_is_valid_by_prefix "example.com/store" "example.com/vault"
           "keys"); reflexivity.
Defined.

Lemma import_without_internal_is_valid_witness :
  isValidImport "example.com/cases" "example.com/store" = true.
Proof.
  apply (import_without_internal_is_valid "example.com/cases" "example.com/store").
  reflexivity.
Defined.

(** *** The order of the result *)

Lemma ascii_compare_refl (c : Ascii.ascii) : Ascii.compare c c = Eq.
Proof. unfold Ascii.compare. apply N.compare_refl. Qed.

Lemma ascii_compare_lt_trans (a b c : Ascii.ascii) :
  Ascii.compare a b = Lt → Ascii.compare b c = Lt → Ascii.compare a c = Lt.
Proof.
  unfold Ascii.compare. rewrite !N.compare_lt_iff. apply N.lt_trans.
Qed.

Lemma string_compare_cons (a b : Ascii.ascii) (s t : string) :
  String.compare (String a s) (String b t)
  = match Ascii.compare a b with
    | Eq => String.compare s t
    | ne => ne
    end.
Proof. reflexivity. Qed.

Lemma string_compare_refl (s : string) : String.compare s s = Eq.
Proof.
  induction s as [| c s IH]; [reflexivity |].
  rewrite string_compare_cons, ascii_compare_refl. exact IH.
Qed.

Lemma string_compare_lt_trans (s t u : string) :
  String.compare s t = Lt → String.compare t u = Lt → String.compare s u = Lt.
Proof.
  revert t u. induction s as [| a s IH]; intros [| b t] [| c u]; try discriminate;
    try reflexivity.
  rewrite !string_compare_cons.
  destruct (Ascii.compare a b) eqn:Hab; try discriminate;
    destruct (Ascii.compare b c) eqn:Hbc; try discriminate; intros Hst Htu.
  - apply Ascii.compare_eq_iff in Hab, Hbc. subst. rewrite ascii_compare_refl.
    exact (IH _ _ Hst Htu).
  - apply Ascii.compare_eq_iff in Hab. subst. rewrite Hbc. reflexivity.
  - apply Ascii.compare_eq_iff in Hbc. subst. rewrite Hab. reflexivity.
  - rewrite (ascii_compare_lt_trans _ _ _ Hab Hbc). reflexivity.
Qed.

Lemma ltb_irrefl (s : string) : String.ltb s s = false.
Proof. unfold String.ltb. rewrite string_compare_refl. reflexivity. Qed.

Lemma ltb_trans (s t u : string) :
  String.ltb s t = true → String.ltb t u = true → String.ltb s u = true.
Proof.
  unfold String.ltb. intros Hst Htu.
  destruct (String.compare s t) eqn:H1; try discriminate.
  destruct (String.compare t u) eqn:H2; try discriminate.
  rewrite (string_compare_lt_trans _ _ _ H1 H2). reflexivity.
Qed.

Lemma ltb_total (s t : string) : s ≠ t → String.ltb s t = true ∨ String.ltb t s = true.
Proof.
  intros Hne. unfold String.ltb. rewrite (String.compare_antisym t s).
  destruct (String.compare s t) eqn:Hc; simpl; [| left; reflexivity | right; reflexivity].
  apply String.compare_eq_iff in Hc. contradiction.
Qed.

Lemma importLess_irrefl (a : string) : importLess a a = false.
Proof. unfold importLess. rewrite ltb_irrefl. destruct (Contains a "."); reflexivity. Qed.

Lemma importLess_trans (a b c : string) :
  importLess a b = true → importLess b c = true → importLess a c = true.
Proof.
  unfold importLess.
  destruct (Contains a "."), (Contains b "."), (Contains c "."); simpl;
    try discriminate; try reflexivity; apply ltb_trans.
Qed.

Lemma importLess_total (a b : string) :
  a ≠ b → importLess a b = true ∨ importLess b a = true.
Proof.
  intros Hne. unfold importLess.
  destruct (Contains a "."), (Contains b "."); simpl;
    [apply ltb_total, Hne | right; reflexivity | left; reflexivity
    | apply ltb_total, Hne].
Qed.

Lemma importLess_dot (a b : string) :
  Contains a "." = false → Contains b "." = true →
  importLess a b = true ∧ importLess b a = false.
Proof. unfold importLess. intros -> ->. split; reflexivity. Qed.

Lemma importLess_same (a b : string) :
  Contains a "." = Contains b "." → importLess a b = String.ltb a b.
Proof. unfold importLess. intros ->. destruct (Contains b "."); reflexivity. Qed.

(** X18.
    The function that [KnownPackages] sorts with is a strict total order,
    as [sort.Slice] asks of it (so that the sorted slice does not depend
    on the algorithm): paths without a dot, those of the standard library,
    come before paths with one, and paths of a kind are in the order of
    their bytes. *)
Theorem importLess_is_a_strict_total_order :
  (∀ a, importLess a a = false)
  ∧ (∀ a b c, importLess a b = true → importLess b c = true → importLess a c = true)
  ∧ (∀ a b, a ≠ b → importLess a b = true ∨ importLess b a = true)
  ∧ (∀ a b, Contains a "." = false → Contains b "." = true →
            importLess a b = true ∧ importLess b a = false)
  ∧ (∀ a b, Contains a "." = Contains b "." → importLess a b = String.ltb a b).
Proof.
  split; [exact importLess_irrefl |].
  split; [exact importLess_trans |].
  split; [exact importLess_total |].
  split; [exact importLess_dot | exact importLess_same].
Qed.

(** *** The loop over the known packages *)

Section KnownLoop.
Context {P : Type} `{PackageGraph P}.

Lemma knownLoop_cons (pkg : P) (ai : gset string) (k : P) (rest : list P)
    (visited : gset string) (resp : list string) :
  head (CompiledGoFiles k) ≠ Some None →
  knownLoop pkg ai (k :: rest) visited resp
  = if counts ai k && bool_decide (PkgPath k ∉ visited)
    then knownLoop pkg ai rest ({[PkgPath k]} ∪ visited)
           (if importable pkg k then resp ++ [PkgPath k] else resp)
    else knownLoop pkg ai rest visited resp.
Proof.
  intros Hfile. unfold counts, named, importable. simpl.
  destruct (CompiledGoFiles k) as [| [[name |] |] files]; simpl; try reflexivity;
    [| destruct (Hfile eq_refl)].
  destruct (String.eqb name "main"); simpl; [reflexivity |].
  destruct (decide (PkgPath k ∈ ai)) as [Hin | Hout].
  - rewrite (bool_decide_eq_true_2 _ Hin).
    rewrite bool_decide_eq_false_2 by (intros Hn; exact (Hn Hin)). reflexivity.
  - rewrite (bool_decide_eq_false_2 _ Hout), (bool_decide_eq_true_2 _ Hout). simpl.
    destruct (decide (PkgPath k ∈ visited)) as [Hv | Hv].
    + rewrite (bool_decide_eq_true_2 _ Hv).
      rewrite bool_decide_eq_false_2 by (intros Hn; exact (Hn Hv)). reflexivity.
    + rewrite (bool_decide_eq_false_2 _ Hv), (bool_decide_eq_true_2 _ Hv).
      destruct (isValidImport (PkgPath pkg) (PkgPath k)); simpl; [| reflexivity].
      destruct (isCyclicalImport pkg k); reflexivity.
Qed.

Lemma knownLoop_spec (pkg : P) (ai : gset string) (pkgs : list P) :
  (∀ k, k ∈ pkgs → head (CompiledGoFiles k) ≠ Some None) →
  ∀ visited resp,
    ∃ new,
      knownLoop pkg ai pkgs visited resp = Ok (resp ++ new)
      ∧ NoDup new
      ∧ ∀ path, path ∈ new ↔ (path ∉ visited) ∧ offered pkg ai pkgs path.
Proof.
  induction pkgs as [| k rest IH]; intros Hfiles visited resp.
  - exists []. rewrite app_nil_r. split; [reflexivity |]. split; [constructor |].
    intros path. split; [intros Hin; apply elem_of_nil in Hin; destruct Hin |].
    intros (_ & pre & k & post & Hsplit & _). destruct pre; discriminate.
  - rewrite knownLoop_cons by (apply Hfiles; left).
    assert (Hrest : ∀ k', k' ∈ rest → head (CompiledGoFiles k') ≠ Some None)
      by (intros k' Hk'; apply Hfiles; right; exact Hk').
    (* what a package before the others changes in [offered] *)
    assert (Hlater : ∀ path, (PkgPath k = path → counts ai k = false) →
              (offered pkg ai (k :: rest) path ↔ offered pkg ai rest path)).
    { intros path Hk. split.
      - intros (pre & k0 & post & Hsplit & Hpath & Hcounts & Himp & Hfirst).
        destruct pre as [| k1 pre]; simpl in Hsplit; injection Hsplit as <- ->.
        + rewrite (Hk Hpath) in Hcounts. discriminate.
        + exists pre, k0, post. repeat split; try assumption.
          intros k' Hk'. apply Hfirst. right. exact Hk'.
      - intros (pre & k0 & post & -> & Hpath & Hcounts & Himp & Hfirst).
        exists (k :: pre), k0, post. repeat split; try assumption.
        intros k' Hk' Hp. apply elem_of_cons in Hk' as [-> | Hk'];
          [exact (Hk Hp) | exact (Hfirst k' Hk' Hp)]. }
    destruct (counts ai k) eqn:Hcounts; simpl;
      [destruct (decide (PkgPath k ∈ visited)) as [Hv | Hv] |].
    + rewrite bool_decide_eq_false_2 by (intros Hn; exact (Hn Hv)).
      destruct (IH Hrest visited resp) as (new & Hrun & Hnodup & Hnew).
      exists new. split; [exact Hrun |]. split; [exact Hnodup |].
      intros path. rewrite Hnew. split; intros [Hout Hoff]; (split; [exact Hout |]).
      * destruct Hoff as (pre & k0 & post & -> & Hpath & Hc0 & Himp & Hfirst).
        exists (k :: pre), k0, post. repeat split; try assumption.
        intros k' Hk' Hp. apply elem_of_cons in Hk' as [-> | Hk'];
          [congruence | exact (Hfirst k' Hk' Hp)].
      * destruct Hoff as (pre & k0 & post & Hsplit & Hpath & Hc0 & Himp & Hfirst).
        destruct pre as [| k1 pre]; simpl in Hsplit; injection Hsplit as <- ->;
          [congruence |].
        exists pre, k0, post. repeat split; try assumption.
        intros k' Hk'. apply Hfirst. right. exact Hk'.
    + rewrite (bool_decide_eq_true_2 _ Hv).
      assert (Hother : ∀ path, path ≠ PkgPath k →
                (offered pkg ai (k :: rest) path ↔ offered pkg ai rest path)).
      { intros path Hne. apply Hlater. intros Heq. congruence. }
      destruct (importable pkg k) eqn:Himp.
      * destruct (IH Hrest ({[PkgPath k]} ∪ visited) (resp ++ [PkgPath k]))
          as (new & Hrun & Hnodup & Hnew).
        exists (PkgPath k :: new). rewrite Hrun, <- app_assoc. split; [reflexivity |].
        split.
        { constructor; [| exact Hnodup]. intros Hin. apply Hnew in Hin as [Hout _].
          apply Hout. apply elem_of_union. left. apply elem_of_singleton. reflexivity. }
        intros path. rewrite elem_of_cons, Hnew, elem_of_union, elem_of_singleton.
        destruct (decide (path = PkgPath k)) as [-> | Hne].
        { split; [| left; reflexivity]. intros _. split; [exact Hv |].
          exists [], k, rest. repeat split; try assumption.
          intros k' Hk'. apply elem_of_nil in Hk'. destruct Hk'. }
        rewrite (Hother path Hne). tauto.
      * destruct (IH Hrest ({[PkgPath k]} ∪ visited) resp) as (new & Hrun & Hnodup & Hnew).
        exists new. split; [exact Hrun |]. split; [exact Hnodup |].
        intros path. rewrite Hnew, elem_of_union, elem_of_singleton.
        destruct (decide (path = PkgPath k)) as [-> | Hne].
        { split; [tauto |]. intros (_ & pre & k0 & post & Hsplit & Hpath & Hc0 & Hi0 & Hfirst).
          destruct pre as [| k1 pre]; simpl in Hsplit; injection Hsplit as <- ->.
          - congruence.
          - rewrite (Hfirst k) in Hcounts; [discriminate | left | reflexivity]. }
        rewrite (Hother path Hne). tauto.
    + destruct (IH Hrest visited resp) as (new & Hrun & Hnodup & Hnew).
      exists new. split; [exact Hrun |]. split; [exact Hnodup |].
      intros path. rewrite Hnew, (Hlater path); [tauto |]. intros _. reflexivity.
Qed.
End KnownLoop.

Section KnownResult.
Context {P : Type} `{PackageGraph P} (env : Env P).
Variables (snapshotKnownPackages : result (list P)) (literal : ast.ImportSpec → string)
  (sortSlice : (string → string → bool) → list string → list string).
Variables (fh : VersionedFileHandle) (pkg : P) (pgf : ParsedGoFile) (f : ast.File)
  (pkgs : list P).
Hypothesis Hfile : GetParsedFile env fh NarrowestPackage = Ok (pkg, pgf).
Hypothesis Hast : File pgf = Some f.
Hypothesis Hknown : snapshotKnownPackages = Ok pkgs.
Hypothesis Hfiles : ∀ k, k ∈ pkgs → head (CompiledGoFiles k) ≠ Some None.
Hypothesis Hperm : ∀ l, sortSlice importLess l ≡ₚ l.

Lemma KnownPackages_run :
  ∃ resp,
    KnownPackages env snapshotKnownPackages literal sortSlice fh
    = Ok (sortSlice importLess resp)
    ∧ NoDup resp
    ∧ ∀ path, path ∈ resp
              ↔ offered pkg (list_to_set (literal <$> ast.Imports f)) pkgs path.
Proof.
  destruct (knownLoop_spec pkg (list_to_set (literal <$> ast.Imports f)) pkgs Hfiles ∅ [])
    as (resp & Hrun & Hnodup & Hresp).
  exists resp. unfold KnownPackages. rewrite Hfile. simpl. rewrite Hast. simpl.
  rewrite Hknown. simpl. rewrite Hrun. split; [reflexivity |].
  split; [exact Hnodup |]. intros path. rewrite Hresp. split; [tauto |].
  intros Hoff. split; [apply not_elem_of_empty | exact Hoff].
Qed.

(** X19.
    What [KnownPackages] returns, when no first file of a known package
    is without syntax: each path once, and a path exactly when the first
    known package of that path which has a package clause other than
    [main], and is not in the set of the imports of the file, can be
    imported: its path passes [isValidImport] and it does not import the
    package of the file.  A later version of the path is not looked at,
    also when the first one is refused. *)
Theorem known_packages_are_the_first_versions :
  ∃ out,
    KnownPackages env snapshotKnownPackages literal sortSlice fh = Ok out
    ∧ NoDup out
    ∧ ∀ path, path ∈ out
              ↔ offered pkg (list_to_set (literal <$> ast.Imports f)) pkgs path.
Proof.
  destruct KnownPackages_run as (resp & Hrun & Hnodup & Hresp).
  exists (sortSlice importLess resp). split; [exact Hrun |].
  split; [rewrite (Hperm resp); exact Hnodup |].
  intros path. rewrite (Hperm resp). apply Hresp.
Qed.

(** X20.
    The paths come in ascending order of [importLess], each before the
    ones it is less than: the paths without a dot first, then the paths
    with one, each kind in the order of its bytes. *)
Theorem known_packages_are_in_order :
  (∀ l, sortedBy importLess (sortSlice importLess l)) →
  ∃ out,
    KnownPackages env snapshotKnownPackages literal sortSlice fh = Ok out
    ∧ ∀ i j a b, i < j → out !! i = Some a → out !! j = Some b →
        importLess a b = true
        ∧ (Contains a "." = true → Contains b "." = true)
        ∧ (Contains a "." = Contains b "." → String.ltb a b = true).
Proof.
  intros Hsorted. destruct KnownPackages_run as (resp & Hrun & Hnodup & _).
  exists (sortSlice importLess resp). split; [exact Hrun |].
  intros i j a b Hij Ha Hb.
  pose proof (Hsorted resp i j a b Hij Ha Hb) as Hge.
  assert (Hne : a ≠ b).
  { intros ->. rewrite <- (Hperm resp) in Hnodup.
    pose proof (NoDup_lookup _ _ _ _ Hnodup Ha Hb). lia. }
  assert (Hlt : importLess a b = true)
    by (destruct (importLess_total a b Hne); congruence).
  split; [exact Hlt |]. split.
  - intros Hda. destruct (Contains b ".") eqn:Hdb; [reflexivity |].
    destruct (importLess_dot b a Hdb Hda). congruence.
  - intros Heq. rewrite <- (importLess_same a b Heq). exact Hlt.
Qed.

Lemma offered_ext (ai ai' : gset string) (path : string) :
  (∀ k, k ∈ pkgs → counts ai k = counts ai' k) →
  offered pkg ai pkgs path → offered pkg ai' pkgs path.
Proof.
  intros Hext (pre & k & post & Hsplit & Hpath & Hcounts & Himp & Hfirst).
  exists pre, k, post. split; [exact Hsplit |]. split; [exact Hpath |].
  assert (Hin : ∀ k', k' ∈ pre ++ k :: post → k' ∈ pkgs) by (rewrite Hsplit; tauto).
  split; [rewrite <- Hext; [exact Hcounts | apply Hin, elem_of_app; right; left] |].
  split; [exact Himp |]. intros k' Hk' Hp.
  rewrite <- Hext; [exact (Hfirst k' Hk' Hp) | apply Hin, elem_of_app; left; exact Hk'].
Qed.

(** X21.
    The imports of the file play no part.  The set of the imports holds
    the paths as the source spells them, between quotes, and the path of a
    known package has no quotes: a package that the file imports already
    is offered like any other, and the result is that for a file without
    imports. *)
Theorem imported_packages_are_offered_again :
  (∀ imp, imp ∈ ast.Imports f →
     HasPrefix (literal imp) quote = true ∨ HasPrefix (literal imp) "`" = true) →
  (∀ k, k ∈ pkgs →
     HasPrefix (PkgPath k) quote = false ∧ HasPrefix (PkgPath k) "`" = false) →
  ∃ out,
    KnownPackages env snapshotKnownPackages literal sortSlice fh = Ok out
    ∧ (∀ path, path ∈ out ↔ offered pkg ∅ pkgs path)
    ∧ ∀ imp, imp ∈ ast.Imports f → offered pkg ∅ pkgs (ast.ImpPath imp) →
             ast.ImpPath imp ∈ out.
Proof.
  intros Hquoted Hpaths.
  assert (Hcounts : ∀ k, k ∈ pkgs →
            counts (list_to_set (literal <$> ast.Imports f)) k = counts ∅ k).
  { intros k Hk. unfold counts. f_equal.
    rewrite (bool_decide_eq_true_2 (PkgPath k ∉ ∅)) by apply not_elem_of_empty.
    apply bool_decide_eq_true_2. intros Hin.
    apply elem_of_list_to_set, list_elem_of_fmap in Hin as (imp & Heq & Himp).
    destruct (Hpaths k Hk) as [Hq Hb].
    destruct (Hquoted imp Himp) as [Hl | Hl]; congruence. }
  destruct KnownPackages_run as (resp & Hrun & _ & Hresp).
  assert (Hsame : ∀ path, path ∈ sortSlice importLess resp ↔ offered pkg ∅ pkgs path).
  { intros path. rewrite (Hperm resp), Hresp. split; apply offered_ext; intros k Hk;
      [| symmetry]; exact (Hcounts k Hk). }
  exists (sortSlice importLess resp). split; [exact Hrun |]. split; [exact Hsame |].
  intros imp _ Hoff. apply Hsame, Hoff.
Qed.
End KnownResult.

(** *** On the second workspace *)

Lemma insertSorted_Permutation (less : string → string → bool) (x : string)
    (l : list string) :
  Cases.insertSorted less x l ≡ₚ x :: l.
Proof.
  induction l as [| y l IH]; simpl; [reflexivity |].
  destruct (less x y); [reflexivity |]. rewrite IH. apply Permutation_swap.
Qed.

Lemma sortSlice_Permutation (less : string → string → bool) (l : list string) :
  Cases.sortSlice less l ≡ₚ l.
Proof.
  induction l as [| x l IH]; [reflexivity |].
  change (Cases.insertSorted less x (Cases.sortSlice less l) ≡ₚ x :: l).
  rewrite insertSorted_Permutation, IH. reflexivity.
Qed.

Lemma sortedBy_cons (less : string → string → bool) (x : string) (l : list string) :
  sortedBy less (x :: l) ↔ (∀ b, b ∈ l → less b x = false) ∧ sortedBy less l.
Proof.
  unfold sortedBy. split.
  - intros Hs. split.
    + intros b Hb. apply list_elem_of_lookup_1 in Hb as (j & Hj).
      apply (Hs 0 (S j) x b); [lia | reflexivity | exact Hj].
    + intros i j a b Hij Ha Hb. apply (Hs (S i) (S j) a b); [lia | exact Ha | exact Hb].
  - intros [Hx Hs] i j a b Hij Ha Hb. destruct j as [| j]; [lia |]. simpl in Hb.
    destruct i as [| i]; simpl in Ha.
    + injection Ha as <-. apply Hx. exact (list_elem_of_lookup_2 _ _ _ Hb).
    + apply (Hs i j a b); [lia | exact Ha | exact Hb].
Qed.

Lemma sortSlice_sorted (l : list string) : sortedBy importLess (Cases.sortSlice importLess l).
Proof.
  pose proof importLess_irrefl as Hirrefl. pose proof importLess_trans as Htrans.
  assert (Hins : ∀ x l0, sortedBy importLess l0 →
            sortedBy importLess (Cases.insertSorted importLess x l0)).
  { intros x l0. induction l0 as [| y l0 IH]; intros Hs; simpl.
    - apply sortedBy_cons. split; [| intros i j a b _ Ha; rewrite lookup_nil in Ha;
                                     discriminate].
      intros b Hb. apply elem_of_nil in Hb. destruct Hb.
    - pose proof Hs as Hs'. apply sortedBy_cons in Hs' as [Hy Hl0].
      destruct (importLess x y) eqn:Hxy; apply sortedBy_cons.
      + split; [| exact Hs]. intros b Hb.
        destruct (importLess b x) eqn:Hbx; [| reflexivity].
        pose proof (Htrans b x y Hbx Hxy) as Hby.
        apply elem_of_cons in Hb as [-> | Hb];
          [rewrite Hirrefl in Hby; discriminate | rewrite (Hy b Hb) in Hby; discriminate].
      + split; [| exact (IH Hl0)]. intros b Hb.
        rewrite insertSorted_Permutation in Hb.
        apply elem_of_cons in Hb as [-> | Hb]; [exact Hxy | exact (Hy b Hb)]. }
  induction l as [| x l IH].
  - intros i j a b _ Ha. simpl in Ha. rewrite lookup_nil in Ha. discriminate.
  - exact (Hins x _ IH).
Qed.

Lemma known_packages_are_the_first_versions_witness :
  ∃ out,
    KnownPackages Cases.env (Ok Cases.knownPackages) Cases.literal Cases.sortSlice
      World.fhStore = Ok out
    ∧ NoDup out
    ∧ ∀ path, path ∈ out
              ↔ offered (Cases.Lib World.Store)
                  (list_to_set (Cases.literal <$> ast.Imports World.storeFile))
                  Cases.knownPackages path.
Proof.
  apply (known_packages_are_the_first_versions Cases.env (Ok Cases.knownPackages)
           Cases.literal Cases.sortSlice World.fhStore (Cases.Lib World.Store)
           (mkPGF "store.go" (Some World.storeFile)) World.storeFile Cases.knownPackages).
  - reflexivity.
  - reflexivity.
  - reflexivity.
  - intros k _. simpl. discriminate.
  - apply sortSlice_Permutation.
Defined.

Lemma known_packages_are_in_order_witness :
  ∃ out,
    KnownPackages Cases.env (Ok Cases.knownPackages) Cases.literal Cases.sortSlice
      World.fhStore = Ok out
    ∧ ∀ i j a b, i < j → out !! i = Some a → out !! j = Some b →
        importLess a b = true
        ∧ (Contains a "." = true → Contains b "." = true)
        ∧ (Contains a "." = Contains b "." → String.ltb a b = true).
Proof.
  apply (known_packages_are_in_order Cases.env (Ok Cases.knownPackages)
           Cases.literal Cases.sortSlice World.fhStore (Cases.Lib World.Store)
           (mkPGF "store.go" (Some World.storeFile)) World.storeFile Cases.knownPackages).
  - reflexivity.
  - reflexivity.
  - reflexivity.
  - intros k _. simpl. discriminate.
  - apply sortSlice_Permutation.
  - apply sortSlice_sorted.
Defined.

Lemma imported_packages_are_offered_again_witness :
  ∃ out,
    KnownPackages Cases.env (Ok Cases.knownPackages) Cases.literal Cases.sortSlice
      World.fhStore = Ok out
    ∧ (∀ path, path ∈ out ↔ offered (Cases.Lib World.Store) ∅ Cases.knownPackages path)
    ∧ "example.com/models" ∈ out.
Proof.
  destruct (imported_packages_are_offered_again Cases.env (Ok Cases.knownPackages)
              Cases.literal Cases.sortSlice World.fhStore (Cases.Lib World.Store)
              (mkPGF "store.go" (Some World.storeFile)) World.storeFile
              Cases.knownPackages) as (out & Hrun & Hout & Himported).
  - reflexivity.
  - reflexivity.
  - reflexivity.
  - intros k _. simpl. discriminate.
  - apply sortSlice_Permutation.
  - intros imp _. left. apply (prefix_app quote).
  - intros k Hk. unfold Cases.knownPackages in Hk.
    repeat (apply elem_of_cons in Hk as [-> | Hk]; [split; reflexivity |]).
    apply elem_of_nil in Hk. destruct Hk.
  - exists out. split; [exact Hrun |]. split; [exact Hout |].
    apply (Himported (ast.mkImportSpec None "example.com/models")); [left |].
    exists [Cases.Main; Cases.Tool; Cases.Aliases; Cases.Fmt; Cases.Lib World.Store],
      (Cases.Lib World.Models),
      [Cases.Lib World.App; Cases.Lib World.Time; Cases.Keys; Cases.Fmt].
    split; [reflexivity |]. split; [reflexivity |]. split; [reflexivity |].
    split; [reflexivity |]. intros k' Hk' Hp.
    repeat (apply elem_of_cons in Hk' as [-> | Hk']; [discriminate Hp |]).
    apply elem_of_nil in Hk'. destruct Hk'.
Defined.

(** ** The import queue of the command-line variant *)

Lemma hasImport_None (ct : concreteType) (path : string) :
  impl.hasImport ct path = Ok None →
  firstImport ct path = Ok None ∧ path ∉ Path <$> addedImports ct.
Proof.
  unfold impl.hasImport, firstImport. destruct (file ct) as [f |]; [| discriminate].
  simpl. destruct (find (importsPath path) (ast.Imports f)); [discriminate |].
  destruct (find (λ imp, String.eqb (Path imp) path) (addedImports ct)) eqn:Hq;
    [discriminate |].
  intros _. split; [reflexivity |]. intros Hin.
  apply list_elem_of_fmap in Hin as (imp & -> & Himp).
  apply list_elem_of_In in Himp.
  pose proof (find_none _ _ Hq imp Himp) as Hne. simpl in Hne.
  rewrite String.eqb_refl in Hne. discriminate.
Qed.

Lemma impl_addImport_new (ct : concreteType) (name path : string) :
  NoDup (Path <$> addedImports ct) → path ∉ Path <$> addedImports ct →
  NoDup (Path <$> addedImports (impl.addImport ct name path)).
Proof.
  intros Hnodup Hnew. unfold impl.addImport. simpl. rewrite fmap_app.
  apply NoDup_app. split; [exact Hnodup |]. split.
  - intros p Hp Hin. simpl in Hin. apply list_elem_of_singleton in Hin. subst p.
    exact (Hnew Hp).
  - simpl. apply NoDup_singleton.
Qed.

(** X22.
    In [impl.go] the queue holds no path twice, though [addImport]
    appends without a test: the two functions of the rewriter that queue an
    import ask [hasImport] first, which looks at the queue as well as at
    the imports of the file.  A call of either keeps the paths of the queue
    distinct, and what it queues is a path that the file has no usable
    import of and that is not the path of the package of the concrete
    type. *)
Theorem impl_queue_holds_each_path_once (ct : concreteType) :
  NoDup (Path <$> addedImports ct) →
  (∀ X Sel info b X' ct',
     impl.mightRenameSelector X Sel info ct = Ok (b, X', ct') →
     NoDup (Path <$> addedImports ct')
     ∧ ∀ imp, imp ∈ addedImports ct' →
         imp ∈ addedImports ct
         ∨ (firstImport ct (Path imp) = Ok None ∧ Path imp ≠ types.Path (pkg ct)))
  ∧ (∀ ident ifacePkg b n ct',
       impl.mightAddSelector ident ifacePkg ct = Ok (b, n, ct') →
       NoDup (Path <$> addedImports ct')
       ∧ ∀ imp, imp ∈ addedImports ct' →
           imp ∈ addedImports ct
           ∨ (firstImport ct (Path imp) = Ok None ∧ Path imp ≠ types.Path (pkg ct))).
Proof.
  intros Hnodup.
  assert (Hsame : NoDup (Path <$> addedImports ct)
                  ∧ ∀ imp, imp ∈ addedImports ct →
                      imp ∈ addedImports ct
                      ∨ (firstImport ct (Path imp) = Ok None
                         ∧ Path imp ≠ types.Path (pkg ct)))
    by (split; [exact Hnodup | intros imp Himp; left; exact Himp]).
  assert (Hadd : ∀ name path,
            impl.hasImport ct path = Ok None → path ≠ types.Path (pkg ct) →
            NoDup (Path <$> addedImports (impl.addImport ct name path))
            ∧ ∀ imp, imp ∈ addedImports (impl.addImport ct name path) →
                imp ∈ addedImports ct
                ∨ (firstImport ct (Path imp) = Ok None
                   ∧ Path imp ≠ types.Path (pkg ct))).
  { intros name path Hnone Hne. apply hasImport_None in Hnone as [Hfile Hqueue].
    split; [exact (impl_addImport_new ct name path Hnodup Hqueue) |].
    intros imp Himp. unfold impl.addImport in Himp. simpl in Himp.
    apply elem_of_app in Himp as [Himp | Himp]; [left; exact Himp |].
    apply list_elem_of_singleton in Himp. subst imp. right. split; assumption. }
  split.
  - intros X Sel info b X' ct' Hrun. unfold impl.mightRenameSelector in Hrun.
    destruct X as [ident | X0 Sel0 | k p e kids];
      try (injection Hrun as _ _ <-; exact Hsame).
    destruct (UsesAt info ident) as [obj |]; [| injection Hrun as _ _ <-; exact Hsame].
    destruct (types.Kind obj) as [imported | | | | |];
      try (injection Hrun as _ _ <-; exact Hsame).
    destruct (impl.hasImport ct (types.Path imported)) as [[imp |] | e | msg] eqn:Hhas;
      simpl in Hrun; try discriminate.
    + injection Hrun as _ _ <-. exact Hsame.
    + destruct (String.eqb (types.Path imported) (types.Path (pkg ct))) eqn:Hown;
        injection Hrun as _ _ <-; [exact Hsame |].
      apply String.eqb_neq in Hown. exact (Hadd _ _ Hhas Hown).
  - intros ident ifacePkg b n ct' Hrun. unfold impl.mightAddSelector in Hrun.
    destruct (UsesAt (impl.TypesInfo ifacePkg) ident) as [obj |];
      [| injection Hrun as _ _ <-; exact Hsame].
    destruct (types.ObjType obj) as [| bn | name [npkg |] npos u | el | el | | ps rs vr | ms es];
      try (injection Hrun as _ _ <-; exact Hsame).
    destruct (impl.hasImport ct (types.Path npkg)) as [found | e | msg] eqn:Hhas;
      simpl in Hrun; try discriminate.
    assert (Hct : ct' = if bool_decide (found = None)
                           && negb (String.eqb (types.Path npkg) (types.Path (pkg ct)))
                        then impl.addImport ct "" (types.Path npkg) else ct).
    { destruct (_ || _) in Hrun; injection Hrun as _ _ <-; reflexivity. }
    subst ct'. destruct (decide (found = None)) as [-> | Hsome].
    + rewrite bool_decide_eq_true_2 by reflexivity. simpl.
      destruct (String.eqb (types.Path npkg) (types.Path (pkg ct))) eqn:Hown; simpl;
        [exact Hsame |].
      apply String.eqb_neq in Hown. exact (Hadd _ _ Hhas Hown).
    + rewrite (bool_decide_eq_false_2 _ Hsome). exact Hsame.
Qed.

Lemma impl_queue_holds_each_path_once_witness :
  impl.mightRenameSelector (ast.EIdent World.modelsId) World.userId
    (World.infoOf World.Store) (impl.addImport Cases.ct "" "example.com/models")
  = Ok (false, ast.EIdent World.modelsId, impl.addImport Cases.ct "" "example.com/models")
  ∧ NoDup (Path <$> addedImports (impl.addImport Cases.ct "" "example.com/models")).
Proof.
  split; [reflexivity |].
  refine (proj1 (proj1 (impl_queue_holds_each_path_once
                          (impl.addImport Cases.ct "" "example.com/models") _)
                   (ast.EIdent World.modelsId) World.userId (World.infoOf World.Store)
                   false (ast.EIdent World.modelsId)
                   (impl.addImport Cases.ct "" "example.com/models") eq_refl)).
  simpl. apply NoDup_singleton.
Defined.

(** ** A file that cannot be parsed *)

Section Unparsed.
Context {P : Type} `{Package P} (env : Env P) (fh : VersionedFileHandle).

(** X23.
    When [GetParsedFile] fails for the file of the diagnostics, the call
    fails with that error, wrapped, as soon as one diagnostic passes the
    filter, and returns the empty slice when none does: the file is asked
    for once for each diagnostic that passes, not once for the call. *)
Theorem unparsed_file_fails_at_the_first_request (e : error)
    (ds : list protocol.Diagnostic) :
  GetParsedFile env fh NarrowestPackage = Err e →
  MethodStubActions env ds fh
  = if existsb isStubDiagnostic ds then Err (wrapError "GetParsedFile" e)
    else Ok (Some []).
Proof.
  intros Hfile. unfold MethodStubActions. generalize (@nil protocol.CodeAction).
  induction ds as [| d ds IH]; intros actions; [reflexivity |].
  simpl. unfold diagnosticTurn. destruct (isStubDiagnostic d); simpl.
  - unfold resolveRequest. rewrite Hfile. reflexivity.
  - apply IH.
Qed.
End Unparsed.

Lemma unparsed_file_fails_at_the_first_request_witness :
  MethodStubActions Cases.env [Cases.d14; Cases.d7; Cases.d15] (mkFH "print.go" 1)
  = Err (wrapError "GetParsedFile" (errorString "no parsed file for print.go")).
Proof.
  apply (unparsed_file_fails_at_the_first_request Cases.env (mkFH "print.go" 1)
           (errorString "no parsed file for print.go")
           [Cases.d14; Cases.d7; Cases.d15]).
  reflexivity.
Defined.

(** ** More on the request *)

Section Requests.
Context {P : Type} `{Package P} (env : Env P) (fh : VersionedFileHandle).

(** X24.
    A variable declaration without a type whose value is not a call, as
    [var y = []I{T{}}] with the diagnostic on [T{}]: [fromValueSpec] hands
    the nil type to [ast.Inspect], whose walk panics on a nil node, and so
    does the call. *)
Theorem untyped_declaration_panics (d : protocol.Diagnostic) (pkg : P)
    (pgf : ParsedGoFile) (nodes : list ast.Node) (pos : token.Pos)
    (vs : ast.ValueSpec) (v : ast.Expr) (pre post : list protocol.Diagnostic) :
  isStubDiagnostic d = true →
  GetParsedFile env fh NarrowestPackage = Ok (pkg, pgf) →
  getNodes env pgf d = Ok (nodes, pos) →
  isVariableDeclaration nodes = Some vs →
  ast.SpecType vs = None →
  ast.Values vs !! valueIndex vs pos = Some v →
  (∀ p e kids, v ≠ ast.ENode ast.CallExpr p e kids) →
  Forall (λ d', ∃ t, diagnosticTurn env fh d' = Ok t ∧ t ≠ ReturnNil) pre →
  fromValueSpec vs pkg pos = Panic "ast.Walk: unexpected node type <nil>"
  ∧ MethodStubActions env (pre ++ d :: post) fh
    = Panic "ast.Walk: unexpected node type <nil>".
Proof.
  intros Hfilter Hfile Hnodes Hvs Htype Hv Hcall Hpre.
  assert (Hfrom : fromValueSpec vs pkg pos = Panic "ast.Walk: unexpected node type <nil>").
  { unfold fromValueSpec, index. rewrite Hv, Htype. simpl.
    destruct v as [x | X Sel | k p e kids]; try reflexivity.
    destruct k; try reflexivity. destruct (Hcall p e kids eq_refl). }
  split; [exact Hfrom |].
  apply (actionsLoop_stops env fh pre post d Hpre).
  apply (request_panic_is_turn_panic env fh d pkg pgf nodes pos Hfilter Hfile Hnodes).
  unfold getImplementRequest. rewrite Hvs. exact Hfrom.
Qed.

(** X25.
    A request for a type that is no interface, as the conversion
    [Wrap(T{})] to a struct type gives under a diagnostic that starts with
    [cannot convert]: [missingMethods] fails, and the call returns that
    error, wrapped, in place of the actions of the other diagnostics. *)
Theorem request_for_a_non_interface_fails (d : protocol.Diagnostic) (sc : stubContext)
    (pre post : list protocol.Diagnostic) :
  isStubDiagnostic d = true →
  resolveRequest env fh d = Ok (Some sc) →
  interfaceOf (types.ObjType (ifaceObj (scRequest sc))) = None →
  Forall (λ d', ∃ t, diagnosticTurn env fh d' = Ok t ∧ t ≠ ReturnNil) pre →
  MethodStubActions env (pre ++ d :: post) fh
  = Err (wrapError "missingMethods"
           (errorString ("expected <nil> to be an interface but got "
                         +:+ typeName (types.Underlying
                                         (types.ObjType (ifaceObj (scRequest sc))))))).
Proof.
  intros Hfilter Hreq Hiface Hpre.
  apply (actionsLoop_stops env fh pre post d Hpre).
  rewrite (diagnosticTurn_request env fh d sc Hfilter Hreq).
  unfold missingMethods. rewrite missingMethodsRec_unfold.
  destruct (types.ObjType (ifaceObj (scRequest sc)))
    as [| bn | n p npos u | el | el | | ps rs vr | ms es]; try reflexivity;
    [| discriminate Hiface].
  destruct u; try reflexivity. discriminate Hiface.
Qed.

(** X26.
    In the return form the requested interface is the named type of the
    result of the enclosing function at the index of the returned value,
    and the receiver is never a pointer: [return &T{}] asks for stubs on
    [T]. *)
Theorem return_form_takes_the_result_type (pos : token.Pos) (nodes : list ast.Node)
    (rs : ast.ReturnStmt) (pkg : P) (ir : stubRequest P) :
  getRequestFromReturn env pos nodes rs pkg = Ok (Some ir) →
  pointer ir = false
  ∧ ∃ idx fi name npkg npos u,
      getReturnIndex rs pos = Ok idx
      ∧ EnclosingFunction env nodes (GetTypesInfo pkg) = Some fi
      ∧ SigResults fi !! idx = Some (types.Named name (Some npkg) npos u)
      ∧ ifaceObj ir = types.Obj name (Some npkg) npos u.
Proof.
  unfold getRequestFromReturn. intros Hreq.
  apply bind_Ok in Hreq as (idx & Hidx & Hreq).
  apply bind_Ok in Hreq as (n & _ & Hreq).
  assert (Hbody :
    (found ← inspectIdents (returnIdent pkg) (ast.idents n) None;
     match found with
     | None => Ok None
     | Some (concreteObj, concretePkg) =>
         match EnclosingFunction env nodes (GetTypesInfo pkg) with
         | None => Err (errorString "could not find function in a return statement")
         | Some fi =>
             r ← index (SigResults fi) idx;
             match r with
             | types.Named n npkg npos u =>
                 let ifaceObj := types.Obj n npkg npos u in
                 ifaceObjPkg ← deref npkg;
                 ifacePkg ←
                   (if negb (String.eqb (PkgPath pkg) (types.Path ifaceObjPkg))
                    then match GetImport pkg (types.Path ifaceObjPkg) with
                         | Ok p => Ok (Some p)
                         | Err _ => Ok None
                         | Panic m => Panic m
                         end
                    else Ok (Some pkg));
                 Ok (Some (mkStubRequest ifacePkg ifaceObj concretePkg concreteObj false))
             | _ => Ok None
             end
         end
     end) = Ok (Some ir)).
  { destruct n as [y | X Sel | k p0 e0 kids]; try exact Hreq.
    destruct k; try exact Hreq; discriminate. }
  clear Hreq. apply bind_Ok in Hbody as (found & _ & Hbody).
  destruct found as [[cobj cpkg] |]; [| discriminate].
  destruct (EnclosingFunction env nodes (GetTypesInfo pkg)) as [fi |]; [| discriminate].
  apply bind_Ok in Hbody as (r & Hr & Hbody).
  destruct r as [| bn | n0 npkg npos u | el | el | | ps rs0 vr | ms0 es0];
    try discriminate.
  apply bind_Ok in Hbody as (ifaceObjPkg & Hderef & Hbody).
  apply deref_Ok in Hderef. subst npkg.
  apply bind_Ok in Hbody as (ip & _ & Hbody). injection Hbody as <-.
  split; [reflexivity |]. exists idx, fi, n0, ifaceObjPkg, npos, u.
  split; [exact Hidx |]. split; [reflexivity |]. split; [| reflexivity].
  unfold index in Hr. destruct (SigResults fi !! idx); congruence.
Qed.
End Requests.

Lemma untyped_declaration_panics_witness :
  fromValueSpec Cases.spec16 Cases.Main 5421%Z
  = Panic "ast.Walk: unexpected node type <nil>"
  ∧ MethodStubActions Cases.env [Cases.d7; Cases.d16] Cases.fh
    = Panic "ast.Walk: unexpected node type <nil>".
Proof.
  apply (untyped_declaration_panics Cases.env Cases.fh Cases.d16 Cases.Main
           (mkPGF "cases.go" (Some Cases.casesFile))
           (Cases.pathEnclosingInterval Cases.casesFile 5421%Z 5424%Z) 5421%Z
           Cases.spec16 Cases.sliceLit [Cases.d7] []).
  - reflexivity.
  - reflexivity.
  - reflexivity.
  - reflexivity.
  - reflexivity.
  - reflexivity.
  - discriminate.
  - constructor; [| constructor].
    destruct (diagnosticTurn Cases.env Cases.fh Cases.d7) as [[| a |] | e | msg] eqn:Hturn;
      try (vm_compute in Hturn; discriminate Hturn).
    exists (Append a). split; [reflexivity | discriminate].
Defined.

Lemma request_for_a_non_interface_fails_witness :
  MethodStubActions Cases.env [Cases.d17] Cases.fh
  = Err (wrapError "missingMethods"
           (errorString "expected <nil> to be an interface but got *types.Struct")).
Proof.
  destruct (resolveRequest Cases.env Cases.fh Cases.d17) as [[sc |] | e | msg] eqn:Hreq;
    try (vm_compute in Hreq; discriminate Hreq).
  assert (Hobj : ifaceObj (scRequest sc) = World.typeObject Cases.wrapType)
    by (vm_compute in Hreq; injection Hreq as <-; reflexivity).
  pose proof (request_for_a_non_interface_fails Cases.env Cases.fh Cases.d17 sc [] [])
    as Hfails.
  rewrite Hobj in Hfails. apply Hfails; [reflexivity | exact Hreq | reflexivity |].
  constructor.
Defined.

Lemma return_form_takes_the_result_type_witness :
  ∃ ir,
    getRequestFromReturn World.env 3321%Z
      (World.pathEnclosingInterval World.appFile 3321%Z 3324%Z) World.return4 World.App
    = Ok (Some ir)
    ∧ pointer ir = false
    ∧ ifaceObj ir = World.typeObject World.saverType.
Proof.
  destruct (getRequestFromReturn World.env 3321%Z
              (World.pathEnclosingInterval World.appFile 3321%Z 3324%Z)
              World.return4 World.App) as [[ir |] | e | msg] eqn:Hreq;
    try (vm_compute in Hreq; discriminate Hreq).
  destruct (return_form_takes_the_result_type World.env 3321%Z
              (World.pathEnclosingInterval World.appFile 3321%Z 3324%Z)
              World.return4 World.App ir Hreq)
    as (Hptr & idx & fi & name & npkg & npos & u & _ & _ & _ & Hobj).
  exists ir. split; [reflexivity |]. split; [exact Hptr |].
  vm_compute in Hreq. injection Hreq as <-. reflexivity.
Defined.
